(** * site_metrics_playwright: sitemap discovery, fallback crawl and word sampling

    A shallow embedding of [scripts/site_metrics_playwright.py] and the
    properties its specification states about it.

    Conventions of the embedding.
    - A Python [str] is a [string] whose characters are the code points
      U+0000..U+00FF, one [ascii] per code point; [bytes] is [list byte].
    - Python [int] is [Z]; slices [l[:n]] keep Python's meaning for negative [n].
    - Calls into the network (the request context and the browser page) are
      answered by a [Net] record; every computation returns, with its value,
      the list of the calls it made, in order.
    - Library calls are fields of a [Lib] record. A call that can raise
      returns, besides its value, the exception it raises: [result] for
      [urlparse], [urljoin] and [urldefrag], whose [ValueError] the script
      never catches, three cases for [ET.fromstring], of whose exceptions the
      script catches [ParseError] only, and [option] where the script catches
      every exception ([gzip.decompress], the fetchers and the navigations).
    - An exception that the script does not catch ends the computation: the
      computation then returns the exception, with the calls made so far.
    - The two unbounded loops (the recursive sitemap walk and the crawl loop)
      take a fuel argument; running out of fuel is [None]. For the walk the
      recursion limit of the interpreter is modelled apart, in
      [fetch_all_sitemap_urls_limited]. *)

From Stdlib Require Import ZArith NArith Ascii String List Lia Bool.
From Stdlib.Strings Require Import Byte.
From stdpp Require Import gmap strings list sorting relations.

#[local] Set Warnings "-register-all,-clear-no-such-hyp".
Local Open Scope Z_scope.

(** ** Python strings *)

Module Str.

Definition code (c : ascii) : N := N_of_ascii c.

Definition between (lo hi : N) (c : ascii) : bool :=
  ((lo <=? code c) && (code c <=? hi))%N.

(** [str.isspace] on U+0000..U+00FF. *)
Definition isspace (c : ascii) : bool :=
  between 9 13 c || between 28 32 c || (code c =? 133)%N || (code c =? 160)%N.

Definition is_ascii_alpha (c : ascii) : bool :=
  between 65 90 c || between 97 122 c.

Definition is_ascii_digit (c : ascii) : bool := between 48 57 c.

(** [str.lower] on one code point of U+0000..U+00FF. *)
Definition lower_char (c : ascii) : ascii :=
  if between 65 90 c || (between 192 222 c && negb (code c =? 215)%N)
  then ascii_of_N (code c + 32) else c.

Fixpoint lower (s : string) : string :=
  match s with
  | EmptyString => EmptyString
  | String c r => String (lower_char c) (lower r)
  end.

Fixpoint lstrip_by (p : ascii → bool) (s : string) : string :=
  match s with
  | EmptyString => EmptyString
  | String c r => if p c then lstrip_by p r else s
  end.

Definition rstrip_by (p : ascii → bool) (s : string) : string :=
  String.rev (lstrip_by p (String.rev s)).

(** [s.strip()] *)
Definition strip (s : string) : string := rstrip_by isspace (lstrip_by isspace s).

(** [s.startswith(p)] and [s.endswith(p)] *)
Definition startswith (s p : string) : bool := String.prefix p s.
Definition endswith (s p : string) : bool :=
  String.prefix (String.rev p) (String.rev s).

(** [sub in s] *)
Fixpoint contains (sub s : string) : bool :=
  String.prefix sub s ||
  match s with
  | EmptyString => false
  | String _ r => contains sub r
  end.

(** [c in s] for a single character *)
Fixpoint mem (c : ascii) (s : string) : bool :=
  match s with
  | EmptyString => false
  | String d r => if ascii_dec c d then true else mem c r
  end.

(** [s.split(c, 1)] when [c] occurs in [s]: the text before and after the
    first occurrence. [None] when [c] does not occur. *)
Fixpoint split_once (c : ascii) (s : string) : option (string * string) :=
  match s with
  | EmptyString => None
  | String d r =>
      if ascii_dec c d then Some (EmptyString, r)
      else match split_once c r with
           | Some (a, b) => Some (String d a, b)
           | None => None
           end
  end.

(** The longest prefix without a character satisfying [p], and the rest. *)
Fixpoint break (p : ascii → bool) (s : string) : string * string :=
  match s with
  | EmptyString => (EmptyString, EmptyString)
  | String d r =>
      if p d then (EmptyString, s)
      else let '(a, b) := break p r in (String d a, b)
  end.

Fixpoint all (p : ascii → bool) (s : string) : bool :=
  match s with
  | EmptyString => true
  | String d r => p d && all p r
  end.

Fixpoint remove (p : ascii → bool) (s : string) : string :=
  match s with
  | EmptyString => EmptyString
  | String d r => if p d then remove p r else String d (remove p r)
  end.

(** Truthiness of a string: [if s] *)
Definition nonempty (s : string) : bool :=
  match s with EmptyString => false | _ => true end.

End Str.

(** ** urllib.parse.urlparse

    The fields of [urlparse(url)] as [urlsplit] computes them: leading C0
    control characters and spaces are dropped, tabs and line breaks are
    removed, a scheme is split off at the first colon when everything before
    it is a scheme character, the authority runs from a leading [//] to the
    first of [/], [?] and [#], and fragment, query and parameters are cut from
    what remains: that is [url_fields]. An authority with one kind of square
    bracket only raises [ValueError]; one with both kinds is checked by the
    library ([check_bracketed_netloc] of [Lib]); the check of the authority
    under NFKC normalization never raises on U+0000..U+00FF. *)

Record ParseResult := {
  scheme : string;
  netloc : string;
  path : string;
  params : string;
  query : string;
  fragment : string
}.

Definition scheme_chars (c : ascii) : bool :=
  Str.is_ascii_alpha c || Str.is_ascii_digit c || Str.mem c "+-.".

Definition uses_params : list string :=
  [EmptyString; "ftp"; "hdl"; "prospero"; "http"; "imap"; "https"; "shttp"; "rtsp";
   "rtspu"; "sip"; "sips"; "mms"; "sftp"; "tel"].

(** [url[:i].lower(), url[i+1:]] when a scheme is present, no scheme and the
    whole of [url] otherwise *)
Definition split_scheme (url : string) : string * string :=
  match Str.split_once ":" url with
  | Some (String c0 pre, post) =>
      if Str.is_ascii_alpha c0 && Str.all scheme_chars (String c0 pre)
      then (Str.lower (String c0 pre), post)
      else (EmptyString, url)
  | _ => (EmptyString, url)
  end.

(** [_splitnetloc(url, 2)] *)
Definition split_netloc (url : string) : string * string :=
  match url with
  | String "/" (String "/" r) => Str.break (λ c, Str.mem c "/?#") r
  | _ => (EmptyString, url)
  end.

Definition split_at (c : ascii) (s : string) : string * string :=
  match Str.split_once c s with
  | Some (a, b) => (a, b)
  | None => (s, EmptyString)
  end.

(** [_splitparams]: the parameters start at the first [;] of the last path
    segment. *)
Fixpoint split_params (s : string) : string * string :=
  match s with
  | EmptyString => (EmptyString, EmptyString)
  | String d r =>
      if Str.mem "/" r then let '(a, b) := split_params r in (String d a, b)
      else split_at ";" s
  end.

Definition url_fields (url : string) : ParseResult :=
  let url := Str.lstrip_by (λ c, Str.between 0 32 c) url in
  let url := Str.remove (λ c, Str.mem c (String "009" (String "010" (String "013" EmptyString)))) url in
  let '(sch, url) := split_scheme url in
  let '(loc, url) := split_netloc url in
  let '(url, frag) := split_at "#" url in
  let '(url, qry) := split_at "?" url in
  let '(url, prm) :=
    if bool_decide (sch ∈ uses_params) && Str.mem ";" url
    then split_params url else (url, EmptyString) in
  {| scheme := sch; netloc := loc; path := url; params := prm;
     query := qry; fragment := frag |}.


(** ** Bot-block classifier *)

Definition is_probably_cloudflare_block (html_or_text : string) : bool :=
  let t := Str.lower html_or_text in
  Str.contains "attention required" t
  || Str.contains "cloudflare" t
  || Str.contains "please enable cookies" t
  || Str.contains "sorry, you have been blocked" t.

(** ** Robots parser *)

(** [str.splitlines] on U+0000..U+00FF: the line boundaries are LF, CR, CRLF,
    VT, FF, FS, GS, RS and NEL; a final line break opens no empty line. *)
Definition is_linebreak (c : ascii) : bool :=
  Str.between 10 13 c || Str.between 28 30 c || (Str.code c =? 133)%N.

Fixpoint splitlines_go (cur : string) (s : string) : list string :=
  match s with
  | EmptyString => if Str.nonempty cur then [String.rev cur] else []
  | String c r =>
      if is_linebreak c then
        String.rev cur ::
          match r with
          | String d r' =>
              if (Str.code c =? 13)%N && (Str.code d =? 10)%N
              then splitlines_go EmptyString r'
              else splitlines_go EmptyString r
          | EmptyString => splitlines_go EmptyString r
          end
      else splitlines_go (String c cur) r
  end.

Definition splitlines (s : string) : list string := splitlines_go EmptyString s.

(** One iteration of the loop of [parse_robots_for_sitemaps]. *)
Definition robots_line (sitemaps : list string) (line : string) : list string :=
  let line := Str.strip line in
  if negb (Str.nonempty line) then sitemaps
  else if Str.startswith (Str.lower line) "sitemap:" then
    match Str.split_once ":" line with
    | Some (_, rest) =>
        let sm := Str.strip rest in
        if Str.nonempty sm then sitemaps ++ [sm] else sitemaps
    | None => sitemaps
    end
  else sitemaps.

Definition parse_robots_for_sitemaps (robots_text : string) : list string :=
  fold_left robots_line (splitlines robots_text) [].

(** ** Exceptions

    The exceptions that matter to the script: the [ValueError] it raises
    itself, and the [ValueError] and [LookupError] of the libraries, which
    it does not catch. *)

Inductive exn :=
| ValueError (msg : string)
| LookupError (msg : string).

(** The outcome of a call that returns a value or raises. *)
Inductive result (A : Type) :=
| Ok (a : A)
| Raise (e : exn).
Arguments Ok {A} a.
Arguments Raise {A} e.

#[global] Instance exn_eq_dec : EqDecision exn.
Proof. solve_decision. Defined.

#[global] Instance result_eq_dec {A} `{EqDecision A} : EqDecision (result A).
Proof. solve_decision. Defined.

#[export] Instance result_ret : MRet result := λ A a, Ok a.
#[export] Instance result_bind : MBind result := λ A B k m,
  match m with
  | Ok a => k a
  | Raise e => Raise e
  end.

(** [for x in xs: s = f(s, x)], where [f] may raise *)
Fixpoint fold_result {A S} (f : S → A → result S) (xs : list A) (s : S) : result S :=
  match xs with
  | [] => Ok s
  | x :: xs => s2 ← f s x; fold_result f xs s2
  end.

(** [[x for x in l if p(x)]], where [p] may raise *)
Fixpoint filter_result {A} (p : A → result bool) (l : list A) : result (list A) :=
  match l with
  | [] => Ok []
  | x :: l => b ← p x; r ← filter_result p l; Ok (if b : bool then x :: r else r)
  end.

(** ** ElementTree *)

Module ET.

(** An [xml.etree.ElementTree.Element]: its tag in the [{uri}local] form,
    its [text] ([None] when the element opens with a child or is empty) and
    its child elements. *)
Inductive Element :=
| Elem (tag : string) (text : option string) (children : list Element).

Definition tag (e : Element) : string := let 'Elem t _ _ := e in t.
Definition text (e : Element) : option string := let 'Elem _ t _ := e in t.
Definition children (e : Element) : list Element := let 'Elem _ _ c := e in c.

(** What [ET.fromstring] does with a payload: it returns the root, raises
    [ET.ParseError], or raises another exception (a [ValueError] for a
    multi-byte encoding that the parser does not support, a [LookupError]
    for an encoding that is not known). *)
Inductive parsed :=
| Root (root : Element)
| ParseError
| Failed (e : exn).

(** [e.iter()]: the element and its descendants in document order. *)
Fixpoint iter (e : Element) : list Element :=
  match e with
  | Elem _ _ cs => e :: flat_map iter cs
  end.

(** The test of the path step [{*}name]: the tag is [name] itself or ends
    in [}name]. *)
Definition tag_matches (name : string) (e : Element) : bool :=
  bool_decide (tag e = name) || Str.endswith (tag e) ("}" +:+ name).

(** [e.findall(".//{*}name")] *)
Definition findall_descendants (name : string) (e : Element) : list Element :=
  filter (λ d, tag_matches name d = true) (flat_map iter (children e)).

(** [e.find("{*}name")] *)
Definition find_child (name : string) (e : Element) : option Element :=
  head (filter (λ d, tag_matches name d = true) (children e)).

End ET.

Definition strip_ns (tag : string) : string :=
  match Str.split_once "}" tag with
  | Some (_, rest) => rest
  | None => tag
  end.

(** ** BeautifulSoup trees *)

Module Soup.

(** The classes of string nodes: [get_text] keeps the plain ones and the
    CDATA sections and leaves out comments, script and stylesheet strings,
    declarations and the like. *)
Inductive string_class := Plain | CData | Special.

Inductive PageElement :=
| Tag (name : string) (attrs : list (string * string)) (contents : list PageElement)
| NavigableString (cls : string_class) (s : string).

Definition attr (key : string) (attrs : list (string * string)) : option string :=
  snd <$> head (filter (λ kv, fst kv = key) attrs).

(** [soup.find_all("a", href=True)] followed by [a.get("href")]: the
    [href] values of the anchors that carry one, in document order. *)
Fixpoint anchor_hrefs (e : PageElement) : list string :=
  match e with
  | Tag name attrs contents =>
      (if bool_decide (name = "a")
       then match attr "href" attrs with Some h => [h] | None => [] end
       else [])
      ++ flat_map anchor_hrefs contents
  | NavigableString _ _ => []
  end.

(** The tree after [tag.decompose()] on every tag whose name is in [names]. *)
Fixpoint decompose (names : list string) (e : PageElement) : list PageElement :=
  match e with
  | Tag name attrs contents =>
      if bool_decide (name ∈ names) then []
      else [Tag name attrs (flat_map (decompose names) contents)]
  | NavigableString _ _ => [e]
  end.

(** The strings [get_text] joins, in document order. *)
Fixpoint strings (e : PageElement) : list string :=
  match e with
  | Tag _ _ contents => flat_map strings contents
  | NavigableString Special _ => []
  | NavigableString _ s => [s]
  end.

(** [soup.get_text(separator=sep)] *)
Definition get_text (sep : string) (soup : list PageElement) : string :=
  String.concat sep (flat_map strings soup).

End Soup.

(** ** The libraries and the network *)

Record Response := {
  status : Z;
  body : list byte;
  text : string
}.

Record Net := {
  (** [context.request.get(url, timeout=...)]; [None] when the call raises *)
  request_get : string → option Response;
  (** [page.goto(url, ...)] followed by [page.content()]; [None] when either raises *)
  page_goto : string → option string
}.

Record Lib := {
  (** [ET.fromstring] *)
  ET_fromstring : list byte → ET.parsed;
  (** [gzip.decompress]; [None] is any exception *)
  gzip_decompress : list byte → option (list byte);
  (** [content.decode("utf-8", errors="ignore")] *)
  decode_utf8_ignore : list byte → string;
  (** [urljoin(base, url)]; it raises [ValueError] where [urlsplit] does *)
  urljoin : string → string → result string;
  (** the first component of [urldefrag(url)] *)
  urldefrag : string → result string;
  (** [BeautifulSoup(html, "lxml")]: the contents of the document *)
  BeautifulSoup : string → list Soup.PageElement;
  (** the check [urlsplit] makes of an authority that holds both square
      brackets (what stands around them, and the address between them):
      the exception it raises, [None] where it accepts the authority *)
  check_bracketed_netloc : string → option exn
}.

(** Float arithmetic, as far as the script uses it. *)
Class FloatOps (F : Type) := {
  (** [float(n)] *)
  float_of_int : Z → F;
  (** [x / y] *)
  float_div : F → F → F;
  (** the literal [0.0] *)
  float_zero : F;
  (** [round(x, ndigits)] *)
  float_round : F → Z → F
}.

(** ** urlparse, with its checks *)

(** The check of the authority in [urlsplit]. *)
Definition check_netloc (lib : Lib) (netloc : string) : option exn :=
  let opening := Str.mem "[" netloc in
  let closing := Str.mem "]" netloc in
  if (opening && negb closing) || (closing && negb opening)
  then Some (ValueError "Invalid IPv6 URL")
  else if opening && closing then check_bracketed_netloc lib netloc
  else None.

Definition urlparse (lib : Lib) (url : string) : result ParseResult :=
  match check_netloc lib (netloc (url_fields url)) with
  | Some e => Raise e
  | None => Ok (url_fields url)
  end.

(** ** URL normalizer *)

Definition normalize_base_url (lib : Lib) (url : string) : result string :=
  let url := Str.strip url in
  if negb (Str.nonempty url) then Raise (ValueError "website is leeg")
  else
    let url :=
      if negb (Str.startswith url "http://") && negb (Str.startswith url "https://")
      then "https://" +:+ url else url in
    parsed ← urlparse lib url;
    if negb (Str.nonempty (netloc parsed)) then Raise (ValueError "website url is ongeldig")
    else Ok (scheme parsed +:+ "://" +:+ netloc parsed +:+ "/").

Definition same_host (lib : Lib) (a b : string) : result bool :=
  pa ← urlparse lib a;
  pb ← urlparse lib b;
  Ok (bool_decide (Str.lower (netloc pa) = Str.lower (netloc pb))).

(** ** Regular expressions

    The fragment of [re] the script uses: a word boundary, one or more
    characters of a class (greedy), and sequencing, matched by backtracking. *)

Module Re.

Inductive pattern :=
| Boundary
| Plus (cls : ascii → bool)
| Seq (p q : pattern).

(** [\w] on U+0000..U+00FF: the alphanumeric code points and the underscore. *)
Definition is_word (c : ascii) : bool :=
  Str.is_ascii_digit c || Str.is_ascii_alpha c || (Str.code c =? 95)%N
  || (Str.code c =? 170)%N || Str.between 178 179 c || (Str.code c =? 181)%N
  || Str.between 185 186 c || Str.between 188 190 c
  || Str.between 192 214 c || Str.between 216 246 c || Str.between 248 255 c.

Definition is_word_opt (c : option ascii) : bool :=
  match c with Some c => is_word c | None => false end.

Definition head_char (s : string) : option ascii :=
  match s with String c _ => Some c | EmptyString => None end.

(** [\b] holds between [prev] and [s] when exactly one side is a word character. *)
Definition at_boundary (prev : option ascii) (s : string) : bool :=
  xorb (is_word_opt prev) (is_word_opt (head_char s)).

(** The rest of the subject after a match; [k] matches what follows. *)
Definition cont := option ascii → string → option string.

Fixpoint match_plus (cls : ascii → bool) (s : string) (k : cont) : option string :=
  match s with
  | String c r =>
      if cls c then
        match match_plus cls r k with
        | Some rest => Some rest
        | None => k (Some c) r
        end
      else None
  | EmptyString => None
  end.

Fixpoint match_at (p : pattern) (prev : option ascii) (s : string) (k : cont)
  : option string :=
  match p with
  | Boundary => if at_boundary prev s then k prev s else None
  | Plus cls => match_plus cls s k
  | Seq p q => match_at p prev s (λ prev' s', match_at q prev' s' k)
  end.

Definition match_here (p : pattern) (prev : option ascii) (s : string) : option string :=
  match_at p prev s (λ _ rest, Some rest).

(** [re.findall(p, s)]: the matches found scanning from the left, each
    search starting where the last match ended. [skip] counts the characters
    of the current match still to pass. The patterns used match at least
    one character. *)
Fixpoint findall_go (p : pattern) (prev : option ascii) (s : string) (skip : nat)
  : list string :=
  match s with
  | EmptyString => []
  | String c r =>
      match skip with
      | S n => findall_go p (Some c) r n
      | O =>
          match match_here p prev s with
          | Some rest =>
              let n := (String.length s - String.length rest)%nat in
              String.substring 0 n s :: findall_go p (Some c) r (n - 1)
          | None => findall_go p (Some c) r 0
          end
      end
  end.

Definition findall (p : pattern) (s : string) : list string :=
  findall_go p None s 0.

(** [re.sub(p, repl, s)] *)
Fixpoint sub_go (p : pattern) (repl : string) (prev : option ascii) (s : string)
  (skip : nat) : string :=
  match s with
  | EmptyString => EmptyString
  | String c r =>
      match skip with
      | S n => sub_go p repl (Some c) r n
      | O =>
          match match_here p prev s with
          | Some rest =>
              let n := (String.length s - String.length rest)%nat in
              repl +:+ sub_go p repl (Some c) r (n - 1)
          | None => String c (sub_go p repl (Some c) r 0)
          end
      end
  end.

Definition sub (p : pattern) (repl : string) (s : string) : string :=
  sub_go p repl None s 0.

End Re.

(** [r"\s+"] *)
Definition whitespace_run : Re.pattern := Re.Plus Str.isspace.

(** [r"\b[\wÀ-ÿ]+\b"] *)
Definition word_char (c : ascii) : bool := Re.is_word c || Str.between 192 255 c.
Definition word_pattern : Re.pattern :=
  Re.Seq Re.Boundary (Re.Seq (Re.Plus word_char) Re.Boundary).

Module Result.
Record t (F : Type) := {
  website : string;
  total_pages : Z;
  average_words : F;
  id : string
}.
Arguments website {F} _.
Arguments total_pages {F} _.
Arguments average_words {F} _.
Arguments id {F} _.
End Result.

(** How a run of [main] ends when no exception ends it. *)
Inductive outcome (F : Type) :=
| Usage                          (* too few arguments: exit code 2 *)
| Completed (r : Result.t F).    (* the four lines are printed: exit code 0 *)
Arguments Usage {F}.
Arguments Completed {F} r.

Inductive event :=
| Request (url : string)
| Goto (url : string).

(** A computation that may run out of fuel ([None]) and otherwise returns a
    value or raises an exception, together with the network calls it made,
    in order. *)
Definition M (A : Type) : Type := option (result A * list event).

#[export] Instance M_ret : MRet M := λ A a, Some (Ok a, []).
#[export] Instance M_bind : MBind M := λ A B k m,
  match m with
  | Some (Ok a, log1) =>
      match k a with
      | Some (b, log2) => Some (b, log1 ++ log2)
      | None => None
      end
  | Some (Raise e, log1) => Some (Raise e, log1)
  | None => None
  end.
Definition out_of_fuel {A} : M A := None.
Definition emit (e : event) : M unit := Some (Ok tt, [e]).
(** A call that touches no network. *)
Definition lift {A} (r : result A) : M A := Some (r, []).

(** [for x in xs: s = body(s, x)] *)
Fixpoint for_each {A S} (xs : list A) (body : S → A → M S) (s : S) : M S :=
  match xs with
  | [] => mret s
  | x :: xs => s2 ← body s x; for_each xs body s2
  end.

(** [l[:n]] *)
Definition slice_to {A} (l : list A) (n : Z) : list A :=
  if 0 <=? n then take (Z.to_nat n) l
  else take (length l - Z.to_nat (- n)) l.

(** [for u in l: if u not in seen: seen.add(u); unique.append(u)] *)
Definition unique_step (st : gset string * list string) (u : string)
  : gset string * list string :=
  let '(seen, unique) := st in
  if bool_decide (u ∈ seen) then st else ({[u]} ∪ seen, unique ++ [u]).

Definition DEFAULT_SITEMAP_CANDIDATES : list string :=
  ["/sitemap.xml"; "/sitemap_index.xml"; "/sitemap-index.xml"; "/sitemap.xml.gz"].

Section Program.

Context {F : Type} {float_ops : FloatOps F} (lib : Lib) (net : Net).

(** *** Sitemap XML parser *)

Definition collect_loc (acc : list string) (el : ET.Element) : list string :=
  match ET.find_child "loc" el with
  | Some loc_el =>
      match ET.text loc_el with
      | Some t => if Str.nonempty t then acc ++ [Str.strip t] else acc
      | None => acc
      end
  | None => acc
  end.

Definition parse_sitemap_xml (xml_bytes : list byte)
  : result (list string * list string) :=
  match ET_fromstring lib xml_bytes with
  | ET.Failed e => Raise e
  | ET.ParseError => Ok ([], [])
  | ET.Root root =>
      let root_tag := Str.lower (strip_ns (ET.tag root)) in
      if bool_decide (root_tag = "urlset") then
        Ok (fold_left collect_loc (ET.findall_descendants "url" root) [], [])
      else if bool_decide (root_tag = "sitemapindex") then
        Ok ([], fold_left collect_loc (ET.findall_descendants "sitemap" root) [])
      else Ok ([], [])
  end.

(** *** Fetchers *)

Definition fetch_bytes_with_request (url : string) : M (option (list byte)) :=
  emit (Request url) ;;
  match request_get net url with
  | None => mret None
  | Some resp =>
      if negb (status resp =? 200) then mret None
      else match body resp with
           | [] => mret None
           | b => mret (Some b)
           end
  end.

Definition fetch_text_with_request (url : string) : M (option string) :=
  emit (Request url) ;;
  match request_get net url with
  | None => mret None
  | Some resp =>
      if negb (status resp =? 200) then mret None
      else if negb (Str.nonempty (text resp)) then mret None
      else mret (Some (text resp))
  end.

(** *** Sitemap resolver *)

Definition try_discover_sitemaps (base_url : string) : M (list string) :=
  robots_url ← lift (urljoin lib base_url "robots.txt");
  robots_text ← fetch_text_with_request robots_url;
  let discovered :=
    match robots_text with
    | Some t =>
        if Str.nonempty t && negb (is_probably_cloudflare_block t)
        then parse_robots_for_sitemaps t else []
    | None => []
    end in
  discovered ← lift (fold_result
      (λ d path,
         u ← urljoin lib base_url (Str.lstrip_by (λ c, bool_decide (c = "/"%char)) path);
         Ok (d ++ [u]))
      DEFAULT_SITEMAP_CANDIDATES discovered);
  mret (snd (fold_left unique_step discovered (∅, []))).

(** The default of the parameter [max_children]. *)
Definition default_max_children : Z := 50.

(** The body of [fetch_all_sitemap_urls]; [self] is the recursive call. *)
Definition resolve_step (self : string → Z → M (list string))
  (sitemap_url : string) (max_children : Z) : M (list string) :=
  raw ← fetch_bytes_with_request sitemap_url;
  match raw with
  | None | Some [] => mret []
  | Some content =>
      let unzipped :=
        if Str.endswith sitemap_url ".gz" then gzip_decompress lib content
        else Some content in
      match unzipped with
      | None => mret []
      | Some content =>
          if is_probably_cloudflare_block (decode_utf8_ignore lib content)
          then mret []
          else
            '(urls, children) ← lift (parse_sitemap_xml content);
            match urls with
            | _ :: _ => mret urls
            | [] =>
                for_each (slice_to children max_children)
                  (λ all_urls child,
                     r ← self child max_children;
                     mret (all_urls ++ r))
                  []
            end
      end
  end.

(** The recursion as the source writes it, without a bound of its own. *)
Fixpoint fetch_all_sitemap_urls (fuel : nat) (sitemap_url : string) (max_children : Z)
  : M (list string) :=
  match fuel with
  | O => out_of_fuel
  | S fuel => resolve_step (fetch_all_sitemap_urls fuel) sitemap_url max_children
  end.


(** The cleaning loop of [discover_urls_from_sitemaps]. *)
Definition clean_step (st : gset string * list string) (u : string)
  : gset string * list string :=
  let u := Str.strip u in
  if negb (Str.nonempty u) then st else unique_step st u.

Fixpoint discover_loop (fuel : nat) (candidates : list string) : M (list string) :=
  match candidates with
  | [] => mret []
  | sm :: rest =>
      urls ← fetch_all_sitemap_urls fuel sm default_max_children;
      match urls with
      | _ :: _ => mret (snd (fold_left clean_step urls (∅, [])))
      | [] => discover_loop fuel rest
      end
  end.

Definition discover_urls_from_sitemaps (fuel : nat) (base_url : string) : M (list string) :=
  candidates ← try_discover_sitemaps base_url;
  discover_loop fuel candidates.

(** *** Fallback crawler *)

(** One iteration of the loop of [extract_internal_links]. *)
Definition link_step (page_url base_url : string) (links : list string) (href : string)
  : result (list string) :=
  let href := Str.strip href in
  if negb (Str.nonempty href) then Ok links
  else
    absolute ← urljoin lib page_url href;
    absolute ← urldefrag lib absolute;
    same ← same_host lib absolute base_url;
    if negb same then Ok links
    else
      parsed ← urlparse lib absolute;
      if negb (bool_decide (scheme parsed ∈ ["http"; "https"])) then Ok links
      else Ok (links ++ [absolute]).

Definition extract_internal_links (html page_url base_url : string)
  : result (list string) :=
  let soup := BeautifulSoup lib html in
  fold_result (link_step page_url base_url) (flat_map Soup.anchor_hrefs soup) [].

(** [for u in found: if u not in visited: queue.append(u)] *)
Definition enqueue (visited : gset string) (queue : list string) (u : string)
  : list string :=
  if bool_decide (u ∈ visited) then queue else queue ++ [u].

(** The [while] loop of [fallback_crawl_internal]; one unit of fuel per
    iteration. *)
Fixpoint crawl_loop (fuel : nat) (base_url : string) (limit : Z)
  (queue : list string) (visited : gset string) : M (gset string) :=
  match fuel with
  | O => out_of_fuel
  | S fuel =>
      match queue with
      | [] => mret visited
      | url :: queue =>
          if negb (Z.of_nat (size visited) <? limit) then mret visited
          else if bool_decide (url ∈ visited)
          then crawl_loop fuel base_url limit queue visited
          else
            let visited := {[url]} ∪ visited in
            emit (Goto url) ;;
            match page_goto net url with
            | None => crawl_loop fuel base_url limit queue visited
            | Some html =>
                if is_probably_cloudflare_block html
                then crawl_loop fuel base_url limit queue visited
                else
                  found ← lift (extract_internal_links html url base_url);
                  crawl_loop fuel base_url limit
                    (fold_left (enqueue visited) found queue) visited
            end
      end
  end.

(** The default of the parameter [limit]. *)
Definition default_limit : Z := 2000.

(** The result is [list(visited)]: its order is that of the set and carries
    no meaning. *)
Definition fallback_crawl_internal (fuel : nat) (base_url : string) (limit : Z)
  : M (list string) :=
  visited ← crawl_loop fuel base_url limit [base_url] ∅;
  mret (elements visited).

(** *** Word-count analyzer *)

Definition word_count_from_html (html : string) : Z :=
  let soup := BeautifulSoup lib html in
  let soup := flat_map (Soup.decompose ["script"; "style"; "noscript"]) soup in
  let text := Soup.get_text " " soup in
  let text := Str.strip (Re.sub whitespace_run " " text) in
  if negb (Str.nonempty text) then 0
  else Z.of_nat (length (Re.findall word_pattern text)).

(** One iteration of the loop of [compute_average_words]. *)
Definition sample_step (counts : list Z) (u : string) : M (list Z) :=
  emit (Goto u) ;;
  match page_goto net u with
  | None => mret counts
  | Some html =>
      if is_probably_cloudflare_block html then mret counts
      else
        let wc := word_count_from_html html in
        if 0 <? wc then mret (counts ++ [wc]) else mret counts
  end.

Definition sum (counts : list Z) : Z := fold_left Z.add counts 0.

(** The default of the parameter [sample_size]. *)
Definition default_sample_size : Z := 10.

Definition compute_average_words (urls : list string) (sample_size : Z) : M F :=
  let sample := slice_to urls sample_size in
  counts ← for_each sample sample_step [];
  match counts with
  | [] => mret float_zero
  | _ => mret (float_div (float_of_int (sum counts))
                 (float_of_int (Z.of_nat (length counts))))
  end.

(** *** Orchestrator *)

Definition open_homepage_for_cookies (base_url : string) : M unit :=
  emit (Goto base_url).

(** [sorted(set(urls))] *)
Definition sorted_set (urls : list string) : list string :=
  merge_sort String.le (elements (list_to_set urls : gset string)).

Definition main (fuel : nat) (argv : list string) : M (outcome F) :=
  match argv with
  | _ :: arg1 :: arg2 :: _ =>
      let given_id := Str.strip arg1 in
      let given_website := Str.strip arg2 in
      base_url ← lift (normalize_base_url lib given_website);
      open_homepage_for_cookies base_url ;;
      urls ← discover_urls_from_sitemaps fuel base_url;
      urls ← match urls with
             | [] => fallback_crawl_internal fuel base_url default_limit
             | _ => mret urls
             end;
      urls ← lift (filter_result (λ u, same_host lib u base_url) urls);
      let urls := sorted_set urls in
      let total_pages := Z.of_nat (length urls) in
      average_words ← compute_average_words urls 10;
      mret (Completed
              {| Result.website := given_website;
                 Result.total_pages := total_pages;
                 Result.average_words := float_round average_words 2;
                 Result.id := given_id |})
  | _ => mret Usage
  end.

End Program.


(** * Reference definitions

    The notions the properties below are stated with. *)

(** The URL that [normalize_base_url] hands to [urlparse]. *)
Definition with_scheme (url : string) : string :=
  if Str.startswith url "http://" then url
  else if Str.startswith url "https://" then url
  else "https://" +:+ url.

(** [d] lies strictly below [e] in the tree. *)
Inductive descendant (d : ET.Element) : ET.Element → Prop :=
| descendant_child e : d ∈ ET.children e → descendant d e
| descendant_below c e : c ∈ ET.children e → descendant d c → descendant d e.

(** What one [url] or [sitemap] element contributes: the trimmed text of its
    [loc] child (the first one, as [find] returns it), unless that child or
    its text is missing or the text is empty. *)
Definition loc_of (el : ET.Element) : option string :=
  loc_el ← ET.find_child "loc" el;
  t ← ET.text loc_el;
  if Str.nonempty t then Some (Str.strip t) else None.


(** ** The resolver *)

(** The loop over the children, given what one call does. *)
Definition visit_children (f : string → M (list string)) (children : list string)
  (acc : list string) : M (list string) :=
  for_each children (λ all_urls child, r ← f child; mret (all_urls ++ r)) acc.

Section ResolverReference.

Context (lib : Lib) (net : Net).

(** The body of a fetch that succeeded: status 200 and a body that is not empty. *)
Definition fetched (url : string) : option (list byte) :=
  match request_get net url with
  | Some resp =>
      if bool_decide (status resp = 200 ∧ body resp ≠ []) then Some (body resp) else None
  | None => None
  end.

(** The two readings of "ends in .gz": the URL as a string (the code) and
    the path component of the URL (the specification). *)
Definition gz_suffix (url : string) : bool := Str.endswith url ".gz".
Definition gz_path (url : string) : bool := Str.endswith (path (url_fields url)) ".gz".

(** The reference algorithm of the resolver, with the test for compressed
    sitemaps [gz] and the fan-out cap [n] as parameters:
    [resolves gz n url urls log] when resolving [url] yields [urls] and
    fetches [log]. Of the children of an index the slice [children[:n]] is
    resolved, which holds the first [n] of them when [n] is not negative. *)
Inductive resolves (gz : string → bool) (n : Z)
  : string → list string → list event → Prop :=
| resolves_no_payload url :
    fetched url = None →
    resolves gz n url [] [Request url]
| resolves_bad_gzip url raw :
    fetched url = Some raw → gz url = true → gzip_decompress lib raw = None →
    resolves gz n url [] [Request url]
| resolves_blocked url raw content :
    fetched url = Some raw →
    (if gz url then gzip_decompress lib raw else Some raw) = Some content →
    is_probably_cloudflare_block (decode_utf8_ignore lib content) = true →
    resolves gz n url [] [Request url]
| resolves_leaf url raw content urls children :
    fetched url = Some raw →
    (if gz url then gzip_decompress lib raw else Some raw) = Some content →
    is_probably_cloudflare_block (decode_utf8_ignore lib content) = false →
    parse_sitemap_xml lib content = Ok (urls, children) → urls ≠ [] →
    resolves gz n url urls [Request url]
| resolves_index url raw content children urls log :
    fetched url = Some raw →
    (if gz url then gzip_decompress lib raw else Some raw) = Some content →
    is_probably_cloudflare_block (decode_utf8_ignore lib content) = false →
    parse_sitemap_xml lib content = Ok ([], children) →
    resolves_each gz n (slice_to children n) urls log →
    resolves gz n url urls (Request url :: log)
with resolves_each (gz : string → bool) (n : Z)
  : list string → list string → list event → Prop :=
| resolves_each_nil : resolves_each gz n [] [] []
| resolves_each_cons child children urls1 log1 urls2 log2 :
    resolves gz n child urls1 log1 →
    resolves_each gz n children urls2 log2 →
    resolves_each gz n (child :: children) (urls1 ++ urls2) (log1 ++ log2).

(** The sitemaps the walk descends into from [url]: the first children of an
    index that was fetched, unzipped, not blocked and has no leaf URLs. *)
Definition index_children (n : Z) (url : string) : list string :=
  match fetched url with
  | Some raw =>
      match (if gz_suffix url then gzip_decompress lib raw else Some raw) with
      | Some content =>
          if is_probably_cloudflare_block (decode_utf8_ignore lib content) then []
          else match parse_sitemap_xml lib content with
               | Ok ([], children) => slice_to children n
               | _ => []
               end
      | None => []
      end
  | None => []
  end.

Definition indexes (n : Z) (child parent : string) : Prop :=
  child ∈ index_children n parent.

Scheme resolves_ind2 := Minimality for resolves Sort Prop
  with resolves_each_ind2 := Minimality for resolves_each Sort Prop.

End ResolverReference.

(** ** Discovery *)

(** Deduplication that keeps the first occurrence of every entry, in order. *)
Fixpoint dedup_first (l : list string) : list string :=
  match l with
  | [] => []
  | x :: r => x :: filter (λ y, y ≠ x) (dedup_first r)
  end.

(** The sitemaps [robots.txt] declares, when it is fetched with status 200
    and a text that is not empty and not classified as blocked. *)
Definition declared_sitemaps (net : Net) (robots_url : string) : list string :=
  match request_get net robots_url with
  | Some resp =>
      if bool_decide (status resp = 200 ∧ text resp ≠ EmptyString)
         && negb (is_probably_cloudflare_block (text resp))
      then parse_robots_for_sitemaps (text resp)
      else []
  | None => []
  end.

Definition well_known : list string :=
  ["sitemap.xml"; "sitemap_index.xml"; "sitemap-index.xml"; "sitemap.xml.gz"].

(** The candidates of a base: the declared sitemaps, then the well-known paths
    joined to the base, each once; an exception of [urljoin] ends the run,
    before the request when it is raised on [robots.txt]. *)
Definition candidates_run (lib : Lib) (net : Net) (base_url : string) : M (list string) :=
  match urljoin lib base_url "robots.txt" with
  | Raise e => Some (Raise e, [])
  | Ok robots_url =>
      match mapM (urljoin lib base_url) well_known with
      | Raise e => Some (Raise e, [Request robots_url])
      | Ok joined =>
          Some (Ok (dedup_first (declared_sitemaps net robots_url ++ joined)),
                [Request robots_url])
      end
  end.

(** Trim, drop the empty entries, deduplicate. *)
Definition normalize_urls (urls : list string) : list string :=
  dedup_first (filter (λ u, u ≠ EmptyString) (Str.strip <$> urls)).

(** ** The crawler *)

(** Two URLs have the same authority, letter case apart. *)
Definition same_authority (a b : string) : Prop :=
  Str.lower (netloc (url_fields a)) = Str.lower (netloc (url_fields b)).

#[global] Instance same_authority_dec (a b : string) : Decision (same_authority a b) :=
  decide (Str.lower (netloc (url_fields a)) = Str.lower (netloc (url_fields b))).

(** What the crawl keeps to: the base URL and the URLs that [same_host]
    accepts. *)
Definition own_host (lib : Lib) (base_url u : string) : Prop :=
  u = base_url ∨ same_host lib u base_url = Ok true.

Section CrawlerReference.

Context (lib : Lib) (net : Net).

(** The queue after the page at [url] has been handled: unchanged when the
    navigation fails or the page is blocked, extended by the links of the
    page that are not yet visited otherwise; the exception, when taking the
    links from the page raises one. *)
Definition next_queue (base_url url : string) (queue : list string) (visited : gset string)
  : result (list string) :=
  match page_goto net url with
  | None => Ok queue
  | Some html =>
      if is_probably_cloudflare_block html then Ok queue
      else
        found ← extract_internal_links lib html url base_url;
        Ok (fold_left (enqueue visited) found queue)
  end.

End CrawlerReference.

(** ** The word count *)

(** The strings of a tree that are neither special nor below a tag named in
    [names], in document order. *)
Fixpoint visible_strings (names : list string) (e : Soup.PageElement) : list string :=
  match e with
  | Soup.Tag name _ contents =>
      if bool_decide (name ∈ names) then []
      else flat_map (visible_strings names) contents
  | Soup.NavigableString Soup.Special _ => []
  | Soup.NavigableString _ s => [s]
  end.

(** Every run of whitespace becomes one space: a whitespace character is
    dropped when another follows and is replaced by a space otherwise. *)
Fixpoint collapse_ws (s : string) : string :=
  match s with
  | EmptyString => EmptyString
  | String c r =>
      if Str.isspace c then
        match r with
        | String d _ =>
            if Str.isspace d then collapse_ws r else String " " (collapse_ws r)
        | EmptyString => String " " EmptyString
        end
      else String c (collapse_ws r)
  end.

(** The alphabet the specification names: the ASCII letters and digits, the
    underscore, and the range from U+00C0 to U+00FF. *)
Definition claimed_word_char (c : ascii) : bool :=
  Str.is_ascii_alpha c || Str.is_ascii_digit c || (Str.code c =? 95)%N
  || Str.between 192 255 c.

(** The other word characters of U+0000..U+00FF: the ordinal indicators, the
    superscript digits, the micro sign and the vulgar fractions. *)
Definition other_word_char (c : ascii) : bool :=
  bool_decide (Str.code c ∈ [170; 178; 179; 181; 185; 186; 188; 189; 190]%N).

(** The number of characters at the head of [s] that satisfy [cls]. *)
Definition leading (cls : ascii → bool) (s : string) : nat :=
  (String.length s - String.length (Str.lstrip_by cls s))%nat.

(** The tree of a page with the given contents of its head and body. *)
Definition page (head body : list Soup.PageElement) : list Soup.PageElement :=
  [Soup.Tag "html" [] [Soup.Tag "head" [] head; Soup.Tag "body" [] body]].

(** The tree of
    [<html><script>ignore me entirely</script><body>Hello world</body></html>],
    whatever the class of the string of the script. *)
Definition hello_tree (cls : Soup.string_class) : list Soup.PageElement :=
  page [Soup.Tag "script" [] [Soup.NavigableString cls "ignore me entirely"]]
       [Soup.NavigableString Soup.Plain "Hello world"].

(** ** Sampling and the orchestrator *)

Section SamplingReference.

Context {F : Type} {float_ops : FloatOps F} (lib : Lib) (net : Net).

(** The word count a sampled page contributes: none when the navigation
    fails, the page is blocked or no word is counted. *)
Definition usable_count (u : string) : option Z :=
  match page_goto net u with
  | Some html =>
      if is_probably_cloudflare_block html then None
      else if bool_decide (0 < word_count_from_html lib html)
           then Some (word_count_from_html lib html) else None
  | None => None
  end.

(** The mean of the counts, 0.0 when there is none. *)
Definition mean (counts : list Z) : F :=
  match counts with
  | [] => float_zero
  | _ => float_div (float_of_int (foldr Z.add 0 counts))
           (float_of_int (Z.of_nat (length counts)))
  end.

(** The URLs the run goes on with: those of the sitemaps, or those of the
    crawl when the sitemaps give none. *)
Definition found_by (fuel : nat) (base_url : string) (urls : list string) : Prop :=
  ∃ discovered log,
    discover_urls_from_sitemaps lib net fuel base_url = Some (Ok discovered, log)
    ∧ match discovered with
      | [] => ∃ log',
          fallback_crawl_internal lib net fuel base_url default_limit
          = Some (Ok urls, log')
      | _ => urls = discovered
      end.

End SamplingReference.

(** ** A sample site

    A small site, its sitemaps and its pages, with stand-ins for the
    libraries that agree with them on the documents of the site. *)

Module Demo.

Definition bytes_of (s : string) : list byte := list_byte_of_string s.
Definition text_of (b : list byte) : string := string_of_list_byte b.

Definition nl : string := String "010" EmptyString.

Definition robots_txt : string :=
  "User-agent: *" +:+ nl +:+ "Sitemap: https://e.com/c.xml" +:+ nl
  +:+ "Sitemap: https://e.com/index.xml" +:+ nl
  +:+ "sitemap:https://e.com/sitemap.xml  " +:+ nl.

Definition index_xml : string :=
  "<sitemapindex xmlns='http://www.sitemaps.org/schemas/sitemap/0.9'>"
  +:+ "<sitemap><loc>https://e.com/a.xml</loc></sitemap>"
  +:+ "<sitemap><loc>https://e.com/b.xml.gz</loc></sitemap>"
  +:+ "<sitemap><loc>https://e.com/c.xml</loc></sitemap></sitemapindex>".

Definition a_xml : string :=
  "<urlset><url><loc>https://e.com/</loc></url>"
  +:+ "<url><loc> https://e.com/about </loc></url>"
  +:+ "<url><loc></loc></url><url/>"
  +:+ "<url><loc>https://e.com/</loc></url></urlset>".

Definition b_xml : string :=
  "<URLSET><url><loc>https://other.org/x</loc></url></URLSET>".

(** A sitemap in an encoding that the parser does not support, and one in
    an encoding that is not known. *)
Definition sjis_xml : string :=
  "<?xml version='1.0' encoding='shift_jis'?><urlset/>".
Definition nope_xml : string :=
  "<?xml version='1.0' encoding='nope'?><urlset/>".

Definition loop_xml : string :=
  "<sitemapindex><sitemap><loc>https://e.com/loop.xml</loc></sitemap></sitemapindex>".

Definition ns (name : string) : string :=
  "{http://www.sitemaps.org/schemas/sitemap/0.9}" +:+ name.

Definition entry (tag loc : string) (t : option string) : ET.Element :=
  ET.Elem tag None [ET.Elem loc t []].

Definition index_tree : ET.Element :=
  ET.Elem (ns "sitemapindex") None
    [entry (ns "sitemap") (ns "loc") (Some "https://e.com/a.xml");
     entry (ns "sitemap") (ns "loc") (Some "https://e.com/b.xml.gz");
     entry (ns "sitemap") (ns "loc") (Some "https://e.com/c.xml")].

Definition a_tree : ET.Element :=
  ET.Elem "urlset" None
    [entry "url" "loc" (Some "https://e.com/");
     entry "url" "loc" (Some " https://e.com/about ");
     entry "url" "loc" None;
     ET.Elem "url" None [];
     entry "url" "loc" (Some "https://e.com/")].

Definition b_tree : ET.Element :=
  ET.Elem "URLSET" None [entry "url" "loc" (Some "https://other.org/x")].

Definition loop_tree : ET.Element :=
  ET.Elem "sitemapindex" None
    [entry "sitemap" "loc" (Some "https://e.com/loop.xml")].

Definition documents : gmap string ET.Element :=
  list_to_map
    [(index_xml, index_tree); (a_xml, a_tree); (b_xml, b_tree); (loop_xml, loop_tree)].

Definition hello_html : string :=
  "<html><script>ignore me entirely</script><body>Hello world</body></html>".
Definition empty_html : string := "<html><body></body></html>".
Definition home_html : string :=
  "<html><body>Welcome   home <a href='https://e.com/about#team'>About</a>"
  +:+ "<a href='https://other.org/'>Other</a><a href='mailto:me@e.com'>Mail</a>"
  +:+ "<a href='https://E.COM/blog'>Blog</a><a>none</a></body></html>".
Definition about_html : string :=
  "<html><body><a href=' https://e.com/ '>Home</a><noscript>enable it</noscript>"
  +:+ "About us</body></html>".

Definition anchor (href label : string) : Soup.PageElement :=
  Soup.Tag "a" [("href", href)] [Soup.NavigableString Soup.Plain label].

(** A page whose only text is the micro sign, U+00B5. *)
Definition micro_html : string := "<html><body>&micro;</body></html>".
Definition micro_tree : list Soup.PageElement :=
  page [] [Soup.NavigableString Soup.Plain (String "181" EmptyString)].

Definition home_tree : list Soup.PageElement :=
  page []
    [Soup.NavigableString Soup.Plain "Welcome   home ";
     anchor "https://e.com/about#team" "About";
     anchor "https://other.org/" "Other";
     anchor "mailto:me@e.com" "Mail";
     anchor "https://E.COM/blog" "Blog";
     Soup.Tag "a" [] [Soup.NavigableString Soup.Plain "none"]].

Definition about_tree : list Soup.PageElement :=
  page []
    [anchor " https://e.com/ " "Home";
     Soup.Tag "noscript" [] [Soup.NavigableString Soup.Plain "enable it"];
     Soup.NavigableString Soup.Plain "About us"].

Definition soups : gmap string (list Soup.PageElement) :=
  list_to_map
    [(hello_html, hello_tree Soup.Special); (empty_html, page [] []);
     (home_html, home_tree); (about_html, about_tree); (micro_html, micro_tree)].

(** The compressed form of a document is the document behind the mark [GZ:]. *)
Definition gunzip (b : list byte) : option (list byte) :=
  let s := text_of b in
  if Str.startswith s "GZ:" then Some (bytes_of (String.substring 3 (String.length s) s))
  else None.

(** The parser: the documents of the site, the two documents it fails on,
    and a parse error for everything else. *)
Definition fromstring (b : list byte) : ET.parsed :=
  match documents !! text_of b with
  | Some root => ET.Root root
  | None =>
      if bool_decide (text_of b = sjis_xml)
      then ET.Failed (ValueError "multi-byte encodings are not supported")
      else if bool_decide (text_of b = nope_xml)
      then ET.Failed (LookupError "unknown encoding: nope")
      else ET.ParseError
  end.

(** An authority in brackets: the stand-in knows the loopback address. *)
Definition check_brackets (netloc : string) : option exn :=
  if bool_decide (netloc = "[::1]") then None
  else Some (ValueError "Invalid IPv6 URL").

(** A reference with an opening bracket that is never closed is not joined. *)
Definition join (base ref : string) : result string :=
  if Str.mem "[" ref && negb (Str.mem "]" ref) then Raise (ValueError "Invalid IPv6 URL")
  else Ok (if Str.contains ":" ref then ref else base +:+ ref).

Definition lib : Lib := {|
  ET_fromstring := fromstring;
  gzip_decompress := gunzip;
  decode_utf8_ignore := text_of;
  urljoin := join;
  urldefrag url := Ok (fst (split_at "#" url));
  BeautifulSoup html := default [] (soups !! html);
  check_bracketed_netloc := check_brackets
|}.

Definition ok (s : string) : Response :=
  {| status := 200; body := bytes_of s; text := s |}.

Definition responses : gmap string Response :=
  list_to_map
    [("https://e.com/robots.txt", ok robots_txt);
     ("https://e.com/index.xml", ok index_xml);
     ("https://e.com/a.xml", ok a_xml);
     ("https://e.com/b.xml.gz", ok ("GZ:" +:+ b_xml));
     ("https://e.com/c.xml", {| status := 404; body := bytes_of "gone"; text := "gone" |});
     ("https://e.com/loop.xml", ok loop_xml);
     ("https://e.com/plain.xml.gz?v=1", ok a_xml)].

Definition pages : gmap string string :=
  list_to_map
    [("https://e.com/", home_html); ("https://e.com/about", about_html);
     ("https://e.com/hello", hello_html); ("https://e.com/empty", empty_html)].

Definition net : Net := {|
  request_get url := responses !! url;
  page_goto url := pages !! url
|}.

(** A site that answers nothing. *)
Definition offline : Net := {| request_get _ := None; page_goto _ := None |}.

(** Floats as the expressions that compute them. *)
Inductive fexpr :=
| FZero
| FOfInt (n : Z)
| FDiv (x y : fexpr)
| FRound (x : fexpr) (ndigits : Z).

#[global] Instance fexpr_ops : FloatOps fexpr := {|
  float_of_int := FOfInt; float_div := FDiv; float_zero := FZero; float_round := FRound
|}.

End Demo.

(** ** Notions of the further properties *)

(** What one line of [robots.txt] declares. *)
Definition robots_entry (line : string) : option string :=
  let line := Str.strip line in
  if Str.nonempty line && Str.startswith (Str.lower line) "sitemap:" then
    match Str.split_once ":" line with
    | Some (_, rest) => if Str.nonempty (Str.strip rest) then Some (Str.strip rest) else None
    | None => None
    end
  else None.

(** A text within one line. *)
Definition no_linebreak (s : string) : bool := Str.all (λ c, negb (is_linebreak c)) s.

(** An event of the request context, as opposed to a navigation of the page. *)
Definition is_request (e : event) : Prop := ∃ url, e = Request url.

(** A text without whitespace at its ends. *)
Definition trimmed (u : string) : Prop := Str.strip u = u.

(** A sitemap whose only entry is blank. *)
Definition blank_tree : ET.Element :=
  ET.Elem "urlset" None [ET.Elem "url" None [ET.Elem "loc" (Some "  ") []]].

Definition blank_lib : Lib := {|
  ET_fromstring b := if bool_decide (Demo.text_of b = "<urlset><url><loc>  </loc></url></urlset>")
                     then ET.Root blank_tree else ET.ParseError;
  gzip_decompress := Demo.gunzip;
  decode_utf8_ignore := Demo.text_of;
  urljoin := urljoin Demo.lib;
  urldefrag := urldefrag Demo.lib;
  BeautifulSoup := BeautifulSoup Demo.lib;
  check_bracketed_netloc := check_bracketed_netloc Demo.lib
|}.

(** A site whose [sitemap.xml] holds one blank entry. *)
Definition blank_net : Net := {|
  request_get url :=
    if bool_decide (url = "https://e.com/sitemap.xml")
    then Some (Demo.ok "<urlset><url><loc>  </loc></url></urlset>") else None;
  page_goto _ := None
|}.

(** [u] is a link that the crawl takes from the page at [p]: the page is
    reached, is not blocked, and [u] is among its internal links. *)
Definition linked_from (lib : Lib) (net : Net) (base_url p u : string) : Prop :=
  ∃ html,
    page_goto net p = Some html
    ∧ is_probably_cloudflare_block html = false
    ∧ ∃ found, extract_internal_links lib html p base_url = Ok found ∧ u ∈ found.

(** The URLs that can be reached from the base over such links. *)
Definition reachable (lib : Lib) (net : Net) (base_url : string) : string → Prop :=
  rtc (linked_from lib net base_url) base_url.

(** The characters [urlsplit] removes from a URL: tab, line feed, carriage return. *)
Definition url_unsafe (c : ascii) : bool :=
  Str.mem c (String "009" (String "010" (String "013" EmptyString))).

(** A text that [urlparse] reads back as the authority when it stands between
    [//] and [/]: it has none of [/], [?], [#] and no removed character. *)
Definition authority_text (h : string) : bool :=
  Str.all (λ c, negb (Str.mem c "/?#") && negb (url_unsafe c)) h.

(** A text without a character of the class of the word pattern. *)
Definition no_word_char (s : string) : bool := Str.all (λ c, negb (word_char c)) s.

(** The text of the page that is counted, before the whitespace is collapsed. *)
Definition visible_text (lib : Lib) (html : string) : string :=
  String.concat " "
    (flat_map (visible_strings ["script"; "style"; "noscript"]) (BeautifulSoup lib html)).

(** A page of punctuation. *)
Definition punct_html : string := "<html><body>?! ... (;) </body></html>".

Definition punct_lib : Lib := {|
  ET_fromstring := ET_fromstring Demo.lib;
  gzip_decompress := Demo.gunzip;
  decode_utf8_ignore := Demo.text_of;
  urljoin := urljoin Demo.lib;
  urldefrag := urldefrag Demo.lib;
  BeautifulSoup html :=
    if bool_decide (html = punct_html)
    then page [] [Soup.NavigableString Soup.Plain "?! ... (;) "]
    else BeautifulSoup Demo.lib html;
  check_bracketed_netloc := check_bracketed_netloc Demo.lib
|}.

(** A site whose sitemap lists pages of another host only. *)
Definition foreign_net : Net := {|
  request_get url :=
    if bool_decide (url = "https://e.com/sitemap.xml") then Some (Demo.ok Demo.b_xml)
    else None;
  page_goto _ := None
|}.

(** * Properties *)

(** ** URL normalizer *)

Section Normalizer.

Lemma startswith_app (p s : string) :
  Str.startswith s p = true → ∃ r, s = p +:+ r.
Proof.
  unfold Str.startswith. revert s.
  induction p as [|c p IH]; intros s H.
  - exists s. reflexivity.
  - destruct s as [|d s]; simpl in H; [discriminate|].
    destruct (ascii_dec c d) as [->|]; [|discriminate].
    destruct (IH s H) as [r ->]. exists r. reflexivity.
Qed.

Lemma scheme_of_urlparse (url : string) :
  scheme (url_fields url) =
    fst (split_scheme
           (Str.remove
              (λ c, Str.mem c (String "009" (String "010" (String "013" EmptyString))))
              (Str.lstrip_by (λ c, Str.between 0 32 c) url))).
Proof.
  unfold url_fields.
  destruct (split_scheme _) as [sch u0]. simpl.
  destruct (split_netloc u0) as [loc u1].
  destruct (split_at "#" u1) as [u2 frag].
  destruct (split_at "?" u2) as [u3 qry].
  destruct (_ && _); [destruct (split_params u3)|]; reflexivity.
Qed.

Lemma urlparse_scheme_http (r : string) :
  scheme (url_fields ("http://" +:+ r)) = "http".
Proof. rewrite scheme_of_urlparse. reflexivity. Qed.

Lemma urlparse_scheme_https (r : string) :
  scheme (url_fields ("https://" +:+ r)) = "https".
Proof. rewrite scheme_of_urlparse. reflexivity. Qed.

Lemma with_scheme_scheme (url : string) :
  scheme (url_fields (with_scheme url)) = "http"
  ∨ scheme (url_fields (with_scheme url)) = "https".
Proof.
  unfold with_scheme.
  destruct (Str.startswith url "http://") eqn:H1.
  { apply startswith_app in H1 as [r ->]. left. apply urlparse_scheme_http. }
  destruct (Str.startswith url "https://") eqn:H2.
  { apply startswith_app in H2 as [r ->]. right. apply urlparse_scheme_https. }
  right. apply urlparse_scheme_https.
Qed.

Lemma nonempty_false (s : string) : Str.nonempty s = false ↔ s = EmptyString.
Proof. destruct s; simpl; split; congruence. Qed.

Lemma urlparse_Ok (lib : Lib) (url : string) (p : ParseResult) :
  urlparse lib url = Ok p → p = url_fields url ∧ check_netloc lib (netloc p) = None.
Proof.
  unfold urlparse. destruct (check_netloc lib _) eqn:E; [done|]. by intros [= <-].
Qed.

Lemma normalize_base_url_unfold (lib : Lib) (input : string) :
  normalize_base_url lib input =
    if negb (Str.nonempty (Str.strip input)) then Raise (ValueError "website is leeg")
    else
      match urlparse lib (with_scheme (Str.strip input)) with
      | Raise e => Raise e
      | Ok parsed =>
          if negb (Str.nonempty (netloc parsed))
          then Raise (ValueError "website url is ongeldig")
          else Ok (scheme parsed +:+ "://" +:+ netloc parsed +:+ "/")
      end.
Proof.
  unfold normalize_base_url, with_scheme, mbind, result_bind.
  destruct (Str.nonempty (Str.strip input)); simpl; [|reflexivity].
  destruct (Str.startswith (Str.strip input) "http://"); simpl; [reflexivity|].
  destruct (Str.startswith (Str.strip input) "https://"); reflexivity.
Qed.

Lemma startswith_lower_http (url : string) :
  Str.startswith url "http://" = true → Str.startswith (Str.lower url) "http://" = true.
Proof.
  intros [r ->]%startswith_app. unfold Str.startswith.
  change (Str.lower ("http://" +:+ r))
    with (String "h" (String "t" (String "t" (String "p" (String ":" (String "/"
           (String "/" (Str.lower r)))))))).
  cbn. by destruct (Str.lower r).
Qed.

Lemma startswith_lower_https (url : string) :
  Str.startswith url "https://" = true → Str.startswith (Str.lower url) "https://" = true.
Proof.
  intros [r ->]%startswith_app. unfold Str.startswith.
  change (Str.lower ("https://" +:+ r))
    with (String "h" (String "t" (String "t" (String "p" (String "s" (String ":"
           (String "/" (String "/" (Str.lower r))))))))).
  cbn. by destruct (Str.lower r).
Qed.

(** A text that does not start with [http://] or [https://] in any letter
    case gets [https://] in front. *)
Lemma with_scheme_no_scheme (url : string) :
  Str.startswith (Str.lower url) "http://" = false →
  Str.startswith (Str.lower url) "https://" = false →
  "https://" +:+ url = with_scheme url.
Proof.
  intros H1 H2. unfold with_scheme.
  destruct (Str.startswith url "http://") eqn:E1.
  { apply startswith_lower_http in E1. congruence. }
  destruct (Str.startswith url "https://") eqn:E2; [|done].
  apply startswith_lower_https in E2. congruence.
Qed.

End Normalizer.

(** C6, the case the specification gets wrong: the authority is returned in
    the letter case of the input, not lower-cased. *)
Lemma normalize_base_url_keeps_case :
  normalize_base_url Demo.lib "https://Example.com/x" = Ok "https://Example.com/"
  ∧ normalize_base_url Demo.lib "https://Example.com/x" ≠ Ok "https://example.com/".
Proof. split; [reflexivity | discriminate]. Qed.

(** C6, as the code has it: [normalize_base_url] works on the input with the
    surrounding whitespace removed; it raises on the empty string; a text
    that starts with lower-case [http://] or [https://] is parsed as it is,
    and a text that starts with neither of the two in any letter case is
    parsed with [https://] in front; it raises what [urlparse] raises
    (on an authority with a square bracket that is not matched or not
    accepted), it raises when [urlparse] finds no authority, and otherwise
    it returns [scheme://authority/] with the scheme [http] or [https] and
    the authority exactly as written, in its own letter case. So
    [example.com] gives [https://example.com/], the empty string raises,
    [https://Example.com/x] gives [https://Example.com/], and [http://[]
    raises. *)
Theorem normalize_base_url_spec (lib : Lib) (input : string) :
  let url := Str.strip input in
  (url = EmptyString → normalize_base_url lib input = Raise (ValueError "website is leeg"))
  ∧ (∀ target,
       url ≠ EmptyString →
       ((Str.startswith url "http://" = true ∨ Str.startswith url "https://" = true)
        ∧ target = url)
       ∨ (Str.startswith (Str.lower url) "http://" = false
          ∧ Str.startswith (Str.lower url) "https://" = false
          ∧ target = "https://" +:+ url) →
       match urlparse lib target with
       | Raise e => normalize_base_url lib input = Raise e
       | Ok parsed =>
           parsed = url_fields target
           ∧ (netloc parsed = EmptyString →
              normalize_base_url lib input = Raise (ValueError "website url is ongeldig"))
           ∧ (netloc parsed ≠ EmptyString →
              normalize_base_url lib input
              = Ok (scheme parsed +:+ "://" +:+ netloc parsed +:+ "/")
              ∧ (scheme parsed = "http" ∨ scheme parsed = "https"))
       end)
  ∧ normalize_base_url lib "example.com" = Ok "https://example.com/"
  ∧ normalize_base_url lib EmptyString = Raise (ValueError "website is leeg")
  ∧ normalize_base_url lib "https://Example.com/x" = Ok "https://Example.com/"
  ∧ normalize_base_url lib "http://[" = Raise (ValueError "Invalid IPv6 URL").
Proof.
  intros url. subst url. rewrite normalize_base_url_unfold.
  split; [by intros ->|]. split; [|by repeat split].
  intros target Hne Htarget.
  assert (target = with_scheme (Str.strip input)) as ->.
  { destruct Htarget as [[[H|H] ->]|(H1 & H2 & ->)].
    - unfold with_scheme. by rewrite H.
    - unfold with_scheme. rewrite H. by destruct (Str.startswith _ "http://").
    - by apply with_scheme_no_scheme. }
  destruct (Str.nonempty (Str.strip input)) eqn:E.
  2:{ by apply nonempty_false in E. }
  cbn [negb].
  destruct (urlparse lib (with_scheme (Str.strip input))) as [parsed|e] eqn:Ep; [|done].
  apply urlparse_Ok in Ep as [-> _]. split; [done|]. split.
  - by intros ->.
  - intros Hloc. destruct (Str.nonempty (netloc _)) eqn:E2.
    + split; [done | apply with_scheme_scheme].
    + by apply nonempty_false in E2.
Qed.

(** The text [example.com/p?next=http://x.org] starts with no scheme and gets
    [https://] in front. *)
Lemma normalize_base_url_spec_witness :
  Str.strip "example.com/p?next=http://x.org" ≠ EmptyString
  ∧ Str.startswith (Str.lower (Str.strip "example.com/p?next=http://x.org")) "http://" = false
  ∧ Str.startswith (Str.lower (Str.strip "example.com/p?next=http://x.org")) "https://" = false
  ∧ urlparse Demo.lib ("https://" +:+ Str.strip "example.com/p?next=http://x.org")
    = Ok (url_fields "https://example.com/p?next=http://x.org")
  ∧ normalize_base_url Demo.lib "example.com/p?next=http://x.org" = Ok "https://example.com/".
Proof.
  split; [discriminate|]. split; [reflexivity|]. split; [reflexivity|]. split; [reflexivity|].
  destruct (normalize_base_url_spec Demo.lib "example.com/p?next=http://x.org") as (_ & H & _).
  specialize (H ("https://" +:+ Str.strip "example.com/p?next=http://x.org")).
  destruct H as (_ & _ & H); [discriminate | right; by repeat split |].
  destruct H as [H _]; [discriminate|]. rewrite H. reflexivity.
Defined.

(** ** Sitemap XML parser *)

Section Parser.

Lemma Element_rect' (P : ET.Element → Prop) :
  (∀ t x cs, Forall P cs → P (ET.Elem t x cs)) → ∀ e, P e.
Proof.
  intros H. fix IH 1. intros [t x cs]. apply H.
  induction cs as [|c cs IHcs]; constructor; [apply IH | exact IHcs].
Qed.

Lemma elem_of_flat_map {A B} (f : A → list B) (l : list A) (y : B) :
  y ∈ flat_map f l ↔ ∃ x, x ∈ l ∧ y ∈ f x.
Proof.
  rewrite list_elem_of_In, in_flat_map.
  split; intros (x & H1 & H2); exists x; by rewrite ?list_elem_of_In in *.
Qed.

Lemma iter_unfold (e : ET.Element) :
  ET.iter e = e :: flat_map ET.iter (ET.children e).
Proof. by destruct e. Qed.

Lemma descendant_trans d c e : descendant d c → descendant c e → descendant d e.
Proof.
  intros Hdc Hce. induction Hce as [e Hc | c' e Hc' Hcc' IH].
  - by eapply descendant_below.
  - eapply descendant_below; [done|]. by apply IH.
Qed.

Lemma elem_of_iter (d e : ET.Element) : d ∈ ET.iter e ↔ d = e ∨ descendant d e.
Proof.
  revert d. induction e as [t x cs IH] using Element_rect'. intros d.
  rewrite iter_unfold, elem_of_cons, elem_of_flat_map. simpl.
  split.
  - intros [->|(c & Hc & Hd)]; [by left|right].
    rewrite Forall_forall in IH. apply (IH c Hc) in Hd as [->|Hd].
    + by apply descendant_child.
    + by eapply descendant_below.
  - intros [->|Hd]; [by left|right].
    rewrite Forall_forall in IH.
    inversion Hd as [e' Hc | c e' Hc Hdc]; simpl in *.
    + exists d. split; [done|]. apply IH; [done|by left].
    + exists c. split; [done|]. apply IH; [done|by right].
Qed.

Lemma elem_of_descendants (d e : ET.Element) :
  d ∈ flat_map ET.iter (ET.children e) ↔ descendant d e.
Proof.
  rewrite elem_of_flat_map. split.
  - intros (c & Hc & Hd). apply elem_of_iter in Hd as [->|Hd].
    + by apply descendant_child.
    + by eapply descendant_below.
  - intros Hd. inversion Hd as [e' Hc | c e' Hc Hdc].
    + exists d. split; [done|]. apply elem_of_iter. by left.
    + exists c. split; [done|]. apply elem_of_iter. by right.
Qed.

Lemma collect_loc_fold (els : list ET.Element) (acc : list string) :
  fold_left collect_loc els acc = acc ++ omap loc_of els.
Proof.
  revert acc. induction els as [|el els IH]; intros acc; simpl.
  - by rewrite app_nil_r.
  - rewrite IH. unfold collect_loc, loc_of.
    destruct (ET.find_child "loc" el) as [loc_el|]; simpl; [|done].
    destruct (ET.text loc_el) as [t|]; simpl; [|done].
    destruct (Str.nonempty t); simpl; [|done].
    by rewrite <- app_assoc.
Qed.

Lemma split_once_app (c : ascii) (a b : string) :
  Str.mem c a = false → Str.split_once c (a +:+ String c b) = Some (a, b).
Proof.
  induction a as [|d a IH]; simpl; intros H.
  - by destruct (ascii_dec c c).
  - destruct (ascii_dec c d); [done|]. by rewrite IH.
Qed.



End Parser.




(** ** Sitemap resolver *)

Section Resolver.

Context (lib : Lib) (net : Net).

Lemma fetch_bytes_with_request_fetched (url : string) :
  fetch_bytes_with_request net url = Some (Ok (fetched net url), [Request url])
  ∧ fetched net url ≠ Some [].
Proof.
  unfold fetch_bytes_with_request, fetched.
  destruct (request_get net url) as [resp|]; [|done].
  destruct (Z.eqb_spec (status resp) 200) as [E|E]; simpl.
  - destruct (body resp) as [|b bs] eqn:Eb.
    + rewrite bool_decide_eq_false_2; [done|]. by intros [_ ?].
    + rewrite bool_decide_eq_true_2; done.
  - rewrite bool_decide_eq_false_2; [done|]. by intros [? _].
Qed.

(** One call of the resolver, whatever the recursive call is. *)
Lemma resolve_step_eq (self : string → Z → M (list string)) (url : string) (n : Z) :
  resolve_step lib net self url n =
    match fetched net url with
    | None => Some (Ok [], [Request url])
    | Some raw =>
        match (if gz_suffix url then gzip_decompress lib raw else Some raw) with
        | None => Some (Ok [], [Request url])
        | Some content =>
            if is_probably_cloudflare_block (decode_utf8_ignore lib content)
            then Some (Ok [], [Request url])
            else
              match parse_sitemap_xml lib content with
              | Raise e => Some (Raise e, [Request url])
              | Ok (u :: us, _) => Some (Ok (u :: us), [Request url])
              | Ok ([], children) =>
                  match visit_children (λ c, self c n) (slice_to children n) [] with
                  | Some (r, log) => Some (r, Request url :: log)
                  | None => None
                  end
              end
        end
    end.
Proof.
  unfold resolve_step. destruct (fetch_bytes_with_request_fetched url) as [-> Hne].
  unfold mbind, M_bind, gz_suffix.
  destruct (fetched net url) as [[|b raw]|]; [done| |done].
  destruct (if Str.endswith url ".gz" then _ else _) as [content|]; [|done].
  destruct (is_probably_cloudflare_block _); [done|].
  unfold lift.
  destruct (parse_sitemap_xml lib content) as [[[|u us] children]|e]; [|done|done].
  unfold visit_children, mbind, M_bind. by destruct (for_each _ _ _) as [[r log]|].
Qed.

Lemma fetch_all_sitemap_urls_S (fuel : nat) (url : string) (n : Z) :
  fetch_all_sitemap_urls lib net (S fuel) url n =
    match fetched net url with
    | None => Some (Ok [], [Request url])
    | Some raw =>
        match (if gz_suffix url then gzip_decompress lib raw else Some raw) with
        | None => Some (Ok [], [Request url])
        | Some content =>
            if is_probably_cloudflare_block (decode_utf8_ignore lib content)
            then Some (Ok [], [Request url])
            else
              match parse_sitemap_xml lib content with
              | Raise e => Some (Raise e, [Request url])
              | Ok (u :: us, _) => Some (Ok (u :: us), [Request url])
              | Ok ([], children) =>
                  match visit_children (λ c, fetch_all_sitemap_urls lib net fuel c n)
                          (slice_to children n) [] with
                  | Some (r, log) => Some (r, Request url :: log)
                  | None => None
                  end
              end
        end
    end.
Proof. apply (resolve_step_eq (fetch_all_sitemap_urls lib net fuel)). Qed.

Lemma visit_children_cons f child children acc :
  visit_children f (child :: children) acc =
    match f child with
    | Some (Ok r, log1) =>
        match visit_children f children (acc ++ r) with
        | Some (res, log2) => Some (res, log1 ++ log2)
        | None => None
        end
    | Some (Raise e, log1) => Some (Raise e, log1)
    | None => None
    end.
Proof.
  unfold visit_children. simpl. unfold mbind, M_bind, mret, M_ret.
  destruct (f child) as [[[r|e] log1]|]; [|done|done]. simpl.
  destruct (for_each _ _ _) as [[res log2]|]; [|done].
  by rewrite app_nil_r.
Qed.

Lemma slice_to_nonneg {A} (l : list A) (n : Z) :
  0 ≤ n → slice_to l n = take (Z.to_nat n) l.
Proof. unfold slice_to. intros H. by rewrite (proj2 (Z.leb_le 0 n) H). Qed.

Lemma visit_children_sound gz k f children :
  (∀ c us lg, f c = Some (Ok us, lg) → resolves lib net gz k c us lg) →
  ∀ acc urls log,
    visit_children f children acc = Some (Ok urls, log) →
    ∃ rs, urls = acc ++ rs ∧ resolves_each lib net gz k children rs log.
Proof.
  intros Hf. induction children as [|c cs IH]; intros acc urls log.
  - intros [= <- <-]. exists []. split; [by rewrite app_nil_r | constructor].
  - rewrite visit_children_cons.
    destruct (f c) as [[[r|e] log1]|] eqn:Ec; [|done|done].
    destruct (visit_children f cs (acc ++ r)) as [[res log2]|] eqn:Ecs; [|done].
    intros [= -> <-]. destruct (IH _ _ _ Ecs) as (rs & -> & Hrs).
    exists (r ++ rs). split; [by rewrite app_assoc|].
    constructor; [by apply Hf | done].
Qed.

Lemma fetch_all_sitemap_urls_sound (n : Z) (fuel : nat) :
  ∀ url urls log,
    fetch_all_sitemap_urls lib net fuel url n = Some (Ok urls, log) →
    resolves lib net gz_suffix n url urls log.
Proof.
  induction fuel as [|fuel IH]; intros url urls log; [done|].
  rewrite fetch_all_sitemap_urls_S.
  destruct (fetched net url) as [raw|] eqn:Ef.
  2:{ intros [= <- <-]. by constructor. }
  destruct (if gz_suffix url then _ else _) as [content|] eqn:Ec.
  2:{ intros [= <- <-]. destruct (gz_suffix url) eqn:Egz; [|done].
      by eapply resolves_bad_gzip. }
  destruct (is_probably_cloudflare_block _) eqn:Eb.
  { intros [= <- <-]. by eapply resolves_blocked. }
  destruct (parse_sitemap_xml lib content) as [[[|u us] children]|e] eqn:Ep; [| |done].
  - destruct (visit_children _ _ _) as [[res log']|] eqn:Ev; [|done].
    intros [= -> <-].
    apply (visit_children_sound gz_suffix n) in Ev as (rs & -> & Hrs); [|done].
    by eapply resolves_index.
  - intros [= <- <-]. by eapply resolves_leaf.
Qed.

Lemma visit_children_mono (f g : string → M (list string)) children :
  (∀ c r, f c = Some r → g c = Some r) →
  ∀ acc r, visit_children f children acc = Some r → visit_children g children acc = Some r.
Proof.
  intros Hfg. induction children as [|c cs IH]; intros acc r; [done|].
  rewrite !visit_children_cons.
  destruct (f c) as [[[us|e] log1]|] eqn:Ec; [| |done]; rewrite (Hfg _ _ Ec); [|done].
  destruct (visit_children f cs (acc ++ us)) as [[res log2]|] eqn:Ecs; [|done].
  by rewrite (IH _ _ Ecs).
Qed.

(** A call that returns with one recursive call returns the same with
    another that agrees with it wherever it returns. *)
Lemma resolve_step_mono (f g : string → Z → M (list string)) (url : string) (n : Z) r :
  (∀ c r, f c n = Some r → g c n = Some r) →
  resolve_step lib net f url n = Some r → resolve_step lib net g url n = Some r.
Proof.
  intros Hfg. rewrite !resolve_step_eq.
  destruct (fetched net url) as [raw|]; [|done].
  destruct (if gz_suffix url then _ else _) as [content|]; [|done].
  destruct (is_probably_cloudflare_block _); [done|].
  destruct (parse_sitemap_xml lib content) as [[[|u us] children]|e]; [|done|done].
  destruct (visit_children _ _ _) as [[res log]|] eqn:Ev; [|done].
  by rewrite (visit_children_mono _ _ _ Hfg _ _ Ev).
Qed.

Lemma fetch_all_sitemap_urls_S_fuel (n : Z) (fuel : nat) :
  ∀ url r,
    fetch_all_sitemap_urls lib net fuel url n = Some r →
    fetch_all_sitemap_urls lib net (S fuel) url n = Some r.
Proof.
  induction fuel as [|fuel IH]; intros url r; [done|].
  apply resolve_step_mono. intros c r'. apply IH.
Qed.

Lemma fetch_all_sitemap_urls_mono (n : Z) (fuel fuel' : nat) (url : string) r :
  (fuel ≤ fuel')%nat →
  fetch_all_sitemap_urls lib net fuel url n = Some r →
  fetch_all_sitemap_urls lib net fuel' url n = Some r.
Proof.
  induction 1 as [|fuel' _ IH]; [done|].
  intros H. by apply fetch_all_sitemap_urls_S_fuel, IH.
Qed.




Lemma fetch_all_sitemap_urls_complete (n : Z) :
  ∀ url urls log,
    resolves lib net gz_suffix n url urls log →
    ∃ fuel, fetch_all_sitemap_urls lib net fuel url n = Some (Ok urls, log).
Proof.
  apply (resolves_ind2 lib net gz_suffix n
    (λ url urls log,
       ∃ fuel, fetch_all_sitemap_urls lib net fuel url n = Some (Ok urls, log))
    (λ children urls log, ∃ fuel, ∀ acc,
       visit_children (λ c, fetch_all_sitemap_urls lib net fuel c n) children acc
       = Some (Ok (acc ++ urls), log))).
  - intros url Hf. exists 1%nat. by rewrite fetch_all_sitemap_urls_S, Hf.
  - intros url raw Hf Hgz Hz. exists 1%nat.
    by rewrite fetch_all_sitemap_urls_S, Hf, Hgz, Hz.
  - intros url raw content Hf Hc Hb. exists 1%nat.
    by rewrite fetch_all_sitemap_urls_S, Hf, Hc, Hb.
  - intros url raw content urls children Hf Hc Hb Hp Hne. exists 1%nat.
    rewrite fetch_all_sitemap_urls_S, Hf, Hc, Hb, Hp. by destruct urls.
  - intros url raw content children urls log Hf Hc Hb Hp _ [fuel IH].
    exists (S fuel).
    rewrite fetch_all_sitemap_urls_S, Hf, Hc, Hb, Hp.
    by rewrite IH.
  - exists 0%nat. intros acc. by rewrite app_nil_r.
  - intros child children urls1 log1 urls2 log2 _ [fuel1 IH1] _ [fuel2 IH2].
    exists (fuel1 `max` fuel2)%nat. intros acc. rewrite visit_children_cons.
    rewrite (fetch_all_sitemap_urls_mono n fuel1 _ _ _ (Nat.le_max_l _ _) IH1).
    rewrite (visit_children_mono _ _ _
               (λ c r, fetch_all_sitemap_urls_mono n fuel2 _ c r (Nat.le_max_r fuel1 fuel2))
               _ _ (IH2 _)).
    by rewrite app_assoc.
Qed.

Lemma fetch_all_sitemap_urls_children (fuel : nat) (url : string) (n : Z) :
  fetch_all_sitemap_urls lib net (S fuel) url n =
    match index_children lib net n url with
    | [] => fetch_all_sitemap_urls lib net 1 url n
    | children =>
        match visit_children (λ c, fetch_all_sitemap_urls lib net fuel c n) children [] with
        | Some (r, log) => Some (r, Request url :: log)
        | None => None
        end
    end.
Proof.
  rewrite !fetch_all_sitemap_urls_S. unfold index_children.
  destruct (fetched net url) as [raw|]; [|done].
  destruct (if gz_suffix url then _ else _) as [content|]; [|done].
  destruct (is_probably_cloudflare_block _); [done|].
  destruct (parse_sitemap_xml lib content) as [[[|u us] children]|e]; [|done|done].
  by destruct (slice_to children n).
Qed.



Lemma visit_children_each f children acc urls log :
  visit_children f children acc = Some (Ok urls, log) →
  ∀ c, c ∈ children → ∃ us lg, f c = Some (Ok us, lg).
Proof.
  revert acc urls log. induction children as [|c cs IH]; intros acc urls log H c' Hc'.
  - by apply elem_of_nil in Hc'.
  - rewrite visit_children_cons in H.
    destruct (f c) as [[[us|e] log1]|] eqn:Ec; [|done|done].
    destruct (visit_children f cs (acc ++ us)) as [[res log2]|] eqn:Ecs; [|done].
    injection H as -> <-.
    apply elem_of_cons in Hc' as [->|Hc']; [by eexists _, _|].
    by eapply IH.
Qed.

Lemma fetch_all_sitemap_urls_Acc (n : Z) (fuel : nat) :
  ∀ url urls log, fetch_all_sitemap_urls lib net fuel url n = Some (Ok urls, log) →
                  Acc (indexes lib net n) url.
Proof.
  induction fuel as [|fuel IH]; intros url urls log H; [done|].
  constructor. intros c Hc. unfold indexes in Hc.
  rewrite fetch_all_sitemap_urls_children in H.
  destruct (index_children lib net n url) as [|c0 cs] eqn:E.
  { by apply elem_of_nil in Hc. }
  destruct (visit_children _ _ _) as [[[us|e] lg]|] eqn:Ev; [|done|done].
  destruct (visit_children_each _ _ _ _ _ Ev c Hc) as (us' & lg' & Hr').
  by eapply IH.
Qed.


End Resolver.

(** C1, the case the specification gets wrong: the query string hides the
    suffix [.gz] from the code, although the path of the URL ends in it. The
    payload, which is not compressed, is parsed as it is and its URLs are
    returned, where the algorithm of the specification ends with the empty
    list after a failed decompression. *)
Lemma resolver_gz_path_differs :
  gz_path "https://e.com/plain.xml.gz?v=1" = true
  ∧ fetch_all_sitemap_urls Demo.lib Demo.net 1 "https://e.com/plain.xml.gz?v=1" 50
    = Some (Ok ["https://e.com/"; "https://e.com/about"; "https://e.com/"],
            [Request "https://e.com/plain.xml.gz?v=1"])
  ∧ ∀ urls log,
      resolves Demo.lib Demo.net gz_path 50 "https://e.com/plain.xml.gz?v=1" urls log →
      urls = [].
Proof.
  split; [reflexivity|]. split; [reflexivity|].
  intros urls log H.
  assert (Hgz : gz_path "https://e.com/plain.xml.gz?v=1" = true) by reflexivity.
  assert (Hf : fetched Demo.net "https://e.com/plain.xml.gz?v=1"
               = Some (Demo.bytes_of Demo.a_xml)) by reflexivity.
  assert (Hz : gzip_decompress Demo.lib (Demo.bytes_of Demo.a_xml) = None) by reflexivity.
  inversion H as [ | | | ? raw content ? ? Hf' Hc | ? raw content ? ? ? Hf' Hc ];
    subst; try reflexivity.
  - rewrite Hf in Hf'. injection Hf' as <-. rewrite Hgz, Hz in Hc. discriminate.
  - rewrite Hf in Hf'. injection Hf' as <-. rewrite Hgz, Hz in Hc. discriminate.
Qed.

(** C1, as the code has it: [fetch_all_sitemap_urls] returns [urls] after
    the fetches [log] exactly when the reference algorithm does, where a
    sitemap counts as compressed when the URL, as a string, ends in [.gz]: a
    fetch that fails, is not answered with status 200 or has an empty body
    gives the empty list; so does a failed decompression and a blocked
    payload; leaf URLs are returned as they are, whatever children the
    document has; otherwise the slice [children[:max_children]], which is the
    first [max_children] children when the cap is not negative, is resolved
    in order and the results are concatenated. The default cap is 50. *)
Theorem fetch_all_sitemap_urls_reference (lib : Lib) (net : Net)
  (url : string) (n : Z) (urls : list string) (log : list event) :
  ((∃ fuel, fetch_all_sitemap_urls lib net fuel url n = Some (Ok urls, log))
   ↔ resolves lib net gz_suffix n url urls log)
  ∧ (∀ children : list string,
       0 ≤ n → slice_to children n = take (Z.to_nat n) children)
  ∧ default_max_children = 50.
Proof.
  split; [split|split].
  - intros [fuel H]. by eapply fetch_all_sitemap_urls_sound.
  - apply fetch_all_sitemap_urls_complete.
  - intros children Hn. by apply slice_to_nonneg.
  - reflexivity.
Qed.

(** The index of the sample site under a cap of two: the third child is
    never fetched. *)
Lemma fetch_all_sitemap_urls_reference_witness :
  0 ≤ 2
  ∧ slice_to ["https://e.com/a.xml"; "https://e.com/b.xml.gz"; "https://e.com/c.xml"] 2
    = ["https://e.com/a.xml"; "https://e.com/b.xml.gz"]
  ∧ resolves Demo.lib Demo.net gz_suffix 2 "https://e.com/index.xml"
      ["https://e.com/"; "https://e.com/about"; "https://e.com/"; "https://other.org/x"]
      [Request "https://e.com/index.xml"; Request "https://e.com/a.xml";
       Request "https://e.com/b.xml.gz"].
Proof.
  destruct (fetch_all_sitemap_urls_reference Demo.lib Demo.net "https://e.com/index.xml" 2
              ["https://e.com/"; "https://e.com/about"; "https://e.com/"; "https://other.org/x"]
              [Request "https://e.com/index.xml"; Request "https://e.com/a.xml";
               Request "https://e.com/b.xml.gz"]) as (Hiff & Hslice & _).
  split; [lia|]. split.
  - rewrite Hslice by lia. reflexivity.
  - apply Hiff. exists 2%nat. reflexivity.
Defined.






(** ** Discovery *)

Section Discovery.

Context (lib : Lib) (net : Net).

Lemma filter_filter_ne (seen : gset string) (x : string) (l : list string) :
  filter (λ y, y ∉ {[x]} ∪ seen) l = filter (λ y, y ∉ seen) (filter (λ y, y ≠ x) l).
Proof.
  induction l as [|y l IH]; [done|].
  destruct (decide (y = x)) as [->|Hne].
  - rewrite (filter_cons_False (λ y, y ≠ x)) by (by intros ?).
    rewrite filter_cons_False by set_solver. done.
  - rewrite (filter_cons_True (λ y, y ≠ x)) by done.
    destruct (decide (y ∈ seen)) as [Hs|Hs].
    + rewrite !filter_cons_False by (clear IH; set_solver). done.
    + rewrite !filter_cons_True by (clear IH; set_solver). by rewrite IH.
Qed.

Lemma filter_seen_ne (seen : gset string) (x : string) (l : list string) :
  x ∈ seen → filter (λ y, y ∉ seen) (filter (λ y, y ≠ x) l) = filter (λ y, y ∉ seen) l.
Proof.
  intros Hx. induction l as [|y l IH]; [done|].
  destruct (decide (y = x)) as [->|Hne].
  - rewrite (filter_cons_False (λ y, y ≠ x)) by (by intros ?).
    rewrite (filter_cons_False (λ y, y ∉ seen)) by (by intros ?). done.
  - rewrite (filter_cons_True (λ y, y ≠ x)) by done.
    destruct (decide (y ∈ seen)) as [Hs|Hs].
    + rewrite !(filter_cons_False (λ y, y ∉ seen)) by (by intros ?). done.
    + rewrite !(filter_cons_True (λ y, y ∉ seen)) by done. by rewrite IH.
Qed.

Lemma unique_step_fold (l : list string) (seen : gset string) (acc : list string) :
  snd (fold_left unique_step l (seen, acc))
  = acc ++ filter (λ y, y ∉ seen) (dedup_first l).
Proof.
  revert seen acc. induction l as [|x l IH]; intros seen acc.
  - simpl. by rewrite app_nil_r.
  - cbn [fold_left dedup_first]. unfold unique_step at 2. case_bool_decide as Hx.
    + rewrite IH, filter_cons_False by (by intros ?). by rewrite filter_seen_ne.
    + rewrite IH, filter_cons_True by done.
      by rewrite <- app_assoc, filter_filter_ne.
Qed.

Lemma filter_not_in_empty (seen : gset string) (l : list string) :
  seen = ∅ → filter (λ y, y ∉ seen) l = l.
Proof.
  intros ->. induction l as [|y l IH]; [done|].
  rewrite filter_cons_True by set_solver. by rewrite IH.
Qed.

Lemma unique_is_dedup_first (l : list string) :
  snd (fold_left unique_step l (∅, [])) = dedup_first l.
Proof. rewrite unique_step_fold. simpl. by apply filter_not_in_empty. Qed.

Lemma clean_step_fold (urls : list string) (st : gset string * list string) :
  fold_left clean_step urls st
  = fold_left unique_step (filter (λ u, u ≠ EmptyString) (Str.strip <$> urls)) st.
Proof.
  revert st. induction urls as [|u urls IH]; intros st; [done|].
  rewrite fmap_cons. cbn [fold_left]. rewrite IH.
  unfold clean_step.
  destruct (Str.strip u) as [|c t] eqn:E; cbn [Str.nonempty negb].
  - by rewrite filter_cons_False by (by intros ?).
  - by rewrite filter_cons_True by done.
Qed.

Lemma dedup_first_elem_of (l : list string) (x : string) : x ∈ dedup_first l ↔ x ∈ l.
Proof.
  induction l as [|y l IH]; simpl; [done|].
  rewrite !elem_of_cons, list_elem_of_filter, IH.
  destruct (decide (x = y)); naive_solver.
Qed.

Lemma dedup_first_NoDup (l : list string) : NoDup (dedup_first l).
Proof.
  induction l as [|y l IH]; simpl; constructor.
  - rewrite list_elem_of_filter. naive_solver.
  - by apply NoDup_filter.
Qed.

Lemma default_candidates_fold (base_url : string) (d : list string) :
  fold_result
    (λ d path,
       u ← urljoin lib base_url (Str.lstrip_by (λ c, bool_decide (c = "/"%char)) path);
       Ok (d ++ [u]))
    DEFAULT_SITEMAP_CANDIDATES d
  = (wk ← mapM (urljoin lib base_url) well_known; Ok (d ++ wk)).
Proof.
  unfold DEFAULT_SITEMAP_CANDIDATES, well_known. simpl.
  unfold mbind, mret, result_bind, result_ret.
  repeat (destruct (urljoin lib base_url _) as [?u|?e]; [|reflexivity]).
  by rewrite <- !app_assoc.
Qed.

Lemma fetch_text_with_request_eq (url : string) :
  fetch_text_with_request net url =
    Some (Ok (match request_get net url with
              | Some resp =>
                  if bool_decide (status resp = 200 ∧ text resp ≠ EmptyString)
                  then Some (text resp) else None
              | None => None
              end), [Request url]).
Proof.
  unfold fetch_text_with_request.
  destruct (request_get net url) as [resp|]; [|done].
  destruct (Z.eqb_spec (status resp) 200) as [E|E]; simpl.
  - destruct (text resp) as [|c t] eqn:Et; simpl.
    + by rewrite bool_decide_eq_false_2 by (by intros [_ ?]).
    + by rewrite bool_decide_eq_true_2 by done.
  - by rewrite bool_decide_eq_false_2 by (by intros [? _]).
Qed.

Lemma try_discover_sitemaps_candidates (base_url : string) :
  try_discover_sitemaps lib net base_url = candidates_run lib net base_url.
Proof.
  unfold try_discover_sitemaps, candidates_run, declared_sitemaps.
  destruct (urljoin lib base_url "robots.txt") as [robots|e]; [|done].
  cbn [lift mbind M_bind app].
  rewrite fetch_text_with_request_eq.
  cbn [mbind M_bind mret M_ret app].
  rewrite default_candidates_fold.
  destruct (mapM (urljoin lib base_url) well_known) as [wk|e];
    cbn [mbind result_bind lift]; [|done].
  rewrite unique_is_dedup_first. cbn [app]. do 3 f_equal.
  destruct (request_get net robots) as [resp|]; [|done].
  case_bool_decide as Hok; [|done]. cbn [andb].
  destruct Hok as [_ Hne]. destruct (text resp) as [|c t]; [done|].
  cbn [Str.nonempty andb]. by destruct (is_probably_cloudflare_block _).
Qed.

Lemma discover_loop_cons (fuel : nat) (sm : string) (rest : list string) :
  discover_loop lib net fuel (sm :: rest) =
    match fetch_all_sitemap_urls lib net fuel sm default_max_children with
    | Some (Ok [], log) =>
        match discover_loop lib net fuel rest with
        | Some (r, log2) => Some (r, log ++ log2)
        | None => None
        end
    | Some (Ok urls, log) => Some (Ok (normalize_urls urls), log)
    | Some (Raise e, log) => Some (Raise e, log)
    | None => None
    end.
Proof.
  cbn [discover_loop]. unfold mbind, M_bind.
  destruct (fetch_all_sitemap_urls _ _ _ _ _) as [[[[|u us]|e] log]|]; [done| |done|done].
  unfold normalize_urls. rewrite <- unique_is_dedup_first, <- clean_step_fold.
  unfold mret, M_ret. by rewrite app_nil_r.
Qed.

Lemma discover_loop_first_success (fuel : nat) (tried : list string) :
  ∀ logs sm rest urls log,
    Forall2 (λ c lg, fetch_all_sitemap_urls lib net fuel c default_max_children
                     = Some (Ok [], lg)) tried logs →
    fetch_all_sitemap_urls lib net fuel sm default_max_children = Some (Ok urls, log) →
    urls ≠ [] →
    discover_loop lib net fuel (tried ++ sm :: rest)
    = Some (Ok (normalize_urls urls), concat logs ++ log).
Proof.
  induction tried as [|c tried IH]; intros logs sm rest urls log Htried Hsm Hne.
  - apply Forall2_nil_inv_l in Htried as ->.
    rewrite app_nil_l, discover_loop_cons, Hsm. by destruct urls.
  - apply Forall2_cons_inv_l in Htried as (lg & logs' & Hc & Htried & ->).
    rewrite <- app_comm_cons, discover_loop_cons, Hc.
    rewrite (IH _ _ _ _ _ Htried Hsm Hne). by rewrite concat_cons, app_assoc.
Qed.

Lemma discover_loop_first_raise (fuel : nat) (tried : list string) :
  ∀ logs sm rest e log,
    Forall2 (λ c lg, fetch_all_sitemap_urls lib net fuel c default_max_children
                     = Some (Ok [], lg)) tried logs →
    fetch_all_sitemap_urls lib net fuel sm default_max_children = Some (Raise e, log) →
    discover_loop lib net fuel (tried ++ sm :: rest)
    = Some (Raise e, concat logs ++ log).
Proof.
  induction tried as [|c tried IH]; intros logs sm rest e log Htried Hsm.
  - apply Forall2_nil_inv_l in Htried as ->.
    by rewrite app_nil_l, discover_loop_cons, Hsm.
  - apply Forall2_cons_inv_l in Htried as (lg & logs' & Hc & Htried & ->).
    rewrite <- app_comm_cons, discover_loop_cons, Hc.
    rewrite (IH _ _ _ _ _ Htried Hsm). by rewrite concat_cons, app_assoc.
Qed.

Lemma discover_loop_no_success (fuel : nat) (candidates : list string) :
  ∀ logs,
    Forall2 (λ c lg, fetch_all_sitemap_urls lib net fuel c default_max_children
                     = Some (Ok [], lg)) candidates logs →
    discover_loop lib net fuel candidates = Some (Ok [], concat logs).
Proof.
  induction candidates as [|c cs IH]; intros logs H.
  - by apply Forall2_nil_inv_l in H as ->.
  - apply Forall2_cons_inv_l in H as (lg & logs' & Hc & H & ->).
    rewrite discover_loop_cons, Hc. by rewrite (IH _ H).
Qed.

Lemma discover_urls_from_sitemaps_eq (fuel : nat) (base_url : string) :
  discover_urls_from_sitemaps lib net fuel base_url =
    match candidates_run lib net base_url with
    | Some (Ok candidates, log) =>
        match discover_loop lib net fuel candidates with
        | Some (r, log') => Some (r, log ++ log')
        | None => None
        end
    | Some (Raise e, log) => Some (Raise e, log)
    | None => None
    end.
Proof.
  unfold discover_urls_from_sitemaps. by rewrite try_discover_sitemaps_candidates.
Qed.

Lemma candidates_run_Ok (base_url robots_url : string) (wk : list string) :
  urljoin lib base_url "robots.txt" = Ok robots_url →
  mapM (urljoin lib base_url) well_known = Ok wk →
  candidates_run lib net base_url
  = Some (Ok (dedup_first (declared_sitemaps net robots_url ++ wk)),
          [Request robots_url]).
Proof. intros Hr Hw. unfold candidates_run. by rewrite Hr, Hw. Qed.

End Discovery.

(** C2: the candidates are the sitemaps that [robots.txt] declares (none
    unless it is fetched and not classified as blocked) followed by the four
    well-known paths joined to the base, each kept at its first occurrence;
    an exception of [urljoin] ends the discovery.
    [discover_urls_from_sitemaps] resolves the candidates in order: when the
    candidates [tried] resolve to nothing and the next one, [sm], resolves to
    [urls], which is not empty, the result is [urls] trimmed, without the
    empty entries and deduplicated at first occurrences, and the fetches are
    those of [robots.txt], of [tried] and of [sm], so that nothing after [sm]
    is fetched. When every candidate resolves to nothing the result is empty. *)
Theorem discover_urls_from_sitemaps_first_success (lib : Lib) (net : Net)
  (base_url : string) (fuel : nat) :
  let resolves_empty c lg :=
    fetch_all_sitemap_urls lib net fuel c default_max_children = Some (Ok [], lg) in
  try_discover_sitemaps lib net base_url
  = match urljoin lib base_url "robots.txt" with
    | Raise e => Some (Raise e, [])
    | Ok robots_url =>
        match mapM (urljoin lib base_url) well_known with
        | Raise e => Some (Raise e, [Request robots_url])
        | Ok joined =>
            Some (Ok (dedup_first (declared_sitemaps net robots_url ++ joined)),
                  [Request robots_url])
        end
    end
  ∧ (∀ robots_url joined,
       urljoin lib base_url "robots.txt" = Ok robots_url →
       mapM (urljoin lib base_url) well_known = Ok joined →
       let candidates := dedup_first (declared_sitemaps net robots_url ++ joined) in
       (∀ tried logs sm rest urls log,
          candidates = tried ++ sm :: rest →
          Forall2 resolves_empty tried logs →
          fetch_all_sitemap_urls lib net fuel sm default_max_children
          = Some (Ok urls, log) →
          urls ≠ [] →
          discover_urls_from_sitemaps lib net fuel base_url
          = Some (Ok (normalize_urls urls), Request robots_url :: concat logs ++ log))
       ∧ (∀ logs,
            Forall2 resolves_empty candidates logs →
            discover_urls_from_sitemaps lib net fuel base_url
            = Some (Ok [], Request robots_url :: concat logs)))
  ∧ (∀ l, NoDup (dedup_first l) ∧ ∀ x, x ∈ dedup_first l ↔ x ∈ l).
Proof.
  intros resolves_empty.
  split; [apply try_discover_sitemaps_candidates|].
  split.
  - intros robots_url joined Hr Hj candidates.
    rewrite discover_urls_from_sitemaps_eq, (candidates_run_Ok lib net _ _ _ Hr Hj).
    fold candidates. split.
    + intros tried logs sm rest urls log -> Htried Hsm Hne.
      by rewrite (discover_loop_first_success lib net fuel tried logs sm rest urls log).
    + intros logs H. by rewrite (discover_loop_no_success lib net fuel candidates logs).
  - intros l. split; [apply dedup_first_NoDup | apply dedup_first_elem_of].
Qed.

(** On the sample site the first candidate is gone, the second is the index. *)
Lemma discover_urls_from_sitemaps_first_success_witness :
  urljoin Demo.lib "https://e.com/" "robots.txt" = Ok "https://e.com/robots.txt"
  ∧ mapM (urljoin Demo.lib "https://e.com/") well_known
    = Ok ["https://e.com/sitemap.xml"; "https://e.com/sitemap_index.xml";
          "https://e.com/sitemap-index.xml"; "https://e.com/sitemap.xml.gz"]
  ∧ dedup_first (declared_sitemaps Demo.net "https://e.com/robots.txt"
                 ++ ["https://e.com/sitemap.xml"; "https://e.com/sitemap_index.xml";
                     "https://e.com/sitemap-index.xml"; "https://e.com/sitemap.xml.gz"])
    = ["https://e.com/c.xml"] ++ "https://e.com/index.xml"
        :: ["https://e.com/sitemap.xml"; "https://e.com/sitemap_index.xml";
            "https://e.com/sitemap-index.xml"; "https://e.com/sitemap.xml.gz"]
  ∧ fetch_all_sitemap_urls Demo.lib Demo.net 2 "https://e.com/c.xml" default_max_children
    = Some (Ok [], [Request "https://e.com/c.xml"])
  ∧ fetch_all_sitemap_urls Demo.lib Demo.net 2 "https://e.com/index.xml"
      default_max_children
    = Some (Ok ["https://e.com/"; "https://e.com/about"; "https://e.com/";
                "https://other.org/x"],
            [Request "https://e.com/index.xml"; Request "https://e.com/a.xml";
             Request "https://e.com/b.xml.gz"; Request "https://e.com/c.xml"])
  ∧ discover_urls_from_sitemaps Demo.lib Demo.net 2 "https://e.com/"
    = Some (Ok ["https://e.com/"; "https://e.com/about"; "https://other.org/x"],
            [Request "https://e.com/robots.txt"; Request "https://e.com/c.xml";
             Request "https://e.com/index.xml"; Request "https://e.com/a.xml";
             Request "https://e.com/b.xml.gz"; Request "https://e.com/c.xml"]).
Proof.
  split; [reflexivity|]. split; [reflexivity|]. split; [reflexivity|].
  split; [reflexivity|]. split; [reflexivity|].
  destruct (discover_urls_from_sitemaps_first_success Demo.lib Demo.net "https://e.com/" 2)
    as (_ & H & _).
  destruct (H "https://e.com/robots.txt"
              ["https://e.com/sitemap.xml"; "https://e.com/sitemap_index.xml";
               "https://e.com/sitemap-index.xml"; "https://e.com/sitemap.xml.gz"]
              eq_refl eq_refl) as [H1 _].
  apply (H1 ["https://e.com/c.xml"] [[Request "https://e.com/c.xml"]]
            "https://e.com/index.xml"
            ["https://e.com/sitemap.xml"; "https://e.com/sitemap_index.xml";
             "https://e.com/sitemap-index.xml"; "https://e.com/sitemap.xml.gz"]
            ["https://e.com/"; "https://e.com/about"; "https://e.com/"; "https://other.org/x"]
            [Request "https://e.com/index.xml"; Request "https://e.com/a.xml";
             Request "https://e.com/b.xml.gz"; Request "https://e.com/c.xml"]).
  - reflexivity.
  - repeat constructor.
  - reflexivity.
  - discriminate.
Defined.

(** ** Fallback crawler *)

Section Crawler.

Context (lib : Lib) (net : Net).

Lemma same_host_eq (a b : string) :
  same_host lib a b =
    match urlparse lib a, urlparse lib b with
    | Raise e, _ => Raise e
    | Ok _, Raise e => Raise e
    | Ok _, Ok _ => Ok (bool_decide (same_authority a b))
    end.
Proof.
  unfold same_host, same_authority.
  destruct (urlparse lib a) as [pa|e] eqn:Ea; [|done].
  destruct (urlparse lib b) as [pb|e] eqn:Eb; [|done].
  apply urlparse_Ok in Ea as [-> _]. by apply urlparse_Ok in Eb as [-> _].
Qed.

Lemma same_host_Ok_true (a b : string) :
  same_host lib a b = Ok true →
  same_authority a b
  ∧ urlparse lib a = Ok (url_fields a) ∧ urlparse lib b = Ok (url_fields b).
Proof.
  rewrite same_host_eq.
  destruct (urlparse lib a) as [pa|e] eqn:Ea; [|done].
  destruct (urlparse lib b) as [pb|e] eqn:Eb; [|done].
  intros [= H%bool_decide_eq_true].
  apply urlparse_Ok in Ea as [-> _]. by apply urlparse_Ok in Eb as [-> _].
Qed.

Lemma same_host_refl (u : string) (p : ParseResult) :
  urlparse lib u = Ok p → same_host lib u u = Ok true.
Proof. intros H. rewrite same_host_eq, H. by rewrite bool_decide_eq_true_2. Qed.

Lemma own_host_same_authority (base_url u : string) :
  own_host lib base_url u → same_authority u base_url.
Proof. intros [->|H]; [done|]. by apply same_host_Ok_true in H as [? _]. Qed.

Lemma own_host_same_host (base_url u : string) (p : ParseResult) :
  urlparse lib base_url = Ok p → own_host lib base_url u →
  same_host lib u base_url = Ok true.
Proof. intros Hp [->|H]; [by eapply same_host_refl|done]. Qed.

Lemma link_step_Ok (page_url base_url : string) (links : list string) (href : string)
  (links' : list string) :
  link_step lib page_url base_url links href = Ok links' →
  links' = links
  ∨ ∃ u, links' = links ++ [u]
         ∧ same_host lib u base_url = Ok true
         ∧ scheme (url_fields u) ∈ ["http"; "https"].
Proof.
  unfold link_step.
  destruct (Str.nonempty (Str.strip href)); cbn [negb]; [|intros [= <-]; by left].
  destruct (urljoin lib page_url (Str.strip href)) as [a|e]; [|done].
  cbn [mbind result_bind].
  destruct (urldefrag lib a) as [a'|e]; [|done].
  cbn [mbind result_bind].
  destruct (same_host lib a' base_url) as [[|]|e] eqn:Eh; [| |done];
    cbn [mbind result_bind negb]; [|intros [= <-]; by left].
  destruct (urlparse lib a') as [p|e] eqn:Ep; [|done].
  cbn [mbind result_bind].
  apply urlparse_Ok in Ep as [-> _].
  case_bool_decide; cbn [negb]; intros [= <-]; [right; eauto | by left].
Qed.

Lemma link_step_fold (page_url base_url : string) (hrefs : list string) :
  ∀ links found,
    fold_result (link_step lib page_url base_url) hrefs links = Ok found →
    Forall (λ u, same_host lib u base_url = Ok true
                 ∧ scheme (url_fields u) ∈ ["http"; "https"]) links →
    Forall (λ u, same_host lib u base_url = Ok true
                 ∧ scheme (url_fields u) ∈ ["http"; "https"]) found.
Proof.
  induction hrefs as [|h hrefs IH]; intros links found H Hl.
  { by injection H as <-. }
  cbn [fold_result] in H.
  destruct (link_step lib page_url base_url links h) as [links'|e] eqn:E; [|done].
  cbn [mbind result_bind] in H. apply (IH _ _ H).
  apply link_step_Ok in E as [->|(u & -> & Hu & Hs)]; [done|].
  apply Forall_app. split; [done|]. by constructor.
Qed.

Lemma extract_internal_links_same_host (html page_url base_url : string)
  (found : list string) :
  extract_internal_links lib html page_url base_url = Ok found →
  Forall (λ u, same_host lib u base_url = Ok true
               ∧ scheme (url_fields u) ∈ ["http"; "https"]) found.
Proof. unfold extract_internal_links. intros H. by eapply link_step_fold. Qed.

Lemma enqueue_fold (P : string → Prop) (visited : gset string) (found : list string) :
  Forall P found → ∀ queue, Forall P queue →
  Forall P (fold_left (enqueue visited) found queue).
Proof.
  induction 1 as [|u found Hu _ IH]; intros queue Hq; [done|].
  cbn [fold_left]. apply IH. unfold enqueue.
  case_bool_decide; [done|]. apply Forall_app. by split; [|constructor].
Qed.

Lemma next_queue_own_host (base_url url : string) (queue queue' : list string)
  (visited : gset string) :
  next_queue lib net base_url url queue visited = Ok queue' →
  Forall (own_host lib base_url) queue →
  Forall (own_host lib base_url) queue'.
Proof.
  intros H Hq. unfold next_queue in H.
  destruct (page_goto net url) as [html|]; [|by injection H as <-].
  destruct (is_probably_cloudflare_block html); [by injection H as <-|].
  destruct (extract_internal_links lib html url base_url) as [found|e] eqn:E; [|done].
  injection H as <-. apply enqueue_fold; [|done].
  eapply Forall_impl; [by eapply extract_internal_links_same_host|].
  intros u [? _]. by right.
Qed.

Lemma crawl_loop_S (fuel : nat) (base_url : string) (limit : Z)
  (queue : list string) (visited : gset string) :
  crawl_loop lib net (S fuel) base_url limit queue visited =
    match queue with
    | [] => Some (Ok visited, [])
    | url :: queue =>
        if bool_decide (limit ≤ Z.of_nat (size visited)) then Some (Ok visited, [])
        else if bool_decide (url ∈ visited)
        then crawl_loop lib net fuel base_url limit queue visited
        else
          match next_queue lib net base_url url queue ({[url]} ∪ visited) with
          | Raise e => Some (Raise e, [Goto url])
          | Ok queue' =>
              match crawl_loop lib net fuel base_url limit queue' ({[url]} ∪ visited) with
              | Some (r, log) => Some (r, Goto url :: log)
              | None => None
              end
          end
    end.
Proof.
  cbn [crawl_loop]. destruct queue as [|url queue]; [done|].
  destruct (Z.ltb_spec (Z.of_nat (size visited)) limit) as [Hlt|Hge]; cbn [negb].
  - rewrite (bool_decide_eq_false_2 (limit ≤ _)) by lia.
    case_bool_decide; [done|].
    unfold next_queue, mbind at 1, M_bind, emit.
    destruct (page_goto net url) as [html|].
    + destruct (is_probably_cloudflare_block html).
      * by destruct (crawl_loop _ _ _ _ _ _ _) as [[[v|e] log]|].
      * destruct (extract_internal_links lib html url base_url) as [found|e]; [|done].
        cbn [lift mbind M_bind result_bind app].
        by destruct (crawl_loop _ _ _ _ _ _ _) as [[[v|e] log]|].
    + by destruct (crawl_loop _ _ _ _ _ _ _) as [[[v|e] log]|].
  - by rewrite bool_decide_eq_true_2 by lia.
Qed.

Lemma size_add (url : string) (visited : gset string) :
  url ∉ visited → size ({[url]} ∪ visited) = S (size visited).
Proof.
  intros H. rewrite size_union by set_solver. by rewrite size_singleton.
Qed.

(** What a finished crawl loop has done, whether it returned or raised: it
    navigated to the URLs [new], one after the other, each of them new and
    from the queue or a page, and the visited set grew by exactly these. *)
Lemma crawl_loop_inv (base_url : string) (limit : Z) (fuel : nat) :
  ∀ queue visited r log,
    crawl_loop lib net fuel base_url limit queue visited = Some (r, log) →
    Forall (own_host lib base_url) queue →
    ∃ new,
      log = (Goto <$> new) ∧ NoDup new
      ∧ Forall (λ u, (u ∉ visited) ∧ own_host lib base_url u) new
      ∧ Z.of_nat (size (list_to_set new ∪ visited))
        ≤ Z.max (Z.of_nat (size visited)) limit
      ∧ ∀ v, r = Ok v → v = list_to_set new ∪ visited.
Proof.
  induction fuel as [|fuel IH]; intros queue visited r log H Hq; [done|].
  rewrite crawl_loop_S in H.
  assert (Hnil : Some (Ok visited, []) = Some (r, log) →
    ∃ new, log = Goto <$> new ∧ NoDup new
      ∧ Forall (λ u, (u ∉ visited) ∧ own_host lib base_url u) new
      ∧ Z.of_nat (size (list_to_set new ∪ visited))
        ≤ Z.max (Z.of_nat (size visited)) limit
      ∧ ∀ v, r = Ok v → v = list_to_set new ∪ visited).
  { intros [= <- <-]. exists []. split; [done|]. split; [constructor|].
    split; [done|]. cbn [list_to_set foldr].
    replace (∅ ∪ visited) with visited by set_solver.
    split; [lia|]. by intros v [= <-]. }
  destruct queue as [|url queue]; [by apply Hnil|].
  apply Forall_cons in Hq as [Hurl Hq].
  case_bool_decide as Hlim; [by apply Hnil|].
  case_bool_decide as Hvis.
  { by apply IH in H. }
  destruct (next_queue _ _ _ _ _ _) as [queue'|e] eqn:En.
  - destruct (crawl_loop _ _ _ _ _ _ _) as [[r' log']|] eqn:E; [|done].
    injection H as <- <-.
    apply IH in E as (new & -> & Hnd & Hnew & Hsize & Hv);
      [|by eapply next_queue_own_host].
    rewrite size_add in Hsize by done.
    rewrite Forall_forall in Hnew.
    assert (Hset : list_to_set (url :: new) ∪ visited
                   = (list_to_set new ∪ ({[url]} ∪ visited) : gset string))
      by set_solver.
    exists (url :: new). rewrite Hset.
    split; [done|]. split; [|split; [|split]].
    + constructor; [|done]. intros Hin. apply Hnew in Hin as [Hin _]. set_solver.
    + constructor; [done|]. apply Forall_forall. intros u Hu.
      apply Hnew in Hu as [? ?]. split; [set_solver|done].
    + lia.
    + done.
  - injection H as <- <-. exists [url]. split; [done|].
    split; [apply NoDup_singleton|]. split; [by constructor|].
    split; [|done].
    assert (Hset : list_to_set [url] ∪ visited = ({[url]} ∪ visited : gset string))
      by set_solver.
    rewrite Hset, size_add by done. lia.
Qed.

Lemma crawl_loop_total (base_url : string) (limit : Z) (budget : nat) :
  ∀ visited, (Z.to_nat (limit - Z.of_nat (size visited)) ≤ budget)%nat →
  ∀ queue, ∃ fuel r, crawl_loop lib net fuel base_url limit queue visited = Some r.
Proof.
  induction budget as [|budget IHb]; intros visited Hb queue.
  - exists 1%nat. rewrite crawl_loop_S. destruct queue as [|url queue]; [by eexists|].
    rewrite bool_decide_eq_true_2 by lia. by eexists.
  - induction queue as [|url queue IHq].
    + exists 1%nat. rewrite crawl_loop_S. by eexists.
    + destruct (decide (limit ≤ Z.of_nat (size visited))) as [Hlim|Hlim].
      { exists 1%nat. rewrite crawl_loop_S, bool_decide_eq_true_2 by done. by eexists. }
      destruct (decide (url ∈ visited)) as [Hvis|Hvis].
      { destruct IHq as (fuel & r & H). exists (S fuel), r.
        by rewrite crawl_loop_S, bool_decide_eq_false_2, bool_decide_eq_true_2. }
      destruct (next_queue lib net base_url url queue ({[url]} ∪ visited))
        as [queue'|e] eqn:En.
      * destruct (IHb ({[url]} ∪ visited)) with (queue := queue')
          as (fuel & [r log] & H).
        { rewrite size_add by done. lia. }
        exists (S fuel). rewrite crawl_loop_S, !bool_decide_eq_false_2 by done.
        rewrite En, H. by eexists.
      * exists 1%nat. rewrite crawl_loop_S, !bool_decide_eq_false_2 by done.
        rewrite En. by eexists.
Qed.

Lemma fallback_crawl_internal_eq (fuel : nat) (base_url : string) (limit : Z) :
  fallback_crawl_internal lib net fuel base_url limit =
    match crawl_loop lib net fuel base_url limit [base_url] ∅ with
    | Some (Ok v, log) => Some (Ok (elements v), log)
    | Some (Raise e, log) => Some (Raise e, log)
    | None => None
    end.
Proof.
  unfold fallback_crawl_internal, mbind, M_bind, mret, M_ret.
  destruct (crawl_loop _ _ _ _ _ _ _) as [[[v|e] log]|]; [|done|done].
  by rewrite app_nil_r.
Qed.

Lemma fallback_crawl_internal_total (base_url : string) (limit : Z) :
  ∃ fuel r, fallback_crawl_internal lib net fuel base_url limit = Some r.
Proof.
  destruct (crawl_loop_total base_url limit _ ∅ (Nat.le_refl _) [base_url])
    as (fuel & [[v|e] log] & H);
    exists fuel; rewrite fallback_crawl_internal_eq, H; by eexists.
Qed.

(** What a finished crawl has done: it navigated to the URLs [new], each
    once, and when it returns, it returns these. *)
Lemma fallback_crawl_internal_inv (fuel : nat) (base_url : string) (limit : Z)
  (r : result (list string)) (log : list event) :
  fallback_crawl_internal lib net fuel base_url limit = Some (r, log) →
  ∃ new,
    log = (Goto <$> new) ∧ NoDup new
    ∧ Forall (own_host lib base_url) new
    ∧ Z.of_nat (length new) ≤ Z.max 0 limit
    ∧ ∀ urls, r = Ok urls → urls ≡ₚ new.
Proof.
  rewrite fallback_crawl_internal_eq.
  destruct (crawl_loop _ _ _ _ _ _ _) as [[r' log']|] eqn:E; [|done].
  apply crawl_loop_inv in E as (new & -> & Hnd & Hnew & Hsize & Hv).
  2:{ constructor; [by left | constructor]. }
  assert (Hn : list_to_set new ∪ ∅ = (list_to_set new : gset string)) by set_solver.
  rewrite Hn in *. rewrite size_list_to_set, size_empty in Hsize by done.
  intros Hr. exists new.
  assert (log = Goto <$> new) as ->.
  { destruct r' as [v|e]; by injection Hr as <- <-. }
  split; [done|]. split; [done|]. split; [|split].
  - eapply Forall_impl; [done|]. by intros u [_ ?].
  - lia.
  - intros urls ->. destruct r' as [v|e]; [|done]. injection Hr as <-.
    rewrite (Hv v eq_refl). by apply elements_list_to_set.
Qed.

Lemma crawl_loop_base (fuel : nat) (base_url : string) (limit : Z) (v : gset string)
  (log : list event) :
  1 ≤ limit →
  crawl_loop lib net fuel base_url limit [base_url] ∅ = Some (Ok v, log) →
  base_url ∈ v
  ∧ (next_queue lib net base_url base_url [] ({[base_url]} ∪ ∅) = Ok [] →
     v = {[base_url]} ∧ log = [Goto base_url]).
Proof.
  intros Hlimit H. destruct fuel as [|fuel]; [done|].
  rewrite crawl_loop_S, size_empty in H.
  rewrite bool_decide_eq_false_2 in H by lia.
  rewrite bool_decide_eq_false_2 in H by set_solver.
  destruct (next_queue _ _ _ _ _ _) as [queue'|e] eqn:En; [|done].
  destruct (crawl_loop _ _ _ _ _ _ _) as [[r' log']|] eqn:E; [|done].
  injection H as -> <-. split.
  - apply crawl_loop_inv in E as (new & _ & _ & _ & _ & Hv).
    + rewrite (Hv v eq_refl). set_solver.
    + eapply next_queue_own_host; [done|constructor].
  - intros [= ->]. destruct fuel as [|fuel]; [done|].
    rewrite crawl_loop_S in E. injection E as <- <-. split; [set_solver|done].
Qed.

(** A base page that cannot be reached, or is blocked: the crawl returns the
    base URL alone. *)
Lemma fallback_crawl_internal_base_only (fuel : nat) (base_url : string) (limit : Z) :
  1 ≤ limit →
  page_goto net base_url = None
  ∨ (∃ html, page_goto net base_url = Some html
             ∧ is_probably_cloudflare_block html = true) →
  fallback_crawl_internal lib net (S (S fuel)) base_url limit
  = Some (Ok [base_url], [Goto base_url]).
Proof.
  intros Hlimit Hpage. rewrite fallback_crawl_internal_eq.
  rewrite crawl_loop_S, size_empty.
  rewrite bool_decide_eq_false_2 by lia.
  rewrite bool_decide_eq_false_2 by set_solver.
  assert (next_queue lib net base_url base_url [] ({[base_url]} ∪ ∅) = Ok []) as ->.
  { unfold next_queue. by destruct Hpage as [->|(html & -> & ->)]. }
  rewrite crawl_loop_S. rewrite (right_id_L ∅ (∪)). by rewrite elements_singleton.
Qed.

Lemma filter_result_all_true {A} (p : A → result bool) (l : list A) :
  Forall (λ x, p x = Ok true) l → filter_result p l = Ok l.
Proof.
  induction 1 as [|x l Hx _ IH]; [done|].
  cbn [filter_result]. by rewrite Hx, IH.
Qed.

Lemma sorted_set_length (urls : list string) :
  NoDup urls → length (sorted_set urls) = length urls.
Proof.
  intros Hnd. unfold sorted_set.
  rewrite merge_sort_Permutation. by rewrite elements_list_to_set.
Qed.

End Crawler.

(** C4: the crawl always ends. Every URL it returns has the authority of the
    base URL, letter case apart (and is accepted by [same_host] where the
    base URL can be parsed); it returns, and navigates to, at most [limit]
    URLs (none when [limit] is not positive), however many links the pages
    hold, also when taking the links from a page raises an exception; and
    the links taken from a page are all accepted by [same_host] and have the
    scheme [http] or [https]. *)
Theorem fallback_crawl_internal_bounded (lib : Lib) (net : Net)
  (base_url : string) (limit : Z) :
  (∃ fuel r, fallback_crawl_internal lib net fuel base_url limit = Some r)
  ∧ (∀ fuel r log,
       fallback_crawl_internal lib net fuel base_url limit = Some (r, log) →
       (∃ visits,
          log = (Goto <$> visits)
          ∧ Z.of_nat (length visits) ≤ Z.max 0 limit
          ∧ Forall (λ u, same_authority u base_url) visits)
       ∧ ∀ urls,
           r = Ok urls →
           (∀ u, u ∈ urls →
                 same_authority u base_url
                 ∧ ∀ parsed, urlparse lib base_url = Ok parsed →
                             same_host lib u base_url = Ok true)
           ∧ Z.of_nat (length urls) ≤ Z.max 0 limit)
  ∧ (∀ html page_url found,
       extract_internal_links lib html page_url base_url = Ok found →
       Forall (λ u, same_host lib u base_url = Ok true
                    ∧ ∃ parsed, urlparse lib u = Ok parsed
                                ∧ scheme parsed ∈ ["http"; "https"]) found).
Proof.
  split; [apply fallback_crawl_internal_total|]. split.
  - intros fuel r log H.
    apply fallback_crawl_internal_inv in H as (new & -> & Hnd & Hh & Hlen & Hr).
    split.
    + exists new. split; [done|]. split; [done|].
      eapply Forall_impl; [done|]. apply own_host_same_authority.
    + intros urls ->. specialize (Hr urls eq_refl).
      rewrite Forall_forall in Hh. split.
      * intros u Hu. rewrite Hr in Hu. apply Hh in Hu. split.
        -- by apply (own_host_same_authority lib).
        -- intros parsed Hp. by eapply own_host_same_host.
      * by rewrite Hr.
  - intros html page_url found H.
    eapply Forall_impl; [by eapply extract_internal_links_same_host|].
    intros u [Hu Hs]. split; [done|].
    exists (url_fields u). split; [|done]. by apply same_host_Ok_true in Hu as (_ & ? & _).
Qed.

(** The sample site under a limit of two: a third page is linked and left out. *)
Lemma fallback_crawl_internal_bounded_witness :
  fallback_crawl_internal Demo.lib Demo.net 3 "https://e.com/" 2
  = Some (Ok ["https://e.com/about"; "https://e.com/"],
          [Goto "https://e.com/"; Goto "https://e.com/about"])
  ∧ urlparse Demo.lib "https://e.com/" = Ok (url_fields "https://e.com/")
  ∧ (∀ u, u ∈ ["https://e.com/about"; "https://e.com/"] →
          same_host Demo.lib u "https://e.com/" = Ok true)
  ∧ Z.of_nat (length ["https://e.com/about"; "https://e.com/"]) ≤ Z.max 0 2.
Proof.
  assert (E : fallback_crawl_internal Demo.lib Demo.net 3 "https://e.com/" 2
              = Some (Ok ["https://e.com/about"; "https://e.com/"],
                      [Goto "https://e.com/"; Goto "https://e.com/about"]))
    by (vm_compute; reflexivity).
  assert (P : urlparse Demo.lib "https://e.com/" = Ok (url_fields "https://e.com/"))
    by reflexivity.
  split; [exact E|]. split; [exact P|].
  destruct (fallback_crawl_internal_bounded Demo.lib Demo.net "https://e.com/" 2)
    as (_ & H & _).
  destruct (H _ _ _ E) as (_ & Hr).
  destruct (Hr _ eq_refl) as (Hhost & Hlen).
  split; [|exact Hlen].
  intros u Hu. destruct (Hhost u Hu) as [_ Hs]. exact (Hs _ P).
Defined.

(** C10: the crawl navigates only to URLs it has marked as visited, so the
    list it returns holds exactly the URLs it navigated to, whatever became of
    the navigation; for a limit of one or more the base URL is among them;
    when the base page cannot be reached or is blocked the crawl returns the
    base URL alone; and every returned URL is counted by the orchestrator,
    whose filter, deduplication and sorting keep the length. *)
Theorem fallback_crawl_internal_keeps_visited (lib : Lib) (net : Net)
  (base_url : string) (limit : Z) :
  (∃ fuel r, fallback_crawl_internal lib net fuel base_url limit = Some r)
  ∧ (1 ≤ limit →
     page_goto net base_url = None
     ∨ (∃ html, page_goto net base_url = Some html
                ∧ is_probably_cloudflare_block html = true) →
     ∀ fuel, fallback_crawl_internal lib net (S (S fuel)) base_url limit
             = Some (Ok [base_url], [Goto base_url]))
  ∧ ∀ fuel urls log,
      fallback_crawl_internal lib net fuel base_url limit = Some (Ok urls, log) →
      (∀ e, e ∈ log → ∃ u, e = Goto u)
      ∧ (∀ u, Goto u ∈ log ↔ u ∈ urls)
      ∧ (1 ≤ limit → base_url ∈ urls)
      ∧ (1 ≤ limit →
         page_goto net base_url = None
         ∨ (∃ html, page_goto net base_url = Some html
                    ∧ is_probably_cloudflare_block html = true) →
         urls = [base_url] ∧ log = [Goto base_url])
      ∧ (∀ parsed, urlparse lib base_url = Ok parsed →
         filter_result (λ u, same_host lib u base_url) urls = Ok urls
         ∧ length (sorted_set urls) = length urls).
Proof.
  split; [apply fallback_crawl_internal_total|]. split.
  { intros Hlimit Hpage fuel. by apply fallback_crawl_internal_base_only. }
  intros fuel urls log H.
  pose proof (fallback_crawl_internal_inv lib net _ _ _ _ _ H)
    as (new & Hlog & Hnd & Hh & _ & Hp).
  specialize (Hp urls eq_refl).
  rewrite fallback_crawl_internal_eq in H.
  destruct (crawl_loop _ _ _ _ _ _ _) as [[[v|e] log']|] eqn:E; [|done|done].
  injection H as <- <-.
  split; [|split; [|split; [|split]]].
  - intros e He. rewrite Hlog in He. apply list_elem_of_fmap in He as (u & -> & _).
    by exists u.
  - intros u. rewrite Hlog, Hp. split.
    + intros (u' & [= ->] & Hu)%list_elem_of_fmap. done.
    + intros Hu. apply list_elem_of_fmap. by exists u.
  - intros Hlimit. apply elem_of_elements.
    by destruct (crawl_loop_base lib net _ _ _ _ _ Hlimit E).
  - intros Hlimit Hpage.
    destruct (crawl_loop_base lib net _ _ _ _ _ Hlimit E) as [_ Hq].
    destruct Hq as [-> ->].
    { unfold next_queue. destruct Hpage as [->|(html & -> & ->)]; done. }
    by rewrite elements_singleton.
  - intros parsed Hparsed. split.
    + apply filter_result_all_true, Forall_forall. intros u Hu. rewrite Hp in Hu.
      rewrite Forall_forall in Hh. eapply own_host_same_host; [done|]. by apply Hh.
    + apply sorted_set_length, NoDup_elements.
Qed.

(** A site that answers nothing still yields its base URL. *)
Lemma fallback_crawl_internal_keeps_visited_witness :
  1 ≤ 2000 ∧ page_goto Demo.offline "https://e.com/" = None
  ∧ fallback_crawl_internal Demo.lib Demo.offline 2 "https://e.com/" 2000
    = Some (Ok ["https://e.com/"], [Goto "https://e.com/"])
  ∧ "https://e.com/" ∈ ["https://e.com/"].
Proof.
  split; [lia|]. split; [reflexivity|].
  destruct (fallback_crawl_internal_keeps_visited Demo.lib Demo.offline "https://e.com/" 2000)
    as (_ & Hoff & H).
  assert (E := Hoff ltac:(lia) (or_introl eq_refl) 0%nat).
  split; [exact E|].
  destruct (H _ _ _ E) as (_ & _ & Hbase & _). apply Hbase. lia.
Defined.


(** ** Word-count analyzer *)

Section WordCount.

Lemma PageElement_ind' (P : Soup.PageElement → Prop) :
  (∀ name attrs contents, Forall P contents → P (Soup.Tag name attrs contents)) →
  (∀ cls s, P (Soup.NavigableString cls s)) →
  ∀ e, P e.
Proof.
  intros Htag Hstr. fix IH 1. intros [name attrs contents|cls s]; [|apply Hstr].
  apply Htag. induction contents as [|c cs IHcs]; constructor; [apply IH | exact IHcs].
Qed.

Lemma flat_map_flat_map {A B C} (f : B → list C) (g : A → list B) (l : list A) :
  flat_map f (flat_map g l) = flat_map (λ x, flat_map f (g x)) l.
Proof.
  induction l as [|x l IH]; [done|]. simpl. by rewrite flat_map_app, IH.
Qed.

Lemma flat_map_ext_Forall {A B} (f g : A → list B) (l : list A) :
  Forall (λ x, f x = g x) l → flat_map f l = flat_map g l.
Proof. induction 1 as [|x l Hx _ IH]; [done|]. simpl. by rewrite Hx, IH. Qed.

Lemma strings_decompose (names : list string) (e : Soup.PageElement) :
  flat_map Soup.strings (Soup.decompose names e) = visible_strings names e.
Proof.
  induction e as [name attrs contents IH|cls s] using PageElement_ind'.
  - simpl. case_bool_decide; [done|]. simpl. rewrite app_nil_r.
    rewrite flat_map_flat_map. by apply flat_map_ext_Forall.
  - simpl. destruct cls; simpl; by rewrite ?app_nil_r.
Qed.

Lemma get_text_decompose (names : list string) (sep : string)
  (soup : list Soup.PageElement) :
  Soup.get_text sep (flat_map (Soup.decompose names) soup)
  = String.concat sep (flat_map (visible_strings names) soup).
Proof.
  unfold Soup.get_text. f_equal. rewrite flat_map_flat_map.
  apply flat_map_ext_Forall, Forall_forall. intros e _. apply strings_decompose.
Qed.

Lemma match_plus_greedy (cls : ascii → bool) (s : string) :
  Re.match_plus cls s (λ _ rest, Some rest) =
    match s with
    | String c r => if cls c then Some (Str.lstrip_by cls r) else None
    | EmptyString => None
    end.
Proof.
  induction s as [|c r IH]; [done|]. simpl.
  destruct (cls c); [|done]. rewrite IH.
  destruct r as [|d r']; [done|]. simpl. by destruct (cls d).
Qed.

Lemma lstrip_by_length (cls : ascii → bool) (s : string) :
  (String.length (Str.lstrip_by cls s) ≤ String.length s)%nat.
Proof.
  induction s as [|c r IH]; simpl; [lia|]. destruct (cls c); simpl; lia.
Qed.

Lemma sub_go_skip (repl : string) (s : string) :
  ∀ prev,
    Re.sub_go whitespace_run repl prev s (leading Str.isspace s)
    = Re.sub_go whitespace_run repl None (Str.lstrip_by Str.isspace s) 0.
Proof.
  induction s as [|c r IH]; intros prev; [done|].
  unfold leading. simpl Str.lstrip_by. destruct (Str.isspace c) eqn:Ec.
  - pose proof (lstrip_by_length Str.isspace r).
    replace (String.length (String c r) - String.length (Str.lstrip_by Str.isspace r))%nat
      with (S (leading Str.isspace r)) by (unfold leading; simpl; lia).
    simpl. apply IH.
  - rewrite Nat.sub_diag. by destruct prev.
Qed.

Lemma collapse_ws_cons (c : ascii) (r : string) :
  collapse_ws (String c r) =
    if Str.isspace c then
      match r with
      | String d _ =>
          if Str.isspace d then collapse_ws r else String " " (collapse_ws r)
      | EmptyString => String " " EmptyString
      end
    else String c (collapse_ws r).
Proof. done. Qed.

Lemma collapse_ws_space (c : ascii) (r : string) :
  Str.isspace c = true →
  collapse_ws (String c r) = String " " (collapse_ws (Str.lstrip_by Str.isspace r)).
Proof.
  revert c. induction r as [|d r IH]; intros c Hc.
  - rewrite collapse_ws_cons, Hc. done.
  - rewrite collapse_ws_cons, Hc. cbn [Str.lstrip_by].
    destruct (Str.isspace d) eqn:Ed; [|done]. by apply IH.
Qed.

Lemma sub_whitespace_run_go (n : nat) :
  ∀ s prev, (String.length s ≤ n)%nat →
    Re.sub_go whitespace_run " " prev s 0 = collapse_ws s.
Proof.
  induction n as [|n IH]; intros s prev Hlen.
  - destruct s; [done|simpl in Hlen; lia].
  - destruct s as [|c r]; [done|].
    cbn [Re.sub_go]. unfold Re.match_here, whitespace_run. cbn [Re.match_at].
    rewrite match_plus_greedy. destruct (Str.isspace c) eqn:Ec.
    + rewrite collapse_ws_space by done.
      change (" " +:+ ?x) with (String " " x). f_equal.
      pose proof (lstrip_by_length Str.isspace r).
      replace (String.length (String c r) - String.length (Str.lstrip_by Str.isspace r) - 1)%nat
        with (leading Str.isspace r) by (unfold leading; simpl; lia).
      change (Re.Plus Str.isspace) with whitespace_run.
      rewrite sub_go_skip. apply IH. simpl in Hlen. lia.
    + rewrite collapse_ws_cons, Ec. f_equal.
      change (Re.Plus Str.isspace) with whitespace_run.
      apply IH. simpl in Hlen. lia.
Qed.

Lemma sub_whitespace_run (s : string) :
  Re.sub whitespace_run " " s = collapse_ws s.
Proof. by apply (sub_whitespace_run_go (String.length s)). Qed.

Lemma word_char_alphabet (c : ascii) :
  word_char c = claimed_word_char c || other_word_char c.
Proof. destruct c as [[] [] [] [] [] [] [] []]; reflexivity. Qed.

Lemma word_count_from_html_eq (lib : Lib) (html : string) :
  word_count_from_html lib html =
    let text :=
      Str.strip (collapse_ws (String.concat " "
        (flat_map (visible_strings ["script"; "style"; "noscript"])
           (BeautifulSoup lib html)))) in
    match text with
    | EmptyString => 0
    | _ => Z.of_nat (length (Re.findall word_pattern text))
    end.
Proof.
  unfold word_count_from_html.
  rewrite get_text_decompose, sub_whitespace_run. cbv zeta.
  by destruct (Str.strip _).
Qed.

End WordCount.

(** C8, the case the specification gets wrong: the micro sign is a word
    character for [\\w], so a page whose text is that sign alone counts one
    word, although the text holds no character of the alphabet the
    specification names. *)
Lemma word_count_micro_sign :
  word_count_from_html Demo.lib Demo.micro_html = 1
  ∧ Str.all (λ c, negb (claimed_word_char c))
      (Soup.get_text " " (BeautifulSoup Demo.lib Demo.micro_html)) = true.
Proof. split; reflexivity. Qed.

(** C8, as the code has it: the count is taken on the text of the strings
    outside the [script], [style] and [noscript] subtrees, joined by spaces,
    with every run of whitespace collapsed to one space and the ends trimmed;
    it is 0 when that text is empty and the number of matches of the word
    pattern otherwise. The class of the pattern holds, on U+0000..U+00FF, the
    ASCII letters, the digits, the underscore, the range from U+00C0 to
    U+00FF and the other word characters of [\\w]. The page
    [<html><script>ignore me entirely</script><body>Hello world</body></html>]
    counts 2 and a page with an empty body counts 0. *)
Theorem word_count_from_html_spec (lib : Lib) (html : string) :
  let text :=
    Str.strip (collapse_ws (String.concat " "
      (flat_map (visible_strings ["script"; "style"; "noscript"])
         (BeautifulSoup lib html)))) in
  word_count_from_html lib html
  = match text with
    | EmptyString => 0
    | _ => Z.of_nat (length (Re.findall word_pattern text))
    end
  ∧ (text = EmptyString → word_count_from_html lib html = 0)
  ∧ (∀ c, word_char c = claimed_word_char c || other_word_char c)
  ∧ (∀ cls, BeautifulSoup lib html = hello_tree cls → word_count_from_html lib html = 2)
  ∧ (BeautifulSoup lib html = page [] [] → word_count_from_html lib html = 0).
Proof.
  intros text. subst text. rewrite word_count_from_html_eq. cbv zeta.
  split; [done|]. split; [by intros ->|]. split; [apply word_char_alphabet|]. split.
  - intros cls ->. by destruct cls.
  - by intros ->.
Qed.

(** The page of the specification, as the sample site serves it. *)
Lemma word_count_from_html_spec_witness :
  BeautifulSoup Demo.lib Demo.hello_html = hello_tree Soup.Special
  ∧ word_count_from_html Demo.lib Demo.hello_html = 2.
Proof.
  split; [reflexivity|].
  destruct (word_count_from_html_spec Demo.lib Demo.hello_html) as (_ & _ & _ & H & _).
  apply (H Soup.Special). reflexivity.
Defined.

(** ** Sampling *)

Section Sampling.

Context {F : Type} {float_ops : FloatOps F} (lib : Lib) (net : Net).

Lemma sample_step_eq (counts : list Z) (u : string) :
  sample_step lib net counts u
  = Some (Ok (counts ++ option_list (usable_count lib net u)), [Goto u]).
Proof.
  unfold sample_step, usable_count, mbind, M_bind, emit, mret, M_ret.
  destruct (page_goto net u) as [html|]; [|simpl; by rewrite !app_nil_r].
  destruct (is_probably_cloudflare_block html); [simpl; by rewrite !app_nil_r|].
  destruct (Z.ltb_spec 0 (word_count_from_html lib html)).
  - by rewrite bool_decide_eq_true_2.
  - rewrite bool_decide_eq_false_2 by lia. simpl. by rewrite !app_nil_r.
Qed.

Lemma sample_loop_eq (sample : list string) :
  ∀ counts,
    for_each sample (sample_step lib net) counts
    = Some (Ok (counts ++ omap (usable_count lib net) sample), Goto <$> sample).
Proof.
  induction sample as [|u sample IH]; intros counts.
  - simpl. unfold mret, M_ret. by rewrite app_nil_r.
  - cbn [for_each]. unfold mbind, M_bind. rewrite sample_step_eq, IH.
    rewrite <- app_assoc. cbn [omap list_omap fmap list_fmap].
    by destruct (usable_count lib net u).
Qed.

Lemma fold_left_add (counts : list Z) (a : Z) :
  fold_left Z.add counts a = a + foldr Z.add 0 counts.
Proof.
  revert a. induction counts as [|c counts IH]; intros a; simpl; [lia|].
  rewrite IH. lia.
Qed.

Lemma sum_foldr (counts : list Z) : sum counts = foldr Z.add 0 counts.
Proof. unfold sum. by rewrite fold_left_add. Qed.

Lemma compute_average_words_eq (urls : list string) (sample_size : Z) :
  compute_average_words lib net urls sample_size
  = Some (Ok (mean (omap (usable_count lib net) (slice_to urls sample_size))),
          Goto <$> slice_to urls sample_size).
Proof.
  unfold compute_average_words, mbind, M_bind. rewrite sample_loop_eq.
  cbn [app]. unfold mean.
  destruct (omap _ _) as [|c counts]; unfold mret, M_ret; rewrite app_nil_r; [done|].
  by rewrite sum_foldr.
Qed.

End Sampling.

(** C9: [compute_average_words] navigates to the URLs of the slice
    [urls[:sample_size]], the first [sample_size] URLs of the list when the
    size is not negative, in order, and to nothing else; a page counts unless its navigation fails, it is classified
    as blocked or its word count is 0; the result is the sum of the counts
    divided by their number, both as floats, and 0.0 when no page counts, as
    when every navigation fails. The default sample size is 10. *)
Theorem compute_average_words_spec {F : Type} {float_ops : FloatOps F}
  (lib : Lib) (net : Net) (urls : list string) (sample_size : Z) :
  let sample := slice_to urls sample_size in
  compute_average_words lib net urls sample_size
  = Some (Ok (mean (omap (usable_count lib net) sample)), Goto <$> sample)
  ∧ (0 ≤ sample_size → sample = take (Z.to_nat sample_size) urls)
  ∧ (Forall (λ u, page_goto net u = None) sample →
     compute_average_words lib net urls sample_size
     = Some (Ok float_zero, Goto <$> sample))
  ∧ (omap (usable_count lib net) sample = [] →
     compute_average_words lib net urls sample_size
     = Some (Ok float_zero, Goto <$> sample))
  ∧ default_sample_size = 10.
Proof.
  intros sample. subst sample.
  rewrite compute_average_words_eq.
  split; [done|]. split; [apply slice_to_nonneg|]. split; [|split; [|done]].
  - intros Hfail. do 2 f_equal.
    induction Hfail as [|u sample Hu _ IH]; [done|].
    cbn [omap list_omap]. unfold usable_count at 1. by rewrite Hu.
  - by intros ->.
Qed.

(** Four pages of the sample site are sampled, three of them count. *)
Lemma compute_average_words_spec_witness :
  0 ≤ 4
  ∧ compute_average_words Demo.lib Demo.net
      ["https://e.com/"; "https://e.com/about"; "https://e.com/hello";
       "https://e.com/empty"; "https://e.com/x"] 4
    = Some (Ok (Demo.FDiv (Demo.FOfInt 12) (Demo.FOfInt 3)),
            [Goto "https://e.com/"; Goto "https://e.com/about";
             Goto "https://e.com/hello"; Goto "https://e.com/empty"]).
Proof.
  split; [lia|].
  destruct (compute_average_words_spec Demo.lib Demo.net
              ["https://e.com/"; "https://e.com/about"; "https://e.com/hello";
               "https://e.com/empty"; "https://e.com/x"] 4) as (H & Hs & _).
  rewrite H, Hs by lia. reflexivity.
Defined.

(** ** Orchestrator *)

Section Orchestrator.

Context {F : Type} {float_ops : FloatOps F} (lib : Lib) (net : Net).

Lemma sorted_set_spec (urls : list string) :
  Sorted String.le (sorted_set urls) ∧ NoDup (sorted_set urls)
  ∧ (∀ u, u ∈ sorted_set urls ↔ u ∈ urls)
  ∧ length (sorted_set urls) = size (list_to_set urls : gset string).
Proof.
  unfold sorted_set. split; [apply Sorted_merge_sort, _|].
  split; [rewrite merge_sort_Permutation; apply NoDup_elements|].
  split.
  - intros u. rewrite merge_sort_Permutation. set_solver.
  - by rewrite merge_sort_Permutation.
Qed.

Lemma filter_result_Ok {A} (p : A → result bool) (l kept : list A) :
  filter_result p l = Ok kept →
  kept = filter (λ x, p x = Ok true) l ∧ Forall (λ x, ∃ b, p x = Ok b) l.
Proof.
  revert kept. induction l as [|x l IH]; intros kept H.
  { by injection H as <-. }
  cbn [filter_result] in H.
  destruct (p x) as [b|e] eqn:Ex; [|done]. cbn [mbind result_bind] in H.
  destruct (filter_result p l) as [kept'|e] eqn:El; [|done].
  cbn [mbind result_bind] in H. injection H as <-.
  destruct (IH _ eq_refl) as [-> Hall]. split.
  - destruct b.
    + by rewrite filter_cons_True.
    + by rewrite filter_cons_False by (by rewrite Ex).
  - constructor; [by exists b|done].
Qed.

Lemma M_bind_Ok {A B} (m : M A) (k : A → M B) (b : B) (log : list event) :
  m ≫= k = Some (Ok b, log) →
  ∃ a l1 l2, m = Some (Ok a, l1) ∧ k a = Some (Ok b, l2) ∧ log = l1 ++ l2.
Proof.
  unfold mbind, M_bind. destruct m as [[[a|e] l1]|]; [|done|done].
  destruct (k a) as [[r l2]|] eqn:Ek; [|done].
  intros [= -> <-]. by exists a, l1, l2.
Qed.

Lemma lift_Ok {A} (r : result A) (a : A) (log : list event) :
  lift r = Some (Ok a, log) → r = Ok a ∧ log = [].
Proof. unfold lift. by intros [= -> <-]. Qed.

Lemma main_completed (fuel : nat) (argv : list string) (r : Result.t F) (log : list event) :
  main (F:=F) lib net fuel argv = Some (Ok (Completed r), log) →
  ∃ arg0 arg1 arg2 rest base_url urls average log',
    argv = arg0 :: arg1 :: arg2 :: rest
    ∧ normalize_base_url lib (Str.strip arg2) = Ok base_url
    ∧ found_by lib net fuel base_url urls
    ∧ filter_result (λ u, same_host lib u base_url) urls
      = Ok (filter (λ u, same_host lib u base_url = Ok true) urls)
    ∧ compute_average_words lib net
        (sorted_set (filter (λ u, same_host lib u base_url = Ok true) urls)) 10
      = Some (Ok average, log')
    ∧ r = {| Result.website := Str.strip arg2;
             Result.total_pages :=
               Z.of_nat (length (sorted_set
                 (filter (λ u, same_host lib u base_url = Ok true) urls)));
             Result.average_words := float_round average 2;
             Result.id := Str.strip arg1 |}.
Proof.
  unfold main. destruct argv as [|arg0 [|arg1 [|arg2 rest]]]; try done.
  intros (base_url & l0 & l0' & [Hb ->]%lift_Ok & H & ->)%M_bind_Ok.
  apply M_bind_Ok in H as ([] & lh & lh' & _ & H & ->).
  apply M_bind_Ok in H as (discovered & l1 & l1' & Hd & H & ->).
  apply M_bind_Ok in H as (urls & l2 & l2' & Hu & H & ->).
  apply M_bind_Ok in H as (kept & l3 & l3' & [Hk ->]%lift_Ok & H & ->).
  apply M_bind_Ok in H as (average & l4 & l4' & Ha & H & ->).
  injection H as <- <-.
  apply filter_result_Ok in Hk as Hk'. destruct Hk' as [-> _].
  exists arg0, arg1, arg2, rest, base_url, urls, average, l4.
  split; [done|]. split; [done|]. split; [|done].
  exists discovered, l1. split; [done|].
  destruct discovered as [|d ds]; [by exists l2|]. by injection Hu as <- <-.
Qed.

End Orchestrator.

(** C7, the case the specification gets wrong: the website of the result is
    the argument without its surrounding whitespace, not the argument as it
    was given. *)
Lemma main_website_is_trimmed :
  ∃ r log,
    main Demo.lib Demo.offline 2 ["prog"; "7"; " e.com "] = Some (Ok (Completed r), log)
    ∧ Result.website r = "e.com"
    ∧ Result.website r ≠ " e.com ".
Proof.
  eexists _, _. split; [vm_compute; reflexivity|]. split; [reflexivity|discriminate].
Qed.

(** C7, as the code has it: in a run that completes, the website of the
    result is the second argument with the surrounding whitespace removed and
    otherwise as given, not the normalized base URL; [total_pages] is the
    length of the sorted list of the distinct found URLs (those of the
    sitemaps, or of the crawl when the sitemaps give none) that have the host
    of the base URL, which is the number of these URLs; and [average_words]
    is the average over the first 10 URLs of that list, rounded to 2 digits. *)
Theorem main_assembles_result {F : Type} {float_ops : FloatOps F}
  (lib : Lib) (net : Net) (fuel : nat) (argv : list string)
  (r : Result.t F) (log : list event) :
  main lib net fuel argv = Some (Ok (Completed r), log) →
  ∃ arg0 arg1 arg2 rest base_url urls pages average log',
    argv = arg0 :: arg1 :: arg2 :: rest
    ∧ normalize_base_url lib (Str.strip arg2) = Ok base_url
    ∧ found_by lib net fuel base_url urls
    ∧ Result.website r = Str.strip arg2
    ∧ Sorted String.le pages ∧ NoDup pages
    ∧ (∀ u, u ∈ pages ↔ u ∈ urls ∧ same_host lib u base_url = Ok true)
    ∧ Result.total_pages r = Z.of_nat (length pages)
    ∧ Result.total_pages r
      = Z.of_nat (size (list_to_set
                          (filter (λ u, same_host lib u base_url = Ok true) urls)
                        : gset string))
    ∧ compute_average_words lib net pages 10 = Some (Ok average, log')
    ∧ Result.average_words r = float_round average 2.
Proof.
  intros H.
  apply main_completed in H
    as (arg0 & arg1 & arg2 & rest & base_url & urls & average & log'
        & -> & Hb & Hf & _ & Ha & ->).
  destruct (sorted_set_spec (filter (λ u, same_host lib u base_url = Ok true) urls))
    as (Hs & Hnd & Hin & Hlen).
  exists arg0, arg1, arg2, rest, base_url, urls,
    (sorted_set (filter (λ u, same_host lib u base_url = Ok true) urls)), average, log'.
  split_and!; try done.
  - intros u. rewrite Hin, list_elem_of_filter. tauto.
  - simpl. by rewrite Hlen.
Qed.

(** A run on the sample site: two of the three URLs of the sitemaps are on
    the host. *)
Lemma main_assembles_result_witness :
  main Demo.lib Demo.net 2 ["prog"; "7"; " e.com "]
  = Some (Ok (Completed
            {| Result.website := "e.com"; Result.total_pages := 2;
               Result.average_words :=
                 Demo.FRound (Demo.FDiv (Demo.FOfInt 10) (Demo.FOfInt 2)) 2;
               Result.id := "7" |}),
          [Goto "https://e.com/"; Request "https://e.com/robots.txt";
           Request "https://e.com/c.xml"; Request "https://e.com/index.xml";
           Request "https://e.com/a.xml"; Request "https://e.com/b.xml.gz";
           Request "https://e.com/c.xml";
           Goto "https://e.com/"; Goto "https://e.com/about"])
  ∧ ∃ arg0 arg1 arg2 rest base_url urls pages average log',
      ["prog"; "7"; " e.com "] = arg0 :: arg1 :: arg2 :: rest
      ∧ normalize_base_url Demo.lib (Str.strip arg2) = Ok base_url
      ∧ found_by Demo.lib Demo.net 2 base_url urls
      ∧ "e.com" = Str.strip arg2
      ∧ Sorted String.le pages ∧ NoDup pages
      ∧ (∀ u, u ∈ pages ↔ u ∈ urls ∧ same_host Demo.lib u base_url = Ok true)
      ∧ 2 = Z.of_nat (length pages)
      ∧ 2 = Z.of_nat (size (list_to_set
                              (filter (λ u, same_host Demo.lib u base_url = Ok true) urls)
                            : gset string))
      ∧ compute_average_words Demo.lib Demo.net pages 10 = Some (Ok average, log')
      ∧ Demo.FRound (Demo.FDiv (Demo.FOfInt 10) (Demo.FOfInt 2)) 2
        = float_round average 2.
Proof.
  assert (E : main Demo.lib Demo.net 2 ["prog"; "7"; " e.com "]
    = Some (Ok (Completed
              {| Result.website := "e.com"; Result.total_pages := 2;
                 Result.average_words :=
                   Demo.FRound (Demo.FDiv (Demo.FOfInt 10) (Demo.FOfInt 2)) 2;
                 Result.id := "7" |}),
            [Goto "https://e.com/"; Request "https://e.com/robots.txt";
             Request "https://e.com/c.xml"; Request "https://e.com/index.xml";
             Request "https://e.com/a.xml"; Request "https://e.com/b.xml.gz";
             Request "https://e.com/c.xml";
             Goto "https://e.com/"; Goto "https://e.com/about"]))
    by (vm_compute; reflexivity).
  split; [exact E|].
  exact (main_assembles_result Demo.lib Demo.net 2 _ _ _ E).
Defined.

(** * Further properties *)

Section Strings.

Lemma append_cons (c : ascii) (a b : string) : String c a +:+ b = String c (a +:+ b).
Proof. done. Qed.

Lemma append_nil_l (s : string) : EmptyString +:+ s = s.
Proof. done. Qed.

Lemma append_nil_r (s : string) : s +:+ EmptyString = s.
Proof. induction s as [|c s IH]; [done|]. by rewrite append_cons, IH. Qed.

Lemma append_assoc (a b c : string) : (a +:+ b) +:+ c = a +:+ (b +:+ c).
Proof. induction a as [|d a IH]; [done|]. by rewrite !append_cons, IH. Qed.

Lemma rev_app_append (s acc : string) : String.rev_app s acc = String.rev s +:+ acc.
Proof.
  unfold String.rev. revert acc. induction s as [|c s IH]; intros acc; [done|].
  simpl. rewrite (IH (String c acc)), (IH (String c EmptyString)).
  by rewrite append_assoc.
Qed.

Lemma rev_cons (c : ascii) (s : string) :
  String.rev (String c s) = String.rev s +:+ String c EmptyString.
Proof. unfold String.rev at 1. simpl. apply rev_app_append. Qed.

Lemma rev_append (a b : string) : String.rev (a +:+ b) = String.rev b +:+ String.rev a.
Proof.
  induction a as [|c a IH].
  - by rewrite append_nil_r.
  - by rewrite append_cons, !rev_cons, IH, append_assoc.
Qed.

Lemma rev_involutive (s : string) : String.rev (String.rev s) = s.
Proof.
  induction s as [|c s IH]; [done|].
  by rewrite rev_cons, rev_append, IH.
Qed.

Lemma lstrip_by_idem (p : ascii → bool) (s : string) :
  Str.lstrip_by p (Str.lstrip_by p s) = Str.lstrip_by p s.
Proof.
  induction s as [|c s IH]; [done|]. simpl.
  destruct (p c) eqn:E; [done|]. simpl. by rewrite E.
Qed.

(** Stripping on the left stops at a character that does not satisfy [p]. *)
Lemma lstrip_by_stop (p : ascii → bool) (a : string) (c : ascii) (b : string) :
  p c = false →
  ∃ x, Str.lstrip_by p (a +:+ String c b) = x +:+ String c b.
Proof.
  intros Hc. induction a as [|d a IH].
  - exists EmptyString. simpl. by rewrite Hc.
  - rewrite append_cons. simpl. destruct (p d); [done|].
    by exists (String d a).
Qed.

Lemma rstrip_by_idem (p : ascii → bool) (s : string) :
  Str.rstrip_by p (Str.rstrip_by p s) = Str.rstrip_by p s.
Proof. unfold Str.rstrip_by. by rewrite rev_involutive, lstrip_by_idem. Qed.

Lemma rstrip_by_cons (p : ascii → bool) (c : ascii) (s : string) :
  p c = false → ∃ x, Str.rstrip_by p (String c s) = String c x.
Proof.
  intros Hc. unfold Str.rstrip_by. rewrite rev_cons.
  destruct (lstrip_by_stop p (String.rev s) c EmptyString Hc) as [x ->].
  exists (String.rev x). by rewrite rev_append.
Qed.

Lemma lstrip_by_head (p : ascii → bool) (s : string) :
  Str.lstrip_by p s = EmptyString
  ∨ ∃ c r, Str.lstrip_by p s = String c r ∧ p c = false.
Proof.
  induction s as [|c s IH]; [by left|]. simpl.
  destruct (p c) eqn:E; [done|]. right. by exists c, s.
Qed.

Lemma strip_idem (s : string) : Str.strip (Str.strip s) = Str.strip s.
Proof.
  unfold Str.strip.
  destruct (lstrip_by_head Str.isspace s) as [->|(c & r & -> & Hc)]; [reflexivity|].
  destruct (rstrip_by_cons Str.isspace c r Hc) as [x Hx].
  rewrite Hx. simpl. rewrite Hc. by rewrite <- Hx, rstrip_by_idem.
Qed.

(** A trimmed string has no whitespace at either end. *)
Lemma strip_ends (s : string) :
  Str.strip s = EmptyString
  ∨ ∃ c r, Str.strip s = String c r ∧ Str.isspace c = false.
Proof.
  unfold Str.strip.
  destruct (lstrip_by_head Str.isspace s) as [->|(c & r & -> & Hc)]; [left; reflexivity|].
  destruct (rstrip_by_cons Str.isspace c r Hc) as [x ->]. right. by exists c, x.
Qed.

Lemma lower_char_idem (c : ascii) : Str.lower_char (Str.lower_char c) = Str.lower_char c.
Proof. destruct c as [[] [] [] [] [] [] [] []]; reflexivity. Qed.

Lemma lower_idem (s : string) : Str.lower (Str.lower s) = Str.lower s.
Proof. induction s as [|c s IH]; [done|]. simpl. by rewrite lower_char_idem, IH. Qed.

Lemma lower_append (a b : string) : Str.lower (a +:+ b) = Str.lower a +:+ Str.lower b.
Proof. induction a as [|c a IH]; [done|]. rewrite append_cons. simpl. by rewrite IH. Qed.

Lemma prefix_append (p s r : string) :
  String.prefix p s = true → String.prefix p (s +:+ r) = true.
Proof.
  revert s. induction p as [|c p IH]; intros s H; [by destruct (s +:+ r)|].
  destruct s as [|d s]; [by simpl in H|]. rewrite append_cons. simpl in *.
  destruct (ascii_dec c d); [|done]. by apply IH.
Qed.

Lemma contains_cons (sub : string) (c : ascii) (s : string) :
  Str.contains sub (String c s) = String.prefix sub (String c s) || Str.contains sub s.
Proof. done. Qed.

Lemma contains_append_r (sub s r : string) :
  Str.contains sub s = true → Str.contains sub (s +:+ r) = true.
Proof.
  induction s as [|c s IH].
  - destruct sub; [by destruct r|done].
  - rewrite append_cons, !contains_cons.
    intros [H|H]%orb_true_iff.
    + pose proof (prefix_append sub (String c s) r H) as H'.
      rewrite append_cons in H'. by rewrite H'.
    + rewrite (IH H). apply orb_true_r.
Qed.

Lemma contains_append_l (sub a s : string) :
  Str.contains sub s = true → Str.contains sub (a +:+ s) = true.
Proof.
  intros H. induction a as [|c a IH]; [done|].
  rewrite append_cons, contains_cons, IH. apply orb_true_r.
Qed.

Lemma lstrip_by_append (p : ascii → bool) (x : string) (c : ascii) (y : string) :
  p c = false →
  Str.lstrip_by p (x +:+ String c y) = Str.lstrip_by p x +:+ String c y.
Proof.
  intros Hc. induction x as [|d x IH].
  - simpl. by rewrite Hc.
  - rewrite append_cons. simpl. by destruct (p d).
Qed.

Lemma rstrip_by_append (p : ascii → bool) (a : string) (c : ascii) (b : string) :
  p c = false →
  Str.rstrip_by p (a +:+ String c b) = a +:+ String c (Str.rstrip_by p b).
Proof.
  intros Hc. unfold Str.rstrip_by.
  rewrite rev_append, rev_cons, append_assoc, append_cons, append_nil_l.
  rewrite lstrip_by_append by done.
  rewrite rev_append, rev_cons, rev_involutive, append_assoc, append_cons, append_nil_l.
  done.
Qed.

Lemma rstrip_by_cons_eq (p : ascii → bool) (c : ascii) (b : string) :
  p c = false → Str.rstrip_by p (String c b) = String c (Str.rstrip_by p b).
Proof. apply (rstrip_by_append p EmptyString). Qed.

Lemma lstrip_by_split (p : ascii → bool) (s : string) :
  ∃ sp, s = sp +:+ Str.lstrip_by p s ∧ Str.all p sp = true.
Proof.
  induction s as [|c s (sp & IH & Hsp)]; [by exists EmptyString|].
  simpl. destruct (p c) eqn:E.
  - exists (String c sp). rewrite append_cons, <- IH. simpl. by rewrite E, Hsp.
  - by exists EmptyString.
Qed.

Lemma lstrip_by_all (p : ascii → bool) (s : string) :
  Str.all p s = true → Str.lstrip_by p s = EmptyString.
Proof.
  induction s as [|c s IH]; [done|]. simpl.
  intros [-> H]%andb_true_iff. by apply IH.
Qed.

Lemma all_rev (p : ascii → bool) (s : string) :
  Str.all p (String.rev s) = Str.all p s.
Proof.
  induction s as [|c s IH]; [done|]. rewrite rev_cons. simpl. rewrite <- IH.
  generalize (String.rev s). intros r. induction r as [|d r IHr]; simpl.
  - by rewrite andb_true_r.
  - rewrite IHr. by destruct (p d), (p c).
Qed.

Lemma rstrip_by_all (p : ascii → bool) (s : string) :
  Str.all p s = true → Str.rstrip_by p s = EmptyString.
Proof.
  intros H. unfold Str.rstrip_by. rewrite lstrip_by_all; [done|]. by rewrite all_rev.
Qed.

(** Trimming the right end first changes nothing. *)
Lemma strip_rstrip (s : string) :
  Str.strip (Str.rstrip_by Str.isspace s) = Str.strip s.
Proof.
  unfold Str.strip.
  destruct (lstrip_by_split Str.isspace s) as (sp & Hs & Hsp).
  destruct (lstrip_by_head Str.isspace s) as [E|(c & r & E & Hc)]; rewrite E in Hs.
  - rewrite append_nil_r in Hs. subst sp.
    rewrite E, (rstrip_by_all _ _ Hsp). reflexivity.
  - rewrite E. rewrite Hs at 1.
    rewrite rstrip_by_append, lstrip_by_append, (lstrip_by_all _ _ Hsp) by done.
    rewrite append_nil_l, !rstrip_by_cons_eq by done.
    by rewrite rstrip_by_idem.
Qed.

End Strings.

(** ** Bot-block classifier, robots and the XML parser *)

Section Parsers.

(** X3: the bot-block classifier finds its marks anywhere and in any letter
    case: a text classified as blocked stays blocked whatever is written
    before and after it, a text is classified as its lower-case form is,
    and the empty text is not blocked. *)
Theorem is_probably_cloudflare_block_context :
  (∀ before t after,
     is_probably_cloudflare_block t = true →
     is_probably_cloudflare_block (before +:+ t +:+ after) = true)
  ∧ (∀ t, is_probably_cloudflare_block (Str.lower t) = is_probably_cloudflare_block t)
  ∧ is_probably_cloudflare_block EmptyString = false.
Proof.
  split; [|split; [|done]].
  - intros before t after. unfold is_probably_cloudflare_block.
    rewrite !lower_append.
    assert (Hc : ∀ sub, Str.contains sub (Str.lower t) = true →
                 Str.contains sub (Str.lower before +:+ Str.lower t +:+ Str.lower after)
                 = true).
    { intros sub H. by apply contains_append_l, contains_append_r. }
    intros H. repeat apply orb_true_iff in H as [H|H];
      rewrite (Hc _ H); by rewrite ?orb_true_r.
  - intros t. unfold is_probably_cloudflare_block. by rewrite lower_idem.
Qed.

Lemma is_probably_cloudflare_block_context_witness :
  is_probably_cloudflare_block "Cloudflare" = true
  ∧ is_probably_cloudflare_block ("<title>Just a moment</title> " +:+ "Cloudflare" +:+ " Ray ID")
    = true.
Proof.
  split; [reflexivity|].
  apply (proj1 is_probably_cloudflare_block_context). reflexivity.
Defined.

Lemma robots_line_entry (sitemaps : list string) (line : string) :
  robots_line sitemaps line = sitemaps ++ option_list (robots_entry line).
Proof.
  unfold robots_line, robots_entry.
  destruct (Str.nonempty (Str.strip line)); cbn [negb andb]; [|by rewrite app_nil_r].
  destruct (Str.startswith _ _); [|by rewrite app_nil_r].
  destruct (Str.split_once ":" (Str.strip line)) as [[k rest]|]; [|by rewrite app_nil_r].
  destruct (Str.nonempty (Str.strip rest)); [done|by rewrite app_nil_r].
Qed.

Lemma parse_robots_for_sitemaps_omap (robots_text : string) :
  parse_robots_for_sitemaps robots_text = omap robots_entry (splitlines robots_text).
Proof.
  unfold parse_robots_for_sitemaps.
  rewrite <- (app_nil_l (omap _ _)). generalize (@nil string).
  induction (splitlines robots_text) as [|line lines IH]; intros acc.
  - simpl. by rewrite app_nil_r.
  - cbn [fold_left]. rewrite IH, robots_line_entry, <- app_assoc.
    cbn [omap list_omap]. by destruct (robots_entry line).
Qed.

Lemma robots_entry_trimmed (line sm : string) :
  robots_entry line = Some sm → sm ≠ EmptyString ∧ Str.strip sm = sm.
Proof.
  unfold robots_entry.
  destruct (_ && _); [|done].
  destruct (Str.split_once ":" (Str.strip line)) as [[k rest]|]; [|done].
  destruct (Str.nonempty (Str.strip rest)) eqn:E; [|done].
  intros [= <-]. split; [by destruct (Str.strip rest)|apply strip_idem].
Qed.

Lemma all_append (p : ascii → bool) (a b : string) :
  Str.all p (a +:+ b) = Str.all p a && Str.all p b.
Proof.
  induction a as [|c a IH]; [done|]. rewrite append_cons. simpl.
  by rewrite IH, andb_assoc.
Qed.

Lemma splitlines_go_one_line (s : string) :
  no_linebreak s = true →
  ∀ cur, splitlines_go cur s
         = if Str.nonempty (String.rev cur +:+ s) then [String.rev cur +:+ s] else [].
Proof.
  induction s as [|c s IH]; intros Hs cur.
  - rewrite append_nil_r. simpl.
    destruct cur as [|d cur]; [done|].
    rewrite rev_cons. by destruct (String.rev cur).
  - unfold no_linebreak in Hs. simpl in Hs. apply andb_true_iff in Hs as [Hc Hs].
    apply negb_true_iff in Hc. cbn [splitlines_go]. rewrite Hc.
    rewrite (IH Hs), rev_cons, append_assoc, append_cons, append_nil_l. done.
Qed.

Lemma omap_length_le {A B} (f : A → option B) (l : list A) :
  (length (omap f l) ≤ length l)%nat.
Proof.
  induction l as [|x l IH]; [done|]. cbn [omap list_omap].
  destruct (f x); simpl; lia.
Qed.

(** The characters of a key that reads [sitemap] in lower case. *)
Lemma lower_alpha_char (c : ascii) :
  Str.is_ascii_alpha (Str.lower_char c) = true →
  Str.isspace c = false ∧ is_linebreak c = false ∧ c ≠ ":"%char.
Proof. destruct c as [[] [] [] [] [] [] [] []]; cbv; intros H; repeat split; congruence. Qed.

Lemma lower_alpha_string (key : string) :
  Str.all Str.is_ascii_alpha (Str.lower key) = true →
  no_linebreak key = true ∧ Str.mem ":" key = false
  ∧ match key with String c _ => Str.isspace c = false | EmptyString => True end.
Proof.
  induction key as [|c key IH]; [done|]. cbn [Str.lower Str.all].
  intros [Hc Hk]%andb_true_iff.
  destruct (lower_alpha_char c Hc) as (Hs & Hl & Hne).
  destruct (IH Hk) as (IH1 & IH2 & _).
  unfold no_linebreak in *. cbn [Str.all Str.mem].
  rewrite Hl, IH1. cbn [negb andb].
  split; [done|]. split; [|done].
  destruct (ascii_dec ":" c); [congruence|done].
Qed.

End Parsers.

(** X4: every sitemap taken from [robots.txt] is a non-empty, trimmed text, and
    there are no more of them than lines. *)
Theorem parse_robots_for_sitemaps_entries (robots_text : string) :
  Forall (λ sm, sm ≠ EmptyString ∧ Str.strip sm = sm)
    (parse_robots_for_sitemaps robots_text)
  ∧ (length (parse_robots_for_sitemaps robots_text)
     ≤ length (splitlines robots_text))%nat.
Proof.
  rewrite parse_robots_for_sitemaps_omap. split; [|apply omap_length_le].
  apply Forall_forall. intros sm (line & _ & H)%list_elem_of_omap.
  by eapply robots_entry_trimmed.
Qed.

(** X5: a directive on one line: the key is matched in any letter case, only
    the first colon separates, and the value is trimmed; an empty value
    declares nothing. *)
Theorem parse_robots_for_sitemaps_directive (key value : string) :
  Str.lower key = "sitemap" → no_linebreak value = true →
  parse_robots_for_sitemaps (key +:+ ":" +:+ value)
  = if Str.nonempty (Str.strip value) then [Str.strip value] else [].
Proof.
  intros Hkey Hval.
  destruct (lower_alpha_string key) as (Hnl & Hcolon & Hhead); [by rewrite Hkey|].
  destruct key as [|c r] eqn:Hk; [done|]. rewrite <- Hk in *.
  rename Hhead into Hc.
  rewrite parse_robots_for_sitemaps_omap. unfold splitlines.
  rewrite splitlines_go_one_line.
  2:{ unfold no_linebreak in *. by rewrite !all_append, Hnl, Hval. }
  change (String.rev EmptyString +:+ ?x) with x.
  assert (Str.nonempty (key +:+ ":" +:+ value) = true) as -> by (by rewrite Hk).
  cbn [omap list_omap]. unfold robots_entry.
  assert (Hstrip : Str.strip (key +:+ ":" +:+ value)
                   = key +:+ String ":" (Str.rstrip_by Str.isspace value)).
  { unfold Str.strip. rewrite Hk at 1. rewrite append_cons. cbn [Str.lstrip_by].
    rewrite Hc, <- append_cons, <- Hk.
    change (":" +:+ value) with (String ":" value). by rewrite rstrip_by_append. }
  rewrite Hstrip, lower_append.
  assert (Str.startswith (Str.lower key +:+ Str.lower (String ":" (Str.rstrip_by Str.isspace value)))
            "sitemap:" = true) as ->.
  { rewrite Hkey. unfold Str.startswith.
    change ("sitemap" +:+ Str.lower (String ":" (Str.rstrip_by Str.isspace value)))
      with ("sitemap:" +:+ Str.lower (Str.rstrip_by Str.isspace value)).
    by apply prefix_append. }
  assert (Str.nonempty (key +:+ String ":" (Str.rstrip_by Str.isspace value)) = true) as ->
    by (by rewrite Hk).
  cbn [andb]. rewrite split_once_app by done. rewrite strip_rstrip.
  by destruct (Str.nonempty (Str.strip value)).
Qed.

Lemma parse_robots_for_sitemaps_directive_witness :
  Str.lower "SiteMap" = "sitemap"
  ∧ no_linebreak " https://e.com/s.xml  " = true
  ∧ parse_robots_for_sitemaps ("SiteMap" +:+ ":" +:+ " https://e.com/s.xml  ")
    = ["https://e.com/s.xml"].
Proof.
  split; [reflexivity|]. split; [reflexivity|].
  rewrite (parse_robots_for_sitemaps_directive "SiteMap" " https://e.com/s.xml  ");
    reflexivity.
Defined.

(** ** The XML parser and the fetchers *)

Section ParserShape.

Context (lib : Lib) (net : Net).

Lemma loc_of_trimmed (el : ET.Element) (u : string) : loc_of el = Some u → trimmed u.
Proof.
  unfold loc_of.
  destruct (ET.find_child "loc" el) as [loc_el|]; [|done]. cbn.
  destruct (ET.text loc_el) as [t|]; [|done]. cbn.
  destruct (Str.nonempty t); [|done]. intros [= <-]. apply strip_idem.
Qed.

Lemma omap_loc_of_trimmed (els : list ET.Element) : Forall trimmed (omap loc_of els).
Proof.
  apply Forall_forall. intros u (el & _ & H)%list_elem_of_omap. by eapply loc_of_trimmed.
Qed.

Lemma parse_sitemap_xml_cases (xml_bytes : list byte) :
  (∃ e, ET_fromstring lib xml_bytes = ET.Failed e
        ∧ parse_sitemap_xml lib xml_bytes = Raise e)
  ∨ parse_sitemap_xml lib xml_bytes = Ok ([], [])
  ∨ (∃ root, ET_fromstring lib xml_bytes = ET.Root root
       ∧ Str.lower (strip_ns (ET.tag root)) = "urlset"
       ∧ parse_sitemap_xml lib xml_bytes
         = Ok (omap loc_of (ET.findall_descendants "url" root), []))
  ∨ (∃ root, ET_fromstring lib xml_bytes = ET.Root root
       ∧ Str.lower (strip_ns (ET.tag root)) = "sitemapindex"
       ∧ parse_sitemap_xml lib xml_bytes
         = Ok ([], omap loc_of (ET.findall_descendants "sitemap" root))).
Proof.
  unfold parse_sitemap_xml.
  destruct (ET_fromstring lib xml_bytes) as [root| |e];
    [|by right; left|by left; exists e].
  case_bool_decide as H1.
  { right. right. left. exists root. by rewrite collect_loc_fold. }
  case_bool_decide as H2; [|by right; left].
  right. right. right. exists root. by rewrite collect_loc_fold.
Qed.

Lemma parse_sitemap_xml_trimmed (xml_bytes : list byte) (urls children : list string) :
  parse_sitemap_xml lib xml_bytes = Ok (urls, children) →
  (urls = [] ∨ children = []) ∧ Forall trimmed urls ∧ Forall trimmed children.
Proof.
  destruct (parse_sitemap_xml_cases xml_bytes)
    as [(e & _ & ->)|[->|[(root & _ & _ & ->)|(root & _ & _ & ->)]]];
    [done| | |]; intros [= <- <-];
    (split; [auto|]); split; try done; apply omap_loc_of_trimmed.
Qed.

End ParserShape.

(** X6: [parse_sitemap_xml] raises what the XML parser raises besides its
    parse error, and nothing else; the two lists it returns are never both
    filled, every entry is trimmed, and a [loc] whose text is only whitespace
    is not skipped: it gives an empty entry. *)
Theorem parse_sitemap_xml_shape (lib : Lib) (xml_bytes : list byte) :
  match parse_sitemap_xml lib xml_bytes with
  | Raise e => ET_fromstring lib xml_bytes = ET.Failed e
  | Ok (urls, children) =>
      (urls = [] ∨ children = []) ∧ Forall trimmed urls ∧ Forall trimmed children
  end
  ∧ (∀ root el loc_el t,
       ET_fromstring lib xml_bytes = ET.Root root →
       Str.lower (strip_ns (ET.tag root)) = "urlset" →
       descendant el root → ET.tag_matches "url" el = true →
       ET.find_child "loc" el = Some loc_el → ET.text loc_el = Some t →
       t ≠ EmptyString → Str.strip t = EmptyString →
       ∃ urls, parse_sitemap_xml lib xml_bytes = Ok (urls, [])
               ∧ EmptyString ∈ urls).
Proof.
  split.
  - destruct (parse_sitemap_xml lib xml_bytes) as [[urls children]|e] eqn:E.
    + by apply (parse_sitemap_xml_trimmed lib xml_bytes).
    + destruct (parse_sitemap_xml_cases lib xml_bytes)
        as [(e' & He & H)|[H|[(root & _ & _ & H)|(root & _ & _ & H)]]];
        rewrite H in E; try done. by injection E as <-.
  - intros root el loc_el t Hroot Htag Hd Hm Hloc Ht Hne Hblank.
    unfold parse_sitemap_xml. rewrite Hroot, Htag. simpl.
    rewrite collect_loc_fold. eexists. split; [done|].
    apply list_elem_of_omap. exists el. split.
    + apply list_elem_of_filter. split; [done|]. by apply elem_of_descendants.
    + unfold loc_of. rewrite Hloc. cbn. rewrite Ht. cbn.
      destruct t; [done|]. cbn [Str.nonempty]. by rewrite Hblank.
Qed.

Lemma parse_sitemap_xml_shape_witness :
  ∃ urls,
    parse_sitemap_xml blank_lib
      (Demo.bytes_of "<urlset><url><loc>  </loc></url></urlset>") = Ok (urls, [])
    ∧ EmptyString ∈ urls.
Proof.
  destruct (parse_sitemap_xml_shape blank_lib
              (Demo.bytes_of "<urlset><url><loc>  </loc></url></urlset>"))
    as (_ & H).
  apply (H blank_tree (ET.Elem "url" None [ET.Elem "loc" (Some "  ") []])
           (ET.Elem "loc" (Some "  ") []) "  ");
    try reflexivity; try discriminate.
  apply descendant_child. simpl. by left.
Defined.

(** X7: each fetcher makes exactly one request, and it hands on a payload only
    when the response has status 200 and the payload is not empty. *)
Theorem fetchers_one_request (net : Net) (url : string) :
  (∃ r, fetch_bytes_with_request net url = Some (Ok r, [Request url])
        ∧ ∀ b, r = Some b ↔
               b ≠ [] ∧ ∃ resp, request_get net url = Some resp
                                ∧ status resp = 200 ∧ body resp = b)
  ∧ (∃ r, fetch_text_with_request net url = Some (Ok r, [Request url])
          ∧ ∀ t, r = Some t ↔
                 t ≠ EmptyString ∧ ∃ resp, request_get net url = Some resp
                                           ∧ status resp = 200 ∧ text resp = t).
Proof.
  split.
  - destruct (fetch_bytes_with_request_fetched net url) as [-> _].
    eexists. split; [done|]. intros b. unfold fetched.
    destruct (request_get net url) as [resp|]; [|naive_solver].
    case_bool_decide as H; naive_solver.
  - rewrite fetch_text_with_request_eq. eexists. split; [done|]. intros t.
    destruct (request_get net url) as [resp|]; [|naive_solver].
    case_bool_decide as H; naive_solver.
Qed.

(** ** The resolver and discovery *)

Section ResolverShape.

Context (lib : Lib) (net : Net).

Lemma normalize_urls_clean (urls : list string) :
  NoDup (normalize_urls urls)
  ∧ Forall (λ u, u ≠ EmptyString ∧ trimmed u) (normalize_urls urls).
Proof.
  unfold normalize_urls. split; [apply dedup_first_NoDup|].
  apply Forall_forall. intros u Hu.
  apply dedup_first_elem_of, list_elem_of_filter in Hu as [Hne Hu].
  apply list_elem_of_fmap in Hu as (v & -> & _). split; [done|apply strip_idem].
Qed.

Lemma normalize_urls_blank (urls : list string) :
  Forall (λ u, Str.strip u = EmptyString) urls → normalize_urls urls = [].
Proof.
  intros H. unfold normalize_urls.
  assert (filter (λ u, u ≠ EmptyString) (Str.strip <$> urls) = []) as ->; [|done].
  induction H as [|u urls Hu _ IH]; [done|].
  rewrite fmap_cons, filter_cons_False by (by rewrite Hu; intros ?). done.
Qed.

Lemma fetch_all_sitemap_urls_shape_aux (n : Z) :
  ∀ url urls log,
    resolves lib net gz_suffix n url urls log →
    (∃ log', log = Request url :: log') ∧ Forall is_request log ∧ Forall trimmed urls.
Proof.
  apply (resolves_ind2 lib net gz_suffix n
    (λ url urls log,
       (∃ log', log = Request url :: log') ∧ Forall is_request log ∧ Forall trimmed urls)
    (λ children urls log, Forall is_request log ∧ Forall trimmed urls)).
  - intros url _. split; [by eexists|]. split; [|done]. repeat constructor. by eexists.
  - intros url raw _ _ _. split; [by eexists|]. split; [|done].
    repeat constructor. by eexists.
  - intros url raw content _ _ _. split; [by eexists|]. split; [|done].
    repeat constructor. by eexists.
  - intros url raw content urls children _ _ _ Hp _. split; [by eexists|]. split.
    + repeat constructor. by eexists.
    + by apply (parse_sitemap_xml_trimmed lib content) in Hp as (_ & ? & _).
  - intros url raw content children urls log _ _ _ _ _ [Hlog Hurls].
    split; [by eexists|]. split; [|done]. constructor; [by eexists|done].
  - done.
  - intros child children urls1 log1 urls2 log2 _ (_ & Hl1 & Hu1) _ [Hl2 Hu2].
    split; by apply Forall_app.
Qed.

(** The requests of a resolution that raised. *)
Lemma visit_children_requests (f : string → M (list string)) (children : list string) :
  (∀ c r log, f c = Some (r, log) → Forall is_request log) →
  ∀ acc r log,
    visit_children f children acc = Some (r, log) → Forall is_request log.
Proof.
  intros Hf. induction children as [|c cs IH]; intros acc r log H.
  { by injection H as <- <-. }
  rewrite visit_children_cons in H.
  destruct (f c) as [[[urls|e] l1]|] eqn:E; [| |done].
  - destruct (visit_children f cs _) as [[r2 l2]|] eqn:E2; [|done].
    injection H as <- <-. apply Forall_app. split; [by eapply Hf|by eapply IH].
  - injection H as <- <-. by eapply Hf.
Qed.

Lemma fetch_all_sitemap_urls_requests (n : Z) (fuel : nat) :
  ∀ url r log,
    fetch_all_sitemap_urls lib net fuel url n = Some (r, log) →
    (∃ log', log = Request url :: log') ∧ Forall is_request log.
Proof.
  induction fuel as [|fuel IH]; intros url r log H; [done|].
  rewrite fetch_all_sitemap_urls_S in H.
  assert (Hreq : is_request (Request url)) by (by eexists).
  assert (Hone : ∀ r', Some (r', [Request url]) = Some (r, log) →
    (∃ log', log = Request url :: log') ∧ Forall is_request log).
  { intros r' [= <- <-]. split; [by eexists|by constructor]. }
  destruct (fetched net url) as [raw|]; [|by eapply Hone].
  destruct (if gz_suffix url then _ else _) as [content|]; [|by eapply Hone].
  destruct (is_probably_cloudflare_block _); [by eapply Hone|].
  destruct (parse_sitemap_xml lib content) as [[[|u us] children]|e];
    [|by eapply Hone|by eapply Hone].
  destruct (visit_children _ _ _) as [[r2 l2]|] eqn:E; [|done].
  injection H as <- <-. split; [by eexists|]. constructor; [done|].
  eapply visit_children_requests; [|done].
  intros c r' log' Hc. by apply IH in Hc as [_ ?].
Qed.

Lemma discover_loop_shape (fuel : nat) (candidates : list string) :
  ∀ r log,
    discover_loop lib net fuel candidates = Some (r, log) →
    Forall is_request log
    ∧ ∀ urls, r = Ok urls → urls = [] ∨ ∃ raw, raw ≠ [] ∧ urls = normalize_urls raw.
Proof.
  induction candidates as [|sm rest IH]; intros r log.
  - intros [= <- <-]. split; [done|]. intros urls [= <-]. by left.
  - rewrite discover_loop_cons.
    destruct (fetch_all_sitemap_urls _ _ _ _ _) as [[r1 log1]|] eqn:E; [|done].
    apply fetch_all_sitemap_urls_requests in E as (_ & Hlog1).
    destruct r1 as [[|u raw]|e].
    + destruct (discover_loop lib net fuel rest) as [[r2 log2]|] eqn:E2; [|done].
      intros [= <- <-]. destruct (IH _ _ eq_refl) as [Hlog2 Hr].
      split; [by apply Forall_app|done].
    + intros [= <- <-]. split; [done|]. intros urls [= <-]. right. by exists (u :: raw).
    + intros [= <- <-]. by split.
Qed.

Lemma mapM_result_Forall2 {A B} (f : A → result B) (l : list A) (k : list B) :
  mapM f l = Ok k ↔ Forall2 (λ x y, f x = Ok y) l k.
Proof.
  revert k. induction l as [|x l IH]; intros k; cbn [mapM].
  - split; [intros [= <-]; constructor|by intros ->%Forall2_nil_inv_l].
  - split.
    + destruct (f x) as [y|e] eqn:Ex; [|done]. cbn [mbind result_bind].
      destruct (mapM f l) as [k'|e] eqn:El; [|done]. cbn [mbind result_bind].
      intros [= <-]. constructor; [done|]. by apply IH.
    + intros (y & k' & Hy & Hk & ->)%Forall2_cons_inv_l.
      apply IH in Hk. by rewrite Hy, Hk.
Qed.

Lemma candidates_run_inv (base_url : string) (r : result (list string))
  (log : list event) :
  candidates_run lib net base_url = Some (r, log) →
  (log = [] ∧ ∃ e, r = Raise e ∧ urljoin lib base_url "robots.txt" = Raise e)
  ∨ ∃ robots_url,
      urljoin lib base_url "robots.txt" = Ok robots_url
      ∧ log = [Request robots_url]
      ∧ ((∃ e, r = Raise e ∧ mapM (urljoin lib base_url) well_known = Raise e)
         ∨ ∃ joined,
             mapM (urljoin lib base_url) well_known = Ok joined
             ∧ r = Ok (dedup_first (declared_sitemaps net robots_url ++ joined))).
Proof.
  unfold candidates_run.
  destruct (urljoin lib base_url "robots.txt") as [robots_url|e].
  - destruct (mapM (urljoin lib base_url) well_known) as [joined|e];
      intros [= <- <-]; right; exists robots_url; (split; [done|]); (split; [done|]).
    + right. by exists joined.
    + left. by exists e.
  - intros [= <- <-]. left. split; [done|]. by exists e.
Qed.

End ResolverShape.

(** X8: where [urljoin] joins [robots.txt] and the four well-known paths to
    the base, the candidates of [try_discover_sitemaps] hold no URL twice and
    always hold the four well-known paths joined to the base, whatever
    [robots.txt] says; the only request is the one for [robots.txt]; and when
    that request fails the candidates are the well-known paths alone. *)
Theorem try_discover_sitemaps_shape (lib : Lib) (net : Net) (base_url : string)
  (robots_url : string) (joined : list string) :
  urljoin lib base_url "robots.txt" = Ok robots_url →
  Forall2 (λ p u, urljoin lib base_url p = Ok u) well_known joined →
  ∃ candidates,
    try_discover_sitemaps lib net base_url
    = Some (Ok candidates, [Request robots_url])
    ∧ NoDup candidates
    ∧ candidates ≠ []
    ∧ (∀ p u, p ∈ well_known → urljoin lib base_url p = Ok u → u ∈ candidates)
    ∧ (request_get net robots_url = None → candidates = dedup_first joined).
Proof.
  intros Hr Hj.
  rewrite try_discover_sitemaps_candidates.
  rewrite (candidates_run_Ok lib net base_url robots_url joined Hr)
    by (by apply mapM_result_Forall2).
  eexists. split; [done|].
  assert (Hin : ∀ p u, p ∈ well_known → urljoin lib base_url p = Ok u → u ∈ joined).
  { intros p u Hp Hu. apply list_elem_of_lookup in Hp as [i Hi].
    destruct (Forall2_lookup_l _ _ _ _ _ Hj Hi) as (u' & Hu' & Hpu).
    rewrite Hu in Hpu. injection Hpu as <-. by eapply list_elem_of_lookup_2. }
  split; [apply dedup_first_NoDup|]. split; [|split].
  - intros H.
    apply Forall2_cons_inv_l in Hj as (u & joined' & Hu & _ & ->).
    assert (u ∈ (@nil string)) as Hnil; [|by inversion Hnil].
    rewrite <- H. apply dedup_first_elem_of, elem_of_app. right. by left.
  - intros p u Hp Hu. apply dedup_first_elem_of, elem_of_app. right. by eapply Hin.
  - intros H. unfold declared_sitemaps. by rewrite H.
Qed.

Lemma try_discover_sitemaps_shape_witness :
  ∃ candidates,
    try_discover_sitemaps Demo.lib Demo.offline "https://e.com/"
    = Some (Ok candidates, [Request "https://e.com/robots.txt"])
    ∧ candidates = ["https://e.com/sitemap.xml"; "https://e.com/sitemap_index.xml";
                    "https://e.com/sitemap-index.xml"; "https://e.com/sitemap.xml.gz"].
Proof.
  destruct (try_discover_sitemaps_shape Demo.lib Demo.offline "https://e.com/"
              "https://e.com/robots.txt"
              ["https://e.com/sitemap.xml"; "https://e.com/sitemap_index.xml";
               "https://e.com/sitemap-index.xml"; "https://e.com/sitemap.xml.gz"]
              eq_refl)
    as (candidates & Hrun & _ & _ & _ & Hnone).
  { repeat constructor. }
  exists candidates. split; [exact Hrun|].
  etrans; [apply Hnone; reflexivity|]. vm_compute. reflexivity.
Defined.

(** X9: with a cap of 0 the resolver never descends: it makes the one request
    for the sitemap and ends, whatever the sitemaps are, also for an index
    that lists itself; and it raises only what the XML parser raises on the
    payload. *)
Theorem fetch_all_sitemap_urls_cap_zero (lib : Lib) (net : Net) (fuel : nat)
  (url : string) :
  ∃ r, fetch_all_sitemap_urls lib net (S fuel) url 0 = Some (r, [Request url])
       ∧ ∀ e, r = Raise e → ∃ content, ET_fromstring lib content = ET.Failed e.
Proof.
  rewrite fetch_all_sitemap_urls_S.
  destruct (fetched net url) as [raw|]; [|by eexists].
  destruct (if gz_suffix url then _ else _) as [content|]; [|by eexists].
  destruct (is_probably_cloudflare_block _); [by eexists|].
  destruct (parse_sitemap_xml lib content) as [[[|u us] children]|e] eqn:Ep;
    [by eexists|by eexists|].
  eexists. split; [done|]. intros e' [= <-]. exists content.
  unfold parse_sitemap_xml in Ep.
  destruct (ET_fromstring lib content) as [root| |e']; [|done|by injection Ep as ->].
  by repeat case_bool_decide.
Qed.

(** X10: a finished resolution starts with the request for its own URL, makes
    requests only and never navigates the page, and returns trimmed entries. *)
Theorem fetch_all_sitemap_urls_shape (lib : Lib) (net : Net) (fuel : nat)
  (url : string) (n : Z) (r : result (list string)) (log : list event) :
  fetch_all_sitemap_urls lib net fuel url n = Some (r, log) →
  (∃ log', log = Request url :: log')
  ∧ Forall is_request log
  ∧ ∀ urls, r = Ok urls → Forall trimmed urls.
Proof.
  intros H. destruct (fetch_all_sitemap_urls_requests lib net n fuel _ _ _ H) as [H1 H2].
  split; [done|]. split; [done|]. intros urls ->.
  by apply fetch_all_sitemap_urls_sound, fetch_all_sitemap_urls_shape_aux in H
    as (_ & _ & ?).
Qed.

Lemma fetch_all_sitemap_urls_shape_witness :
  fetch_all_sitemap_urls Demo.lib Demo.net 2 "https://e.com/index.xml" 2
  = Some (Ok ["https://e.com/"; "https://e.com/about"; "https://e.com/";
              "https://other.org/x"],
          [Request "https://e.com/index.xml"; Request "https://e.com/a.xml";
           Request "https://e.com/b.xml.gz"])
  ∧ Forall trimmed
      ["https://e.com/"; "https://e.com/about"; "https://e.com/"; "https://other.org/x"].
Proof.
  assert (E : fetch_all_sitemap_urls Demo.lib Demo.net 2 "https://e.com/index.xml" 2
    = Some (Ok ["https://e.com/"; "https://e.com/about"; "https://e.com/";
                "https://other.org/x"],
            [Request "https://e.com/index.xml"; Request "https://e.com/a.xml";
             Request "https://e.com/b.xml.gz"])) by reflexivity.
  split; [exact E|].
  exact (proj2 (proj2 (fetch_all_sitemap_urls_shape _ _ _ _ _ _ _ E)) _ eq_refl).
Defined.

(** X11: what [discover_urls_from_sitemaps] returns holds no URL twice and no
    empty or untrimmed entry, and it is found with requests alone, the first
    of them for [robots.txt]. *)
Theorem discover_urls_from_sitemaps_clean (lib : Lib) (net : Net) (fuel : nat)
  (base_url : string) (urls : list string) (log : list event) :
  discover_urls_from_sitemaps lib net fuel base_url = Some (Ok urls, log) →
  NoDup urls
  ∧ Forall (λ u, u ≠ EmptyString ∧ trimmed u) urls
  ∧ Forall is_request log
  ∧ ∃ robots_url log',
      urljoin lib base_url "robots.txt" = Ok robots_url
      ∧ log = Request robots_url :: log'.
Proof.
  rewrite discover_urls_from_sitemaps_eq.
  destruct (candidates_run lib net base_url) as [[[candidates|e] lg]|] eqn:Ec;
    [|done|done].
  apply candidates_run_inv in Ec
    as [(_ & e & ? & _)|(robots_url & Hr & -> & [(e & ? & _)|(joined & _ & _)])];
    [done|done|].
  destruct (discover_loop _ _ _ _) as [[r log']|] eqn:E; [|done].
  intros [= -> <-]. apply discover_loop_shape in E as [Hlog Hr'].
  assert (Hclean : NoDup urls ∧ Forall (λ u, u ≠ EmptyString ∧ trimmed u) urls).
  { destruct (Hr' urls eq_refl) as [->|(raw & _ & ->)];
      [split; constructor|apply normalize_urls_clean]. }
  destruct Hclean as [Hnd Hall]. split; [done|]. split; [done|]. split.
  - constructor; [by eexists|done].
  - by exists robots_url, log'.
Qed.

Lemma discover_urls_from_sitemaps_clean_witness :
  discover_urls_from_sitemaps Demo.lib Demo.net 2 "https://e.com/"
  = Some (Ok ["https://e.com/"; "https://e.com/about"; "https://other.org/x"],
          [Request "https://e.com/robots.txt"; Request "https://e.com/c.xml";
           Request "https://e.com/index.xml"; Request "https://e.com/a.xml";
           Request "https://e.com/b.xml.gz"; Request "https://e.com/c.xml"])
  ∧ NoDup ["https://e.com/"; "https://e.com/about"; "https://other.org/x"].
Proof.
  assert (E : discover_urls_from_sitemaps Demo.lib Demo.net 2 "https://e.com/"
    = Some (Ok ["https://e.com/"; "https://e.com/about"; "https://other.org/x"],
            [Request "https://e.com/robots.txt"; Request "https://e.com/c.xml";
             Request "https://e.com/index.xml"; Request "https://e.com/a.xml";
             Request "https://e.com/b.xml.gz"; Request "https://e.com/c.xml"]))
    by (vm_compute; reflexivity).
  split; [exact E|].
  exact (proj1 (discover_urls_from_sitemaps_clean _ _ _ _ _ _ E)).
Defined.

(** X12: the first candidate that resolves to anything ends the search even
    when all its entries are blank: the result is then empty and the later
    candidates are not fetched. *)
Theorem discover_urls_from_sitemaps_blank (lib : Lib) (net : Net) (fuel : nat)
  (base_url robots_url : string) (joined tried : list string)
  (logs : list (list event))
  (sm : string) (rest : list string) (urls : list string) (log : list event) :
  urljoin lib base_url "robots.txt" = Ok robots_url →
  Forall2 (λ p u, urljoin lib base_url p = Ok u) well_known joined →
  dedup_first (declared_sitemaps net robots_url ++ joined) = tried ++ sm :: rest →
  Forall2 (λ c lg, fetch_all_sitemap_urls lib net fuel c default_max_children
                   = Some (Ok [], lg)) tried logs →
  fetch_all_sitemap_urls lib net fuel sm default_max_children = Some (Ok urls, log) →
  urls ≠ [] → Forall (λ u, Str.strip u = EmptyString) urls →
  discover_urls_from_sitemaps lib net fuel base_url
  = Some (Ok [], Request robots_url :: concat logs ++ log).
Proof.
  intros Hr Hj Hc Htried Hsm Hne Hblank.
  rewrite discover_urls_from_sitemaps_eq.
  rewrite (candidates_run_Ok lib net base_url robots_url joined Hr)
    by (by apply mapM_result_Forall2).
  rewrite Hc.
  rewrite (discover_loop_first_success lib net fuel tried logs sm rest urls log) by done.
  by rewrite normalize_urls_blank.
Qed.

Lemma discover_urls_from_sitemaps_blank_witness :
  discover_urls_from_sitemaps blank_lib blank_net 1 "https://e.com/"
  = Some (Ok [], [Request "https://e.com/robots.txt"; Request "https://e.com/sitemap.xml"]).
Proof.
  apply (discover_urls_from_sitemaps_blank blank_lib blank_net 1 "https://e.com/"
           "https://e.com/robots.txt"
           ["https://e.com/sitemap.xml"; "https://e.com/sitemap_index.xml";
            "https://e.com/sitemap-index.xml"; "https://e.com/sitemap.xml.gz"]
           [] [] "https://e.com/sitemap.xml"
           ["https://e.com/sitemap_index.xml"; "https://e.com/sitemap-index.xml";
            "https://e.com/sitemap.xml.gz"]
           [EmptyString] [Request "https://e.com/sitemap.xml"]).
  - reflexivity.
  - repeat constructor.
  - reflexivity.
  - constructor.
  - reflexivity.
  - discriminate.
  - repeat constructor.
Defined.

(** ** The crawl *)

Section CrawlReach.

Context (lib : Lib) (net : Net).

Lemma enqueue_fold_elem_of (visited : gset string) (found : list string) :
  ∀ queue u,
    u ∈ fold_left (enqueue visited) found queue ↔ u ∈ queue ∨ (u ∈ found ∧ u ∉ visited).
Proof.
  induction found as [|f found IH]; intros queue u; cbn [fold_left].
  - set_solver.
  - rewrite IH. unfold enqueue. case_bool_decide as Hf; set_solver.
Qed.

Lemma next_queue_elem_of (base_url url : string) (queue queue' : list string)
  (visited : gset string) (u : string) :
  next_queue lib net base_url url queue visited = Ok queue' →
  u ∈ queue' ↔ u ∈ queue ∨ (linked_from lib net base_url url u ∧ u ∉ visited).
Proof.
  unfold next_queue, linked_from.
  destruct (page_goto net url) as [html|].
  2:{ intros [= <-]. split; [by left|]. by intros [?|[(html & ? & _) _]]. }
  destruct (is_probably_cloudflare_block html) eqn:Eb.
  { intros [= <-]. split; [by left|].
    intros [?|[(html' & [= <-] & Hb & _) _]]; [done|congruence]. }
  destruct (extract_internal_links lib html url base_url) as [found|e] eqn:Ef; [|done].
  intros [= <-]. rewrite enqueue_fold_elem_of. split.
  - intros [?|[? ?]]; [by left|]. right. split; [|done]. exists html.
    split; [done|]. split; [done|]. by exists found.
  - intros [?|[(html' & [= <-] & _ & found' & Hf & ?) ?]]; [by left|].
    rewrite Ef in Hf. injection Hf as <-. by right.
Qed.

Lemma crawl_loop_subset (base_url : string) (limit : Z) (fuel : nat) queue visited v log :
  crawl_loop lib net fuel base_url limit queue visited = Some (Ok v, log) →
  Forall (own_host lib base_url) queue → visited ⊆ v.
Proof.
  intros H Hq. apply crawl_loop_inv in H as (new & _ & _ & _ & _ & Hv); [|done].
  rewrite (Hv v eq_refl). set_solver.
Qed.

Lemma crawl_loop_reachable (base_url : string) (limit : Z) (fuel : nat) :
  ∀ queue visited v log,
    crawl_loop lib net fuel base_url limit queue visited = Some (Ok v, log) →
    Forall (own_host lib base_url) queue →
    (∀ u, u ∈ queue → reachable lib net base_url u) →
    (∀ u, u ∈ visited → reachable lib net base_url u) →
    ∀ u, u ∈ v → reachable lib net base_url u.
Proof.
  induction fuel as [|fuel IH]; intros queue visited v log H Hh Hq Hv; [done|].
  rewrite crawl_loop_S in H. destruct queue as [|url queue].
  { by injection H as <- <-. }
  apply Forall_cons in Hh as [Hurl Hh].
  case_bool_decide as Hlim.
  { by injection H as <- <-. }
  case_bool_decide as Hvis.
  { apply (IH _ _ _ _ H Hh); [|done]. intros u Hu. apply Hq. by right. }
  destruct (next_queue _ _ _ _ _ _) as [queue'|e] eqn:En; [|done].
  destruct (crawl_loop _ _ _ _ _ _ _) as [[r' log']|] eqn:E; [|done].
  injection H as -> <-.
  assert (Hr : reachable lib net base_url url) by (apply Hq; by left).
  apply (IH _ _ _ _ E).
  - by eapply next_queue_own_host.
  - intros u Hu. apply (next_queue_elem_of _ _ _ _ _ _ En) in Hu as [Hu|[Hu _]].
    + apply Hq. by right.
    + by eapply rtc_r.
  - intros u [->%elem_of_singleton|Hu]%elem_of_union; [done|by apply Hv].
Qed.

Lemma crawl_loop_closed (base_url : string) (limit : Z) (fuel : nat) :
  ∀ queue visited v log,
    crawl_loop lib net fuel base_url limit queue visited = Some (Ok v, log) →
    Forall (own_host lib base_url) queue →
    Z.of_nat (size v) < limit →
    (∀ q, q ∈ queue → q ∈ v)
    ∧ (∀ p u, p ∈ v → p ∉ visited → linked_from lib net base_url p u → u ∈ v).
Proof.
  induction fuel as [|fuel IH]; intros queue visited v log H Hh Hsize; [done|].
  pose proof (crawl_loop_subset _ _ _ _ _ _ _ H Hh) as Hsub.
  rewrite crawl_loop_S in H. destruct queue as [|url queue].
  { injection H as <- <-. split; [by intros q ?%elem_of_nil|done]. }
  apply Forall_cons in Hh as [Hurl Hh].
  case_bool_decide as Hlim.
  { injection H as <- <-. lia. }
  case_bool_decide as Hvis.
  { destruct (IH _ _ _ _ H Hh Hsize) as [Hq Hc]. split; [|done].
    intros q [->|Hq']%elem_of_cons; [by apply Hsub|by apply Hq]. }
  destruct (next_queue _ _ _ _ _ _) as [queue'|e] eqn:En; [|done].
  destruct (crawl_loop _ _ _ _ _ _ _) as [[r' log']|] eqn:E; [|done].
  injection H as -> <-.
  pose proof (next_queue_own_host lib net base_url url queue queue'
                ({[url]} ∪ visited) En Hh) as Hh'.
  pose proof (crawl_loop_subset _ _ _ _ _ _ _ E Hh') as Hsub'.
  destruct (IH _ _ _ _ E Hh' Hsize) as [Hq Hc].
  split.
  - intros q [->|Hq']%elem_of_cons; [set_solver|].
    apply Hq, (next_queue_elem_of _ _ _ _ _ _ En). by left.
  - intros p u Hp Hnv Hl.
    destruct (decide (p = url)) as [->|Hne].
    + destruct (decide (u ∈ ({[url]} ∪ visited : gset string))) as [Hu|Hu];
        [by apply Hsub'|].
      apply Hq, (next_queue_elem_of _ _ _ _ _ _ En). by right.
    + apply (Hc p u); [done|set_solver|done].
Qed.

Lemma crawl_loop_first (base_url : string) (limit : Z) (fuel : nat) r log :
  1 ≤ limit →
  crawl_loop lib net fuel base_url limit [base_url] ∅ = Some (r, log) →
  ∃ log', log = Goto base_url :: log'.
Proof.
  intros Hlimit H. destruct fuel as [|fuel]; [done|].
  rewrite crawl_loop_S, size_empty in H.
  rewrite bool_decide_eq_false_2 in H by lia.
  rewrite bool_decide_eq_false_2 in H by set_solver.
  destruct (next_queue _ _ _ _ _ _) as [queue'|e]; [|injection H as <- <-; by eexists].
  destruct (crawl_loop _ _ _ _ _ _ _) as [[r' log']|]; [|done].
  injection H as <- <-. by eexists.
Qed.

Lemma fallback_crawl_internal_log (fuel : nat) (base_url : string) (limit : Z) r log :
  fallback_crawl_internal lib net fuel base_url limit = Some (r, log) →
  ∃ r', crawl_loop lib net fuel base_url limit [base_url] ∅ = Some (r', log).
Proof.
  rewrite fallback_crawl_internal_eq.
  destruct (crawl_loop _ _ _ _ _ _ _) as [[[v|e] log']|]; [| |done];
    intros [= <- <-]; by eexists.
Qed.

End CrawlReach.

(** X13: a crawl that ends below its limit has found everything: it returns
    exactly the URLs that can be reached from the base URL over the internal
    links of pages that are reached and not blocked. Below or at the limit,
    every returned URL is reachable in that way. *)
Theorem fallback_crawl_internal_reachable (lib : Lib) (net : Net) (fuel : nat)
  (base_url : string) (limit : Z) (urls : list string) (log : list event) :
  fallback_crawl_internal lib net fuel base_url limit = Some (Ok urls, log) →
  (∀ u, u ∈ urls → reachable lib net base_url u)
  ∧ (Z.of_nat (length urls) < limit →
     ∀ u, u ∈ urls ↔ reachable lib net base_url u).
Proof.
  rewrite fallback_crawl_internal_eq.
  destruct (crawl_loop _ _ _ _ _ _ _) as [[[v|e] log']|] eqn:E; [|done|done].
  intros [= <- <-].
  assert (Hh : Forall (own_host lib base_url) [base_url]).
  { constructor; [by left|constructor]. }
  assert (Hsound : ∀ u, u ∈ elements v → reachable lib net base_url u).
  { intros u Hu%elem_of_elements.
    apply (crawl_loop_reachable lib net _ _ _ _ _ _ _ E Hh); [|set_solver|done].
    intros q ->%list_elem_of_singleton. apply rtc_refl. }
  split; [done|]. intros Hlen u. split; [apply Hsound|].
  destruct (crawl_loop_closed lib net _ _ _ _ _ _ _ E Hh) as [Hq Hc]; [done|].
  intros Hr. apply elem_of_elements. revert u Hr.
  apply (rtc_ind_r (λ u, u ∈ v)).
  - apply Hq. by left.
  - intros p w _ Hl IH. apply (Hc p w); [done|set_solver|done].
Qed.

Lemma fallback_crawl_internal_reachable_witness :
  fallback_crawl_internal Demo.lib Demo.net 4 "https://e.com/" 2000
  = Some (Ok ["https://e.com/about"; "https://e.com/"; "https://E.COM/blog"],
          [Goto "https://e.com/"; Goto "https://e.com/about"; Goto "https://E.COM/blog"])
  ∧ Z.of_nat (length ["https://e.com/about"; "https://e.com/"; "https://E.COM/blog"]) < 2000
  ∧ reachable Demo.lib Demo.net "https://e.com/" "https://E.COM/blog".
Proof.
  assert (E : fallback_crawl_internal Demo.lib Demo.net 4 "https://e.com/" 2000
    = Some (Ok ["https://e.com/about"; "https://e.com/"; "https://E.COM/blog"],
            [Goto "https://e.com/"; Goto "https://e.com/about"; Goto "https://E.COM/blog"]))
    by (vm_compute; reflexivity).
  split; [exact E|]. split; [simpl; lia|].
  apply (proj1 (fallback_crawl_internal_reachable _ _ _ _ _ _ _ E)).
  apply list_elem_of_In. simpl. tauto.
Defined.

(** X14: the edges of the limit. With a limit of 0 or less the crawl returns
    nothing and navigates nowhere; with a limit of 1 or more it navigates to
    the base URL first, and with a limit of exactly 1 it navigates to the
    base URL alone and returns it alone. The returned list holds no URL
    twice. *)
Theorem fallback_crawl_internal_limits (lib : Lib) (net : Net) (fuel : nat)
  (base_url : string) (limit : Z) (r : result (list string)) (log : list event) :
  fallback_crawl_internal lib net fuel base_url limit = Some (r, log) →
  (limit ≤ 0 → r = Ok [] ∧ log = [])
  ∧ (1 ≤ limit → ∃ log', log = Goto base_url :: log')
  ∧ (limit = 1 → log = [Goto base_url])
  ∧ ∀ urls, r = Ok urls → NoDup urls ∧ (limit = 1 → urls = [base_url]).
Proof.
  intros H.
  pose proof (fallback_crawl_internal_inv lib net _ _ _ _ _ H)
    as (new & Hlog & Hnd & _ & Hlen & Hp).
  destruct (fallback_crawl_internal_log lib net _ _ _ _ _ H) as [r' E].
  assert (Hfirst : 1 ≤ limit → ∃ log', log = Goto base_url :: log').
  { intros Hl. by eapply crawl_loop_first. }
  assert (Hone : limit = 1 → new = [base_url]).
  { intros ->. destruct Hfirst as [log'' Hl]; [lia|]. rewrite Hl in Hlog.
    destruct new as [|u [|u' new]]; simpl in Hlen; [done| |lia].
    simpl in Hlog. by injection Hlog as <- ->. }
  split; [|split; [done|split]].
  - intros Hl. assert (new = []) as -> by (destruct new; [done|simpl in Hlen; lia]).
    split; [|done]. destruct fuel as [|fuel]; [done|].
    rewrite fallback_crawl_internal_eq, crawl_loop_S, size_empty in H.
    rewrite bool_decide_eq_true_2 in H by lia. by injection H as <- <-.
  - intros Hl. by rewrite Hlog, (Hone Hl).
  - intros urls ->. specialize (Hp urls eq_refl). split.
    + by rewrite Hp.
    + intros Hl. rewrite (Hone Hl) in Hp. by apply Permutation_singleton_r in Hp.
Qed.

Lemma fallback_crawl_internal_limits_witness :
  fallback_crawl_internal Demo.lib Demo.net 2 "https://e.com/" 1
  = Some (Ok ["https://e.com/"], [Goto "https://e.com/"])
  ∧ NoDup ["https://e.com/"].
Proof.
  assert (E : fallback_crawl_internal Demo.lib Demo.net 2 "https://e.com/" 1
              = Some (Ok ["https://e.com/"], [Goto "https://e.com/"]))
    by (vm_compute; reflexivity).
  split; [exact E|].
  destruct (fallback_crawl_internal_limits _ _ _ _ _ _ _ E) as (_ & _ & _ & H).
  exact (proj1 (H _ eq_refl)).
Defined.

(** ** URLs *)

Section Urls.

Lemma netloc_of_urlparse (url : string) :
  netloc (url_fields url) =
    fst (split_netloc (snd (split_scheme
           (Str.remove url_unsafe (Str.lstrip_by (λ c, Str.between 0 32 c) url))))).
Proof.
  unfold url_fields. fold url_unsafe.
  destruct (split_scheme _) as [sch u0]. simpl.
  destruct (split_netloc u0) as [loc u1].
  destruct (split_at "#" u1) as [u2 frag].
  destruct (split_at "?" u2) as [u3 qry].
  destruct (_ && _); [destruct (split_params u3)|]; reflexivity.
Qed.

Lemma all_impl (p q : ascii → bool) (s : string) :
  (∀ c, p c = true → q c = true) → Str.all p s = true → Str.all q s = true.
Proof.
  intros Hpq. induction s as [|c s IH]; [done|]. simpl.
  intros [Hc Hs]%andb_true_iff. by rewrite (Hpq c Hc), IH.
Qed.

Lemma remove_all (p : ascii → bool) (s : string) :
  Str.all (λ c, negb (p c)) (Str.remove p s) = true.
Proof.
  induction s as [|c s IH]; [done|]. simpl.
  destruct (p c) eqn:E; [done|]. simpl. by rewrite E.
Qed.

Lemma remove_id (p : ascii → bool) (s : string) :
  Str.all (λ c, negb (p c)) s = true → Str.remove p s = s.
Proof.
  induction s as [|c s IH]; [done|]. simpl.
  intros [Hc Hs]%andb_true_iff. apply negb_true_iff in Hc. by rewrite Hc, IH.
Qed.

Lemma split_once_all (q : ascii → bool) (c : ascii) (s a b : string) :
  Str.split_once c s = Some (a, b) → Str.all q s = true → Str.all q b = true.
Proof.
  revert a. induction s as [|d s IH]; intros a; [done|]. simpl.
  destruct (ascii_dec c d).
  - intros [= <- <-] [_ Hs]%andb_true_iff. done.
  - destruct (Str.split_once c s) as [[a' b']|]; [|done].
    intros [= <- <-] [_ Hs]%andb_true_iff. by eapply IH.
Qed.

Lemma split_scheme_all (q : ascii → bool) (s : string) :
  Str.all q s = true → Str.all q (snd (split_scheme s)) = true.
Proof.
  intros Hs. unfold split_scheme.
  destruct (Str.split_once ":" s) as [[[|c0 pre] post]|] eqn:E; [done| |done].
  destruct (_ && _); [|done]. by eapply split_once_all.
Qed.

Lemma break_fst (p q : ascii → bool) (s : string) :
  Str.all q s = true →
  Str.all (λ c, negb (p c) && q c) (fst (Str.break p s)) = true.
Proof.
  induction s as [|c s IH]; [done|]. simpl.
  intros [Hc Hs]%andb_true_iff.
  destruct (p c) eqn:E; [done|]. specialize (IH Hs).
  destruct (Str.break p s) as [a b]. simpl in *. by rewrite E, Hc, IH.
Qed.

Lemma break_append (p : ascii → bool) (a : string) (c : ascii) (b : string) :
  Str.all (λ c, negb (p c)) a = true → p c = true →
  Str.break p (a +:+ String c b) = (a, String c b).
Proof.
  intros Ha Hc. induction a as [|d a IH].
  - simpl. by rewrite Hc.
  - simpl in Ha. apply andb_true_iff in Ha as [Hd Ha]. apply negb_true_iff in Hd.
    rewrite append_cons. simpl. by rewrite Hd, (IH Ha).
Qed.

Lemma split_netloc_all (q : ascii → bool) (s : string) :
  Str.all q s = true →
  Str.all (λ c, negb (Str.mem c "/?#") && q c) (fst (split_netloc s)) = true.
Proof.
  intros Hs. unfold split_netloc.
  destruct s as [|c1 s]; [done|].
  destruct (ascii_dec c1 "/") as [->|Hn1]; cycle 1.
  { destruct c1 as [[] [] [] [] [] [] [] []]; done. }
  destruct s as [|c2 r]; [done|].
  destruct (ascii_dec c2 "/") as [->|Hn2]; cycle 1.
  { destruct c2 as [[] [] [] [] [] [] [] []]; done. }
  simpl in Hs. apply andb_true_iff in Hs as [_ [_ Hs]%andb_true_iff].
  apply (break_fst (λ c, Str.mem c "/?#") q r Hs).
Qed.

(** The authority that [urlparse] finds is always an [authority_text]. *)
Lemma netloc_authority_text (url : string) : authority_text (netloc (url_fields url)) = true.
Proof.
  rewrite netloc_of_urlparse. apply split_netloc_all, split_scheme_all, remove_all.
Qed.

Lemma authority_text_split (h : string) :
  authority_text h = true →
  Str.all (λ c, negb (Str.mem c "/?#")) h = true
  ∧ Str.all (λ c, negb (url_unsafe c)) h = true.
Proof.
  intros H. split; (eapply all_impl; [|exact H]); by intros c [? ?]%andb_true_iff.
Qed.

Lemma remove_append (p : ascii → bool) (a b : string) :
  Str.remove p (a +:+ b) = Str.remove p a +:+ Str.remove p b.
Proof.
  induction a as [|c a IH]; [done|]. rewrite append_cons. simpl.
  destruct (p c); [done|]. by rewrite append_cons, IH.
Qed.

Lemma netloc_http (x : string) :
  netloc (url_fields ("http://" +:+ x))
  = fst (Str.break (λ c, Str.mem c "/?#") (Str.remove url_unsafe x)).
Proof. rewrite netloc_of_urlparse. reflexivity. Qed.

Lemma netloc_https (x : string) :
  netloc (url_fields ("https://" +:+ x))
  = fst (Str.break (λ c, Str.mem c "/?#") (Str.remove url_unsafe x)).
Proof. rewrite netloc_of_urlparse. reflexivity. Qed.

(** A URL written as [http] or [https], [://], an authority, [/] and anything
    more is parsed back into that scheme and that authority. *)
Lemma urlparse_written (sch h rest : string) :
  sch = "http" ∨ sch = "https" → authority_text h = true →
  scheme (url_fields (sch +:+ "://" +:+ h +:+ "/" +:+ rest)) = sch
  ∧ netloc (url_fields (sch +:+ "://" +:+ h +:+ "/" +:+ rest)) = h.
Proof.
  intros Hsch [Hh1 Hh2]%authority_text_split.
  assert (Hrm : Str.remove url_unsafe (h +:+ "/" +:+ rest)
                = h +:+ String "/" (Str.remove url_unsafe rest)).
  { rewrite remove_append, (remove_id _ _ Hh2). done. }
  destruct Hsch as [-> | ->].
  - change ("http" +:+ "://" +:+ h +:+ "/" +:+ rest)
      with ("http://" +:+ (h +:+ "/" +:+ rest)).
    rewrite urlparse_scheme_http, netloc_http, Hrm, break_append; done.
  - change ("https" +:+ "://" +:+ h +:+ "/" +:+ rest)
      with ("https://" +:+ (h +:+ "/" +:+ rest)).
    rewrite urlparse_scheme_https, netloc_https, Hrm, break_append; done.
Qed.

Lemma normalize_base_url_Ok (lib : Lib) (input base : string) :
  normalize_base_url lib input = Ok base →
  ∃ sch h, base = sch +:+ "://" +:+ h +:+ "/"
    ∧ (sch = "http" ∨ sch = "https")
    ∧ h = netloc (url_fields (with_scheme (Str.strip input)))
    ∧ h ≠ EmptyString ∧ authority_text h = true
    ∧ check_netloc lib h = None
    ∧ urlparse lib (with_scheme (Str.strip input))
      = Ok (url_fields (with_scheme (Str.strip input))).
Proof.
  rewrite normalize_base_url_unfold.
  destruct (Str.nonempty (Str.strip input)); [|done]. cbn [negb].
  destruct (urlparse lib _) as [parsed|e] eqn:Ep; [|done].
  apply urlparse_Ok in Ep as [-> Hc].
  destruct (Str.nonempty (netloc _)) eqn:Hne; [|done]. cbn [negb].
  intros [= <-]. eexists _, _. split; [done|].
  split; [apply with_scheme_scheme|]. split; [done|].
  split; [|split; [apply netloc_authority_text|done]].
  intros E. rewrite E in Hne. done.
Qed.

Lemma check_netloc_plain (lib : Lib) (h : string) :
  Str.mem "[" h = false → Str.mem "]" h = false → check_netloc lib h = None.
Proof. intros H1 H2. unfold check_netloc. by rewrite H1, H2. Qed.

Lemma check_netloc_unbalanced (lib : Lib) (h : string) :
  Str.mem "[" h ≠ Str.mem "]" h →
  check_netloc lib h = Some (ValueError "Invalid IPv6 URL").
Proof.
  intros H. unfold check_netloc.
  by destruct (Str.mem "[" h), (Str.mem "]" h).
Qed.

Lemma urlparse_check (lib : Lib) (url : string) :
  urlparse lib url =
    match check_netloc lib (netloc (url_fields url)) with
    | Some e => Raise e
    | None => Ok (url_fields url)
    end.
Proof. reflexivity. Qed.

Lemma strip_written (sch h : string) :
  sch = "http" ∨ sch = "https" →
  Str.strip (sch +:+ "://" +:+ h +:+ "/") = sch +:+ "://" +:+ h +:+ "/".
Proof.
  intros Hsch. unfold Str.strip.
  assert (Hl : Str.lstrip_by Str.isspace (sch +:+ "://" +:+ h +:+ "/")
               = sch +:+ "://" +:+ h +:+ "/")
    by (destruct Hsch as [-> | ->]; reflexivity).
  rewrite Hl.
  rewrite <- !append_assoc.
  by rewrite (rstrip_by_append Str.isspace _ "/" EmptyString).
Qed.

Lemma urlparse_http (x : string) :
  url_fields ("http://" +:+ x) =
    let '(loc, url) := Str.break (λ c, Str.mem c "/?#") (Str.remove url_unsafe x) in
    let '(url, frag) := split_at "#" url in
    let '(url, qry) := split_at "?" url in
    let '(url, prm) := if Str.mem ";" url then split_params url else (url, EmptyString) in
    {| scheme := "http"; netloc := loc; path := url; params := prm;
       query := qry; fragment := frag |}.
Proof. reflexivity. Qed.

Lemma urlparse_https (x : string) :
  url_fields ("https://" +:+ x) =
    let '(loc, url) := Str.break (λ c, Str.mem c "/?#") (Str.remove url_unsafe x) in
    let '(url, frag) := split_at "#" url in
    let '(url, qry) := split_at "?" url in
    let '(url, prm) := if Str.mem ";" url then split_params url else (url, EmptyString) in
    {| scheme := "https"; netloc := loc; path := url; params := prm;
       query := qry; fragment := frag |}.
Proof. reflexivity. Qed.

Lemma urlparse_base (sch h : string) :
  sch = "http" ∨ sch = "https" → authority_text h = true →
  url_fields (sch +:+ "://" +:+ h +:+ "/") =
    {| scheme := sch; netloc := h; path := "/"; params := EmptyString;
       query := EmptyString; fragment := EmptyString |}.
Proof.
  intros Hsch [Hh1 Hh2]%authority_text_split.
  assert (Hrm : Str.remove url_unsafe (h +:+ "/") = h +:+ String "/" EmptyString).
  { rewrite remove_append, (remove_id _ _ Hh2). done. }
  destruct Hsch as [-> | ->].
  - change ("http" +:+ "://" +:+ h +:+ "/") with ("http://" +:+ (h +:+ "/")).
    rewrite urlparse_http, Hrm, break_append; done.
  - change ("https" +:+ "://" +:+ h +:+ "/") with ("https://" +:+ (h +:+ "/")).
    rewrite urlparse_https, Hrm, break_append; done.
Qed.

End Urls.

Section UrlTheorems.

(** X1: [normalize_base_url] is idempotent: a base URL it returns is returned
    unchanged when it is normalized again.  That base is on the host of the
    address that was parsed, and [urlparse] reads it back as an [http] or
    [https] scheme, that host, the path [/] and nothing else. *)
Theorem normalize_base_url_idempotent (lib : Lib) (input base : string) :
  normalize_base_url lib input = Ok base →
  normalize_base_url lib base = Ok base
  ∧ same_host lib base (with_scheme (Str.strip input)) = Ok true
  ∧ ∃ parsed,
      urlparse lib base = Ok parsed
      ∧ (scheme parsed = "http" ∨ scheme parsed = "https")
      ∧ parsed =
          {| scheme := scheme parsed;
             netloc := netloc (url_fields (with_scheme (Str.strip input)));
             path := "/"; params := EmptyString; query := EmptyString;
             fragment := EmptyString |}.
Proof.
  intros (sch & h & -> & Hsch & Hh & Hne & Hat & Hc & Ht)%normalize_base_url_Ok.
  pose proof (urlparse_base sch h Hsch Hat) as Hp.
  assert (Hb : urlparse lib (sch +:+ "://" +:+ h +:+ "/")
               = Ok (url_fields (sch +:+ "://" +:+ h +:+ "/"))).
  { rewrite urlparse_check, Hp. cbn [netloc]. by rewrite Hc. }
  assert (Hw : with_scheme (sch +:+ "://" +:+ h +:+ "/") = sch +:+ "://" +:+ h +:+ "/")
    by (unfold with_scheme, Str.startswith;
        destruct Hsch as [-> | ->]; destruct (h +:+ "/"); reflexivity).
  split; [|split].
  - rewrite normalize_base_url_unfold, strip_written, Hw, Hb, Hp by done. simpl.
    assert (Str.nonempty (sch +:+ "://" +:+ h +:+ "/") = true) as ->
      by (destruct Hsch as [-> | ->]; reflexivity).
    destruct h; done.
  - unfold same_host. rewrite Hb, Ht, Hp. cbn. rewrite <- Hh.
    by rewrite bool_decide_eq_true_2.
  - eexists. split; [exact Hb|]. rewrite Hp. cbn. split; [done|]. by rewrite Hh.
Qed.

Lemma normalize_base_url_idempotent_witness :
  normalize_base_url Demo.lib "  Example.com/shop?x=1 " = Ok "https://Example.com/"
  ∧ normalize_base_url Demo.lib "https://Example.com/" = Ok "https://Example.com/".
Proof.
  split; [reflexivity|].
  apply (normalize_base_url_idempotent Demo.lib "  Example.com/shop?x=1 "). reflexivity.
Defined.

(** X2: [same_host] compares the authorities as they are written, user
    information and port included, ignoring letter case, and nothing else:
    for two URLs written as [http] or [https], [://], an authority, [/] and
    any path, query or fragment, it raises what [urlparse] raises on the
    brackets of the first authority, else of the second, and otherwise it
    tells whether the two authorities are equal up to letter case, whatever
    the schemes and what follows the authorities. An authority with no
    square bracket is accepted; one with an opening or a closing bracket
    only raises [ValueError]. *)
Theorem same_host_written (lib : Lib) (s1 s2 h1 h2 r1 r2 : string) :
  s1 = "http" ∨ s1 = "https" → s2 = "http" ∨ s2 = "https" →
  authority_text h1 = true → authority_text h2 = true →
  let a := s1 +:+ "://" +:+ h1 +:+ "/" +:+ r1 in
  let b := s2 +:+ "://" +:+ h2 +:+ "/" +:+ r2 in
  same_host lib a b
  = match check_netloc lib h1, check_netloc lib h2 with
    | Some e, _ => Raise e
    | None, Some e => Raise e
    | None, None => Ok (bool_decide (Str.lower h1 = Str.lower h2))
    end
  ∧ (Str.mem "[" h1 = false → Str.mem "]" h1 = false →
     Str.mem "[" h2 = false → Str.mem "]" h2 = false →
     same_host lib a b = Ok (bool_decide (Str.lower h1 = Str.lower h2)))
  ∧ (Str.mem "[" h1 ≠ Str.mem "]" h1 →
     same_host lib a b = Raise (ValueError "Invalid IPv6 URL"))
  ∧ (Str.mem "[" h1 = false → Str.mem "]" h1 = false →
     Str.mem "[" h2 ≠ Str.mem "]" h2 →
     same_host lib a b = Raise (ValueError "Invalid IPv6 URL")).
Proof.
  intros H1 H2 A1 A2 a b.
  assert (E : same_host lib a b
    = match check_netloc lib h1, check_netloc lib h2 with
      | Some e, _ => Raise e
      | None, Some e => Raise e
      | None, None => Ok (bool_decide (Str.lower h1 = Str.lower h2))
      end).
  { unfold same_host, a, b. rewrite !urlparse_check.
    destruct (urlparse_written s1 h1 r1 H1 A1) as [_ E1].
    destruct (urlparse_written s2 h2 r2 H2 A2) as [_ E2].
    rewrite E1, E2.
    destruct (check_netloc lib h1); [done|]. cbn.
    destruct (check_netloc lib h2); [done|]. cbn. by rewrite E1, E2. }
  rewrite E. split; [done|]. split; [|split].
  - intros B1 B2 B3 B4. by rewrite !check_netloc_plain.
  - intros B. by rewrite (check_netloc_unbalanced lib h1 B).
  - intros B1 B2 B. by rewrite check_netloc_plain, (check_netloc_unbalanced lib h2 B).
Qed.

(** Letter case is ignored, a port is not; an opening bracket alone raises. *)
Lemma same_host_written_witness :
  same_host Demo.lib "https://Example.com/a/b?x=1#top" "http://example.COM/" = Ok true
  ∧ same_host Demo.lib "https://e.com:443/x" "https://e.com/" = Ok false
  ∧ same_host Demo.lib "http://[/" "http://e.com/" = Raise (ValueError "Invalid IPv6 URL").
Proof.
  split; [|split].
  - destruct (same_host_written Demo.lib "https" "http" "Example.com" "example.COM"
                "a/b?x=1#top" EmptyString) as (_ & H & _); auto.
  - destruct (same_host_written Demo.lib "https" "https" "e.com:443" "e.com"
                "x" EmptyString) as (_ & H & _); auto.
  - destruct (same_host_written Demo.lib "http" "http" "[" "e.com"
                EmptyString EmptyString) as (_ & _ & H & _); auto.
Defined.

End UrlTheorems.

(** ** Words *)

Section Words.

Lemma length_append (a b : string) :
  String.length (a +:+ b) = (String.length a + String.length b)%nat.
Proof. induction a as [|c a IH]; [done|]. rewrite append_cons. simpl. by rewrite IH. Qed.

Lemma substring_append (tok rest : string) :
  String.substring 0 (String.length (tok +:+ rest) - String.length rest) (tok +:+ rest) = tok.
Proof.
  rewrite length_append, Nat.add_sub.
  induction tok as [|c tok IH].
  - rewrite append_nil_l. by destruct rest.
  - rewrite append_cons. simpl. by rewrite IH.
Qed.

Lemma match_plus_inv (cls : ascii → bool) (s : string) (k : Re.cont) (rest : string) :
  Re.match_plus cls s k = Some rest →
  ∃ tok mid c, s = tok +:+ mid ∧ tok ≠ EmptyString ∧ Str.all cls tok = true
    ∧ k (Some c) mid = Some rest.
Proof.
  induction s as [|c r IH]; [done|]. simpl.
  destruct (cls c) eqn:Hc; [|done].
  destruct (Re.match_plus cls r k) as [rest'|] eqn:E.
  - intros [= ->]. destruct (IH eq_refl) as (tok & mid & d & -> & _ & Hall & Hk).
    exists (String c tok), mid, d. rewrite append_cons. simpl. by rewrite Hc, Hall.
  - intros Hk. exists (String c EmptyString), r, c. simpl. by rewrite Hc.
Qed.

Lemma match_here_word (prev : option ascii) (s rest : string) :
  Re.match_here word_pattern prev s = Some rest →
  ∃ tok, s = tok +:+ rest ∧ tok ≠ EmptyString ∧ Str.all word_char tok = true.
Proof.
  unfold Re.match_here, word_pattern. cbn [Re.match_at].
  destruct (Re.at_boundary prev s); [|done].
  intros (tok & mid & c & -> & Hne & Hall & Hk)%match_plus_inv.
  destruct (Re.at_boundary (Some c) mid); [|done]. injection Hk as ->.
  by exists tok.
Qed.

Lemma findall_go_tokens (s : string) :
  ∀ prev skip,
    Forall (λ w, w ≠ EmptyString ∧ Str.all word_char w = true)
      (Re.findall_go word_pattern prev s skip).
Proof.
  induction s as [|c r IH]; intros prev skip; [by constructor|].
  cbn [Re.findall_go]. destruct skip as [|n]; [|apply IH].
  destruct (Re.match_here word_pattern prev (String c r)) as [rest|] eqn:E; [|apply IH].
  cbv zeta. constructor; [|apply IH].
  apply match_here_word in E as (tok & -> & Hne & Hall).
  by rewrite substring_append.
Qed.

Lemma findall_go_length (p : Re.pattern) (s : string) :
  ∀ prev skip, (length (Re.findall_go p prev s skip) ≤ String.length s)%nat.
Proof.
  induction s as [|c r IH]; intros prev skip; [done|].
  cbn [Re.findall_go]. destruct skip as [|n].
  - destruct (Re.match_here p prev (String c r)) as [rest|]; cbv zeta; simpl.
    + specialize (IH (Some c) (String.length (String c r) - String.length rest - 1)%nat).
      simpl in IH. lia.
    + specialize (IH (Some c) 0%nat). lia.
  - specialize (IH (Some c) n). simpl. lia.
Qed.

Lemma findall_go_none (s : string) :
  no_word_char s = true → ∀ prev skip, Re.findall_go word_pattern prev s skip = [].
Proof.
  unfold no_word_char. induction s as [|c r IH]; [done|]. simpl.
  intros [Hc Hr]%andb_true_iff prev skip. apply negb_true_iff in Hc.
  destruct skip as [|n]; [|by apply IH].
  unfold Re.match_here, word_pattern. cbn [Re.match_at Re.match_plus]. rewrite Hc.
  destruct (Re.at_boundary prev (String c r)); by apply IH.
Qed.

Lemma rev_app_length (s acc : string) :
  String.length (String.rev_app s acc) = (String.length s + String.length acc)%nat.
Proof.
  revert acc. induction s as [|c s IH]; intros acc; [done|].
  simpl. rewrite IH. simpl. lia.
Qed.

Lemma rev_length (s : string) : String.length (String.rev s) = String.length s.
Proof. unfold String.rev. rewrite rev_app_length. simpl. lia. Qed.

Lemma strip_length (s : string) : (String.length (Str.strip s) ≤ String.length s)%nat.
Proof.
  unfold Str.strip, Str.rstrip_by. rewrite rev_length.
  etrans; [apply lstrip_by_length|]. rewrite rev_length. apply lstrip_by_length.
Qed.

Lemma collapse_ws_length (s : string) :
  (String.length (collapse_ws s) ≤ String.length s)%nat.
Proof.
  induction s as [|c r IH]; [done|]. rewrite collapse_ws_cons.
  destruct (Str.isspace c); [|simpl; lia].
  destruct r as [|d r']; [done|]. destruct (Str.isspace d); simpl in *; lia.
Qed.

Lemma lstrip_by_keeps (p q : ascii → bool) (s : string) :
  Str.all q s = true → Str.all q (Str.lstrip_by p s) = true.
Proof.
  induction s as [|c r IH]; [done|]. simpl. destruct (p c); [|done].
  intros [_ Hr]%andb_true_iff. by apply IH.
Qed.

Lemma strip_keeps (q : ascii → bool) (s : string) :
  Str.all q s = true → Str.all q (Str.strip s) = true.
Proof.
  intros H. unfold Str.strip, Str.rstrip_by.
  rewrite all_rev. apply lstrip_by_keeps. rewrite all_rev. by apply lstrip_by_keeps.
Qed.

Lemma collapse_ws_keeps (q : ascii → bool) (s : string) :
  q " "%char = true → Str.all q s = true → Str.all q (collapse_ws s) = true.
Proof.
  intros Hsp. induction s as [|c r IH]; [done|]. rewrite collapse_ws_cons.
  intros H. pose proof H as [Hc Hr]%andb_true_iff. specialize (IH Hr).
  destruct (Str.isspace c).
  - destruct r as [|d r']; [by simpl; rewrite Hsp|].
    destruct (Str.isspace d); [done|]. simpl. by rewrite Hsp.
  - simpl. by rewrite Hc.
Qed.

End Words.

(** X15: the words that are counted.  Every match of the word pattern is a
    non-empty run of characters of its class, there are no more matches
    than the text has characters, and a text without a character of the
    class has none. *)
Theorem findall_word_pattern_tokens (text : string) :
  Forall (λ w, w ≠ EmptyString ∧ Str.all word_char w = true) (Re.findall word_pattern text)
  ∧ (length (Re.findall word_pattern text) ≤ String.length text)%nat
  ∧ (no_word_char text = true → Re.findall word_pattern text = []).
Proof.
  unfold Re.findall. split; [apply findall_go_tokens|].
  split; [apply findall_go_length|]. intros H. by apply findall_go_none.
Qed.

Lemma findall_word_pattern_tokens_witness :
  no_word_char "?! ... (;)" = true ∧ Re.findall word_pattern "?! ... (;)" = [].
Proof.
  split; [reflexivity|].
  apply (proj2 (proj2 (findall_word_pattern_tokens "?! ... (;)"))). reflexivity.
Defined.

(** X16: the word count of a page is never negative and never more than the
    number of characters of its visible text; a page whose visible text has
    no character of the class of the word pattern, such as a page of
    punctuation, counts 0. *)
Theorem word_count_from_html_bounds (lib : Lib) (html : string) :
  0 ≤ word_count_from_html lib html ≤ Z.of_nat (String.length (visible_text lib html))
  ∧ (no_word_char (visible_text lib html) = true → word_count_from_html lib html = 0).
Proof.
  rewrite word_count_from_html_eq. fold (visible_text lib html). cbv zeta.
  pose proof (strip_length (collapse_ws (visible_text lib html))) as H1.
  pose proof (collapse_ws_length (visible_text lib html)) as H2.
  pose proof (findall_go_length word_pattern
                (Str.strip (collapse_ws (visible_text lib html))) None 0) as H3.
  fold (Re.findall word_pattern (Str.strip (collapse_ws (visible_text lib html)))) in H3.
  split.
  - destruct (Str.strip _); [lia|]. lia.
  - intros Hno. destruct (Str.strip _) eqn:E; [done|]. rewrite <- E.
    unfold Re.findall. rewrite findall_go_none; [done|].
    by apply strip_keeps, collapse_ws_keeps.
Qed.

Lemma word_count_from_html_bounds_witness :
  no_word_char (visible_text punct_lib punct_html) = true
  ∧ word_count_from_html punct_lib punct_html = 0.
Proof.
  split; [reflexivity|].
  apply (proj2 (word_count_from_html_bounds punct_lib punct_html)). reflexivity.
Defined.

(** ** Sampling *)

Section SamplingEdges.

Context {F : Type} {float_ops : FloatOps F} (lib : Lib) (net : Net).

Lemma slice_to_prefix {A} (l : list A) (n : Z) : slice_to l n `prefix_of` l.
Proof. unfold slice_to. destruct (0 <=? n); apply prefix_take. Qed.

Lemma usable_count_pos (u : string) (n : Z) : usable_count lib net u = Some n → 0 < n.
Proof.
  unfold usable_count. destruct (page_goto net u) as [html|]; [|done].
  destruct (is_probably_cloudflare_block html); [done|].
  case_bool_decide; [|done]. by intros [= <-].
Qed.

End SamplingEdges.

(** X17: whatever the sample size, [compute_average_words] navigates to a
    prefix of the list, each URL once and in order, so never to more pages
    than the list has; with an empty list or a sample size of 0 it navigates
    nowhere and returns 0.0; a negative size [-k] leaves the last [k] URLs
    out; and every count that enters the average is positive. *)
Theorem compute_average_words_sample {F : Type} {float_ops : FloatOps F}
  (lib : Lib) (net : Net) (urls : list string) (sample_size : Z) :
  ∃ sample counts,
    compute_average_words (F:=F) lib net urls sample_size
    = Some (Ok (mean counts), Goto <$> sample)
    ∧ sample `prefix_of` urls
    ∧ (length counts ≤ length sample)%nat
    ∧ Forall (λ n, 0 < n) counts
    ∧ (urls = [] ∨ sample_size = 0 → sample = [] ∧ counts = [])
    ∧ (sample_size < 0 →
       sample = take (length urls - Z.to_nat (- sample_size)) urls).
Proof.
  exists (slice_to urls sample_size), (omap (usable_count lib net) (slice_to urls sample_size)).
  split; [apply compute_average_words_eq|]. split; [apply slice_to_prefix|].
  split; [apply omap_length_le|]. split; [|split].
  - apply Forall_forall. intros n (u & _ & Hu)%list_elem_of_omap.
    by eapply usable_count_pos.
  - intros [-> | ->]; [|by destruct urls]. unfold slice_to.
    by destruct (0 <=? sample_size); rewrite take_nil.
  - intros Hn. unfold slice_to. destruct (0 <=? sample_size) eqn:E; [lia|done].
Qed.

Lemma compute_average_words_sample_witness :
  ∃ sample counts,
    compute_average_words Demo.lib Demo.net
      ["https://e.com/"; "https://e.com/about"; "https://e.com/hello"] (-1)
    = Some (Ok (mean counts), Goto <$> sample)
    ∧ sample = ["https://e.com/"; "https://e.com/about"].
Proof.
  destruct (compute_average_words_sample Demo.lib Demo.net
              ["https://e.com/"; "https://e.com/about"; "https://e.com/hello"] (-1))
    as (sample & counts & Hrun & _ & _ & _ & _ & Hneg).
  exists sample, counts. split; [exact Hrun|]. apply Hneg. reflexivity.
Defined.

(** ** Runs *)

Section Runs.

Context {F : Type} {float_ops : FloatOps F} (lib : Lib) (net : Net).

Lemma main_eq (fuel : nat) (arg0 arg1 arg2 : string) (rest : list string) (base_url : string) :
  normalize_base_url lib (Str.strip arg2) = Ok base_url →
  main (F:=F) lib net fuel (arg0 :: arg1 :: arg2 :: rest) =
    match discover_urls_from_sitemaps lib net fuel base_url with
    | None => None
    | Some (Raise e, log1) => Some (Raise e, Goto base_url :: log1)
    | Some (Ok discovered, log1) =>
        match (match discovered with
               | [] => fallback_crawl_internal lib net fuel base_url default_limit
               | _ => Some (Ok discovered, [])
               end) with
        | None => None
        | Some (Raise e, log2) => Some (Raise e, Goto base_url :: log1 ++ log2)
        | Some (Ok urls, log2) =>
            match filter_result (λ u, same_host lib u base_url) urls with
            | Raise e => Some (Raise e, Goto base_url :: log1 ++ log2)
            | Ok kept =>
                let pages := sorted_set kept in
                Some (Ok (Completed
                        {| Result.website := Str.strip arg2;
                           Result.total_pages := Z.of_nat (length pages);
                           Result.average_words :=
                             float_round
                               (mean (omap (usable_count lib net) (take 10 pages))) 2;
                           Result.id := Str.strip arg1 |}),
                      Goto base_url :: log1 ++ log2 ++ (Goto <$> take 10 pages))
            end
        end
    end.
Proof.
  intros Hb. unfold main. rewrite Hb.
  unfold mbind, M_bind, open_homepage_for_cookies, emit, lift.
  destruct (discover_urls_from_sitemaps lib net fuel base_url)
    as [[[discovered|e] l1]|]; [|done|done].
  destruct discovered as [|d ds].
  - destruct (fallback_crawl_internal lib net fuel base_url default_limit)
      as [[[urls|e] l2]|]; [|done|done].
    destruct (filter_result _ urls) as [kept|e].
    + rewrite compute_average_words_eq in *. unfold mret, M_ret. cbv zeta.
      change (slice_to ?l 10) with (take 10 l). by rewrite app_nil_r.
    + cbn. by rewrite !app_nil_r.
  - unfold mret at 1, M_ret at 1.
    destruct (filter_result _ (d :: ds)) as [kept|e].
    + rewrite compute_average_words_eq. unfold mret, M_ret. cbv zeta.
      change (slice_to ?l 10) with (take 10 l). by rewrite app_nil_r.
    + cbn. by rewrite !app_nil_r.
Qed.

Lemma sorted_set_singleton (u : string) : sorted_set [u] = [u].
Proof.
  unfold sorted_set. apply Permutation_singleton_r.
  rewrite merge_sort_Permutation. simpl.
  by rewrite (right_id_L ∅ (∪)), elements_singleton.
Qed.

Lemma sorted_set_nil : sorted_set [] = [].
Proof.
  unfold sorted_set. apply Permutation_nil_r.
  rewrite merge_sort_Permutation. simpl. by rewrite elements_empty.
Qed.

Lemma filter_result_all_false {A} (p : A → result bool) (l : list A) :
  Forall (λ x, p x = Ok false) l → filter_result p l = Ok [].
Proof.
  induction 1 as [|x l Hx _ IH]; [done|].
  cbn [filter_result]. by rewrite Hx, IH.
Qed.

Lemma main_usage (fuel : nat) (argv : list string) :
  (length argv < 3)%nat → main (F:=F) lib net fuel argv = Some (Ok Usage, []).
Proof.
  destruct argv as [|arg0 [|arg1 [|arg2 rest]]]; try done. simpl. lia.
Qed.

Lemma main_rejected (fuel : nat) (arg0 arg1 arg2 : string) (rest : list string) (e : exn) :
  normalize_base_url lib (Str.strip arg2) = Raise e →
  main (F:=F) lib net fuel (arg0 :: arg1 :: arg2 :: rest) = Some (Raise e, []).
Proof. intros Hb. unfold main. by rewrite Hb. Qed.

Lemma discover_urls_from_sitemaps_first (fuel : nat) (base_url : string)
  (urls : list string) (log : list event) :
  discover_urls_from_sitemaps lib net fuel base_url = Some (Ok urls, log) →
  ∃ robots_url log',
    urljoin lib base_url "robots.txt" = Ok robots_url
    ∧ log = Request robots_url :: log'.
Proof.
  rewrite discover_urls_from_sitemaps_eq.
  destruct (candidates_run lib net base_url) as [[[candidates|e] lg]|] eqn:Ec;
    [|done|done].
  apply candidates_run_inv in Ec
    as [(_ & e & ? & _)|(robots_url & Hr & -> & _)]; [done|].
  destruct (discover_loop _ _ _ _) as [[r log']|]; [|done].
  intros [= -> <-]. by exists robots_url, log'.
Qed.

End Runs.

(** X18: how a run of [main] ends.  With fewer than two arguments after the
    program name it prints the usage and touches nothing; with a website
    that [normalize_base_url] rejects it raises that exception and touches
    nothing; and these are the only runs that touch nothing: every other
    run that ends has first opened the base URL in the browser, and a run
    that completes has then requested [robots.txt]. *)
Theorem main_outcomes {F : Type} {float_ops : FloatOps F}
  (lib : Lib) (net : Net) (fuel : nat) (argv : list string) :
  ((length argv < 3)%nat → main (F:=F) lib net fuel argv = Some (Ok Usage, []))
  ∧ (∀ arg0 arg1 arg2 rest e,
       argv = arg0 :: arg1 :: arg2 :: rest →
       normalize_base_url lib (Str.strip arg2) = Raise e →
       main (F:=F) lib net fuel argv = Some (Raise e, []))
  ∧ (∀ (o : result (outcome F)) log,
       main (F:=F) lib net fuel argv = Some (o, log) →
       match o with
       | Ok Usage => (length argv < 3)%nat ∧ log = []
       | Ok (Completed r) =>
           ∃ arg0 arg1 arg2 rest base_url robots_url log',
             argv = arg0 :: arg1 :: arg2 :: rest
             ∧ normalize_base_url lib (Str.strip arg2) = Ok base_url
             ∧ urljoin lib base_url "robots.txt" = Ok robots_url
             ∧ log = Goto base_url :: Request robots_url :: log'
       | Raise e =>
           ∃ arg0 arg1 arg2 rest,
             argv = arg0 :: arg1 :: arg2 :: rest
             ∧ ((normalize_base_url lib (Str.strip arg2) = Raise e ∧ log = [])
                ∨ ∃ base_url log',
                    normalize_base_url lib (Str.strip arg2) = Ok base_url
                    ∧ log = Goto base_url :: log')
       end).
Proof.
  split; [apply main_usage|]. split.
  { intros arg0 arg1 arg2 rest e -> Hb. by apply main_rejected. }
  intros o log.
  destruct argv as [|arg0 [|arg1 [|arg2 rest]]];
    try (intros [= <- <-]; simpl; split; [lia|done]).
  destruct (normalize_base_url lib (Str.strip arg2)) as [base_url|e] eqn:Hb.
  - rewrite (main_eq lib net fuel arg0 arg1 arg2 rest base_url Hb).
    destruct (discover_urls_from_sitemaps lib net fuel base_url)
      as [[[d|e] l1]|] eqn:Ed; [|intros [= <- <-]|done].
    2:{ exists arg0, arg1, arg2, rest. split; [done|]. right. by eexists _, _. }
    apply discover_urls_from_sitemaps_first in Ed as (robots_url & l1' & Hr & ->).
    destruct (match d with [] => _ | _ => _ end) as [[[urls|e] l2]|];
      [|intros [= <- <-]|done].
    2:{ exists arg0, arg1, arg2, rest. split; [done|]. right. by eexists _, _. }
    destruct (filter_result _ urls) as [kept|e]; intros [= <- <-].
    + by eexists arg0, arg1, arg2, rest, base_url, robots_url, _.
    + exists arg0, arg1, arg2, rest. split; [done|]. right. by eexists _, _.
  - rewrite (main_rejected lib net fuel arg0 arg1 arg2 rest e Hb).
    intros [= <- <-]. exists arg0, arg1, arg2, rest. split; [done|]. by left.
Qed.

(** A run without a website, a run with a blank website, a run with a
    bracket that urlparse rejects, and a run that completes. *)
Lemma main_outcomes_witness :
  main Demo.lib Demo.net 2 ["prog"; "7"] = Some (Ok Usage, [])
  ∧ main Demo.lib Demo.net 2 ["prog"; "7"; "  "]
    = Some (Raise (ValueError "website is leeg"), [])
  ∧ main Demo.lib Demo.net 2 ["prog"; "7"; "http://["]
    = Some (Raise (ValueError "Invalid IPv6 URL"), [])
  ∧ ∃ r log',
      main Demo.lib Demo.net 2 ["prog"; "7"; " e.com "]
      = Some (Ok (Completed r),
              Goto "https://e.com/" :: Request "https://e.com/robots.txt" :: log').
Proof.
  split; [|split; [|split]].
  - apply (main_outcomes Demo.lib Demo.net 2 ["prog"; "7"]). simpl. lia.
  - by apply (proj1 (proj2 (main_outcomes Demo.lib Demo.net 2 ["prog"; "7"; "  "]))
                "prog" "7" "  " []).
  - by apply (proj1 (proj2 (main_outcomes Demo.lib Demo.net 2 ["prog"; "7"; "http://["]))
                "prog" "7" "http://[" []).
  - destruct (main Demo.lib Demo.net 2 ["prog"; "7"; " e.com "]) as [[o log]|] eqn:E;
      [|by vm_compute in E].
    pose proof (proj2 (proj2 (main_outcomes Demo.lib Demo.net 2 ["prog"; "7"; " e.com "]))
                  o log E) as H.
    destruct o as [[|r]|e]; [by vm_compute in E| |by vm_compute in E].
    destruct H as (arg0 & arg1 & arg2 & rest & base_url & robots_url & log'
                   & [= <- <- <- <-] & Hb & Hr & ->).
    injection Hb as <-. injection Hr as <-. by exists r, log'.
Defined.

(** X19: the pages a completed run samples.  The log of the run ends with the
    navigations of the sample; the sampled pages are the first 10 of the
    pages that were counted, so their number is the smaller of 10 and
    [total_pages], and each of them is on the host of the base URL. *)
Theorem main_samples_own_host {F : Type} {float_ops : FloatOps F}
  (lib : Lib) (net : Net) (fuel : nat) (argv : list string)
  (r : Result.t F) (log : list event) :
  main lib net fuel argv = Some (Ok (Completed r), log) →
  ∃ arg0 arg1 arg2 rest base_url log' sample,
    argv = arg0 :: arg1 :: arg2 :: rest
    ∧ normalize_base_url lib (Str.strip arg2) = Ok base_url
    ∧ log = Goto base_url :: log' ++ (Goto <$> sample)
    ∧ Z.of_nat (length sample) = Z.min 10 (Result.total_pages r)
    ∧ Forall (λ u, same_host lib u base_url = Ok true) sample
    ∧ NoDup sample
    ∧ Result.average_words r
      = float_round (mean (omap (usable_count lib net) sample)) 2.
Proof.
  destruct argv as [|arg0 [|arg1 [|arg2 rest]]]; try done.
  destruct (normalize_base_url lib (Str.strip arg2)) as [base_url|e] eqn:Hb;
    [|by rewrite (main_rejected lib net fuel arg0 arg1 arg2 rest e Hb)].
  rewrite (main_eq lib net fuel arg0 arg1 arg2 rest base_url Hb).
  destruct (discover_urls_from_sitemaps lib net fuel base_url) as [[[d|e] l1]|];
    [|done|done].
  destruct (match d with [] => _ | _ => _ end) as [[[urls|e] l2]|]; [|done|done].
  destruct (filter_result _ urls) as [kept|e] eqn:Ek; [|done].
  apply filter_result_Ok in Ek as [-> _].
  cbv zeta. intros [= <- <-].
  destruct (sorted_set_spec (filter (λ u, same_host lib u base_url = Ok true) urls))
    as (_ & Hnd & Hin & _).
  eexists arg0, arg1, arg2, rest, base_url, (l1 ++ l2), _.
  split; [done|]. split; [done|]. split; [by rewrite <- app_assoc|].
  split; [simpl; rewrite length_take; lia|].
  split; [|split; [|done]].
  - apply Forall_forall. intros u Hu.
    apply (subseteq_take 10), Hin, list_elem_of_filter in Hu. by destruct Hu.
  - eapply sublist_NoDup; [exact Hnd|apply sublist_take].
Qed.

Lemma main_samples_own_host_witness :
  main Demo.lib Demo.net 2 ["prog"; "7"; " e.com "]
  = Some (Ok (Completed
            {| Result.website := "e.com"; Result.total_pages := 2;
               Result.average_words :=
                 Demo.FRound (Demo.FDiv (Demo.FOfInt 10) (Demo.FOfInt 2)) 2;
               Result.id := "7" |}),
          [Goto "https://e.com/"; Request "https://e.com/robots.txt";
           Request "https://e.com/c.xml"; Request "https://e.com/index.xml";
           Request "https://e.com/a.xml"; Request "https://e.com/b.xml.gz";
           Request "https://e.com/c.xml";
           Goto "https://e.com/"; Goto "https://e.com/about"])
  ∧ ∃ arg0 arg1 arg2 rest base_url log' sample,
      ["prog"; "7"; " e.com "] = arg0 :: arg1 :: arg2 :: rest
      ∧ normalize_base_url Demo.lib (Str.strip arg2) = Ok base_url
      ∧ [Goto "https://e.com/"; Request "https://e.com/robots.txt";
         Request "https://e.com/c.xml"; Request "https://e.com/index.xml";
         Request "https://e.com/a.xml"; Request "https://e.com/b.xml.gz";
         Request "https://e.com/c.xml";
         Goto "https://e.com/"; Goto "https://e.com/about"]
        = Goto base_url :: log' ++ (Goto <$> sample)
      ∧ Z.of_nat (length sample) = Z.min 10 2
      ∧ Forall (λ u, same_host Demo.lib u base_url = Ok true) sample
      ∧ NoDup sample
      ∧ Demo.FRound (Demo.FDiv (Demo.FOfInt 10) (Demo.FOfInt 2)) 2
        = float_round (mean (omap (usable_count Demo.lib Demo.net) sample)) 2.
Proof.
  assert (E : main Demo.lib Demo.net 2 ["prog"; "7"; " e.com "]
    = Some (Ok (Completed
              {| Result.website := "e.com"; Result.total_pages := 2;
                 Result.average_words :=
                   Demo.FRound (Demo.FDiv (Demo.FOfInt 10) (Demo.FOfInt 2)) 2;
                 Result.id := "7" |}),
            [Goto "https://e.com/"; Request "https://e.com/robots.txt";
             Request "https://e.com/c.xml"; Request "https://e.com/index.xml";
             Request "https://e.com/a.xml"; Request "https://e.com/b.xml.gz";
             Request "https://e.com/c.xml";
             Goto "https://e.com/"; Goto "https://e.com/about"]))
    by (vm_compute; reflexivity).
  split; [exact E|].
  exact (main_samples_own_host Demo.lib Demo.net 2 _ _ _ E).
Defined.

Section RunsOffline.

Context (lib : Lib) (net : Net).

Lemma concat_singletons {A B} (f : A → B) (l : list A) :
  concat ((λ c, [f c]) <$> l) = f <$> l.
Proof.
  induction l as [|x l IH]; [done|].
  change (f x :: concat ((λ c, [f c]) <$> l) = f x :: (f <$> l)). by rewrite IH.
Qed.

Lemma discover_urls_from_sitemaps_offline (fuel : nat) (base_url robots_url : string)
  (joined : list string) :
  (∀ u, request_get net u = None) →
  urljoin lib base_url "robots.txt" = Ok robots_url →
  Forall2 (λ p u, urljoin lib base_url p = Ok u) well_known joined →
  discover_urls_from_sitemaps lib net (S fuel) base_url
  = Some (Ok [], Request robots_url :: (Request <$> dedup_first joined)).
Proof.
  intros Hreq Hr Hj. rewrite discover_urls_from_sitemaps_eq.
  rewrite (candidates_run_Ok lib net base_url robots_url joined Hr)
    by (by apply mapM_result_Forall2).
  unfold declared_sitemaps. rewrite Hreq. rewrite app_nil_l.
  rewrite (discover_loop_no_success lib net (S fuel) _
             ((λ c, [Request c]) <$> dedup_first joined)).
  - by rewrite (concat_singletons Request).
  - apply Forall2_fmap_r, Forall_Forall2_diag, Forall_forall. intros c _.
    rewrite fetch_all_sitemap_urls_S. unfold fetched. by rewrite Hreq.
Qed.

Lemma normalize_base_url_parses (input base_url : string) :
  normalize_base_url lib input = Ok base_url →
  urlparse lib base_url = Ok (url_fields base_url).
Proof.
  intros (sch & h & -> & Hsch & Hh & Hne & Hat & Hc & Ht)%normalize_base_url_Ok.
  rewrite urlparse_check, (urlparse_base sch h Hsch Hat). cbn [netloc]. by rewrite Hc.
Qed.

End RunsOffline.

(** X20: a site that answers nothing is reported with one page.  When no
    request and no navigation succeeds, the run requests [robots.txt] and
    each well-known sitemap once, falls back to the crawl, which keeps the
    base URL although it could not be opened, and reports [total_pages] 1
    and the average 0.0; the base URL is opened three times. *)
Theorem main_unreachable_site {F : Type} {float_ops : FloatOps F}
  (lib : Lib) (net : Net) (fuel : nat) (arg0 arg1 arg2 : string) (rest : list string)
  (base_url robots_url : string) (joined : list string) :
  (∀ u, request_get net u = None) → (∀ u, page_goto net u = None) →
  normalize_base_url lib (Str.strip arg2) = Ok base_url →
  urljoin lib base_url "robots.txt" = Ok robots_url →
  Forall2 (λ p u, urljoin lib base_url p = Ok u) well_known joined →
  main lib net (S (S fuel)) (arg0 :: arg1 :: arg2 :: rest)
  = Some (Ok (Completed
            {| Result.website := Str.strip arg2; Result.total_pages := 1;
               Result.average_words := float_round (F:=F) float_zero 2;
               Result.id := Str.strip arg1 |}),
          Goto base_url :: Request robots_url
            :: (Request <$> dedup_first joined)
            ++ [Goto base_url; Goto base_url]).
Proof.
  intros Hreq Hgo Hb Hr Hj. rewrite (main_eq lib net _ arg0 arg1 arg2 rest base_url Hb).
  rewrite (discover_urls_from_sitemaps_offline lib net _ _ robots_url joined) by done.
  rewrite fallback_crawl_internal_base_only by (by unfold default_limit || by left).
  cbn [filter_result].
  rewrite (same_host_refl lib base_url _ (normalize_base_url_parses lib _ _ Hb)).
  cbn [mbind result_bind]. cbv zeta.
  rewrite sorted_set_singleton. simpl.
  unfold usable_count. by rewrite Hgo.
Qed.

Lemma main_unreachable_site_witness :
  main Demo.lib Demo.offline 2 ["prog"; "7"; "e.com"]
  = Some (Ok (Completed
            {| Result.website := "e.com"; Result.total_pages := 1;
               Result.average_words := Demo.FRound Demo.FZero 2;
               Result.id := "7" |}),
          [Goto "https://e.com/"; Request "https://e.com/robots.txt";
           Request "https://e.com/sitemap.xml"; Request "https://e.com/sitemap_index.xml";
           Request "https://e.com/sitemap-index.xml"; Request "https://e.com/sitemap.xml.gz";
           Goto "https://e.com/"; Goto "https://e.com/"]).
Proof.
  etrans.
  - apply (main_unreachable_site Demo.lib Demo.offline 0 "prog" "7" "e.com" []
             "https://e.com/" "https://e.com/robots.txt"
             ["https://e.com/sitemap.xml"; "https://e.com/sitemap_index.xml";
              "https://e.com/sitemap-index.xml"; "https://e.com/sitemap.xml.gz"]);
      try reflexivity.
    repeat constructor.
  - vm_compute. reflexivity.
Defined.

(** X21: a sitemap that lists pages of other hosts only gives a report of no
    page.  When the sitemaps give URLs and none of them is on the host of
    the base URL, the run does not fall back to the crawl: it reports
    [total_pages] 0 and the average 0.0 and opens no page after the warm-up. *)
Theorem main_foreign_sitemap {F : Type} {float_ops : FloatOps F}
  (lib : Lib) (net : Net) (fuel : nat) (arg0 arg1 arg2 : string) (rest : list string)
  (base_url : string) (urls : list string) (log : list event) :
  normalize_base_url lib (Str.strip arg2) = Ok base_url →
  discover_urls_from_sitemaps lib net fuel base_url = Some (Ok urls, log) →
  urls ≠ [] → Forall (λ u, same_host lib u base_url = Ok false) urls →
  main lib net fuel (arg0 :: arg1 :: arg2 :: rest)
  = Some (Ok (Completed
            {| Result.website := Str.strip arg2; Result.total_pages := 0;
               Result.average_words := float_round (F:=F) float_zero 2;
               Result.id := Str.strip arg1 |}),
          Goto base_url :: log).
Proof.
  intros Hb Hd Hne Hall. rewrite (main_eq lib net _ arg0 arg1 arg2 rest base_url Hb), Hd.
  destruct urls as [|u urls]; [done|].
  rewrite filter_result_all_false by done. cbv zeta.
  rewrite sorted_set_nil. simpl. by rewrite !app_nil_r.
Qed.

Lemma main_foreign_sitemap_witness :
  normalize_base_url Demo.lib (Str.strip "e.com") = Ok "https://e.com/"
  ∧ discover_urls_from_sitemaps Demo.lib foreign_net 2 "https://e.com/"
    = Some (Ok ["https://other.org/x"],
            [Request "https://e.com/robots.txt"; Request "https://e.com/sitemap.xml"])
  ∧ main Demo.lib foreign_net 2 ["prog"; "7"; "e.com"]
    = Some (Ok (Completed
              {| Result.website := "e.com"; Result.total_pages := 0;
                 Result.average_words := Demo.FRound Demo.FZero 2;
                 Result.id := "7" |}),
            [Goto "https://e.com/"; Request "https://e.com/robots.txt";
             Request "https://e.com/sitemap.xml"]).
Proof.
  assert (Hb : normalize_base_url Demo.lib (Str.strip "e.com") = Ok "https://e.com/")
    by reflexivity.
  assert (Hd : discover_urls_from_sitemaps Demo.lib foreign_net 2 "https://e.com/"
               = Some (Ok ["https://other.org/x"],
                       [Request "https://e.com/robots.txt";
                        Request "https://e.com/sitemap.xml"]))
    by (vm_compute; reflexivity).
  split; [exact Hb|]. split; [exact Hd|].
  etrans.
  - apply (main_foreign_sitemap Demo.lib foreign_net 2 "prog" "7" "e.com" [] _ _ _ Hb Hd);
      [discriminate|]. repeat constructor.
  - reflexivity.
Defined.
